(** * The bulk converter of markitdown: a shallow embedding and its properties

    Source: packages/markitdown/src/markitdown/bulk_converter/_bulk.py and
    types.py.  Every definition below carries the name of the Python
    function it embeds.

    Modelling conventions.
    - A Python [str] is a [string]; each character stands for the code
      point of the same number (0..255).  The character classes used by
      the source ([str.isspace], the line boundaries of [str.splitlines],
      [str.lower], the regular expression class [\d]) are written out for
      that range.
    - A [pathlib.Path] is the list of its components below the file-system
      root; paths are absolute and already resolved, and a component is a
      non-empty name without a separator.  [suffix] and [stem] follow
      pathlib as of Python 3.8 to 3.13.
    - The part of the file system the run writes to is a finite map from
      paths to entries; the tree the run reads (below the source root) is
      a value of [node].  The two are kept apart: the model covers runs
      whose destination root and source root are not inside one another
      (the default destination is a sibling of the source root).
    - Exceptions are values of [exn]; a call that may raise returns a
      [result].
    - The operating system refuses [os.mkdir], [open] and [os.replace]
      only for what the file system holds: a regular file or a directory
      in the way.  Refusals for other causes (permissions, the length of a
      name, a full or read-only medium) are not modelled; the
      confirmation callback answers yes or no, and the converter is taken
      as built. *)

From Stdlib Require Import ZArith Ascii String.
From stdpp Require Import base option list gmap strings pretty.

Local Open Scope Z_scope.

(** ** Python strings *)

Module Str.

Definition len (s : string) : nat := String.length s.

Fixpoint take (n : nat) (s : string) : string :=
  match n, s with
  | S n', String c s' => String c (take n' s')
  | _, _ => ""
  end.

Fixpoint drop (n : nat) (s : string) : string :=
  match n, s with
  | S n', String _ s' => drop n' s'
  | _, _ => s
  end.

(** [s.startswith(pre)] *)
Fixpoint startswith (s pre : string) : bool :=
  match pre, s with
  | "", _ => true
  | String p pre', String c s' => bool_decide (c = p) && startswith s' pre'
  | String _ _, "" => false
  end.

(** [s.rfind(c)] for a one-character needle; [None] stands for -1. *)
Fixpoint rfind (c : ascii) (s : string) : option nat :=
  match s with
  | "" => None
  | String a s' =>
      match rfind c s' with
      | Some i => Some (S i)
      | None => if decide (a = c) then Some 0%nat else None
      end
  end.

(** [str.lower] on code points below 256: A-Z, and the Latin-1 capitals
    192..222 except the multiplication sign 215. *)
Definition lower_char (c : ascii) : ascii :=
  let n := nat_of_ascii c in
  if bool_decide (65 ≤ n ≤ 90)%nat then ascii_of_nat (n + 32)
  else if bool_decide (192 ≤ n ≤ 222 ∧ n ≠ 215)%nat then ascii_of_nat (n + 32)
  else c.

Fixpoint lower (s : string) : string :=
  match s with
  | "" => ""
  | String c s' => String (lower_char c) (lower s')
  end.

(** [s.lstrip(".")] *)
Fixpoint lstrip_dot (s : string) : string :=
  match s with
  | String "." s' => lstrip_dot s'
  | _ => s
  end.

(** [str.isspace] for one code point below 256. *)
Definition isspace (c : ascii) : bool :=
  let n := nat_of_ascii c in
  bool_decide (9 ≤ n ≤ 13)%nat || bool_decide (28 ≤ n ≤ 32)%nat
  || bool_decide (n = 133)%nat || bool_decide (n = 160)%nat.

(** The line boundaries of [str.splitlines] below 256: LF, VT, FF, CR,
    FS, GS, RS and NEL. *)
Definition islinebreak (c : ascii) : bool :=
  let n := nat_of_ascii c in
  bool_decide (10 ≤ n ≤ 13)%nat || bool_decide (28 ≤ n ≤ 30)%nat
  || bool_decide (n = 133)%nat.

(** The class [\d] below 256. *)
Definition isdigit (c : ascii) : bool :=
  let n := nat_of_ascii c in bool_decide (48 ≤ n ≤ 57)%nat.

End Str.

(** ** pathlib *)

Abbreviation Path := (list string).

Module PurePath.

(** [p.name]; the root has the empty name. *)
Definition name (p : Path) : string := List.last p "".

(** [p.parent]; the root is its own parent. *)
Definition parent (p : Path) : Path := removelast p.

(** [p / n] for a single component [n]. *)
Definition join (p : Path) (n : string) : Path := p ++ [n].

(** The index of the dot that starts the suffix: the last dot, when it is
    neither the first nor the last character of the name. *)
Definition suffix_index (nm : string) : option nat :=
  match Str.rfind "." nm with
  | Some i => if bool_decide (0 < i < Str.len nm - 1)%nat then Some i else None
  | None => None
  end.

(** [p.suffix] *)
Definition suffix (p : Path) : string :=
  match suffix_index (name p) with
  | Some i => Str.drop i (name p)
  | None => ""
  end.

(** [p.stem] *)
Definition stem (p : Path) : string :=
  match suffix_index (name p) with
  | Some i => Str.take i (name p)
  | None => name p
  end.

(** [p.with_suffix(s)] for a well-formed [s]; [None] is the ValueError
    pathlib raises on a path with an empty name. *)
Definition with_suffix (p : Path) (s : string) : option Path :=
  if decide (name p = "") then None
  else Some (join (parent p) (stem p +:+ s)).

(** [src.relative_to(root)]; [None] is the ValueError raised when [src]
    is not below [root]. *)
Fixpoint relative_to (src root : Path) : option Path :=
  match root, src with
  | [], _ => Some src
  | r :: root', c :: src' => if decide (c = r) then relative_to src' root' else None
  | _ :: _, [] => None
  end.

End PurePath.

Infix "//" := PurePath.join (at level 40, left associativity).

(** ** The file system written by the run *)

Inductive entry :=
  | File (data : string)
  | Dir.

Global Instance entry_eq_dec : EqDecision entry.
Proof. solve_decision. Defined.

Abbreviation FS := (gmap (list string) entry).

(** [p.exists()]; the file-system root always exists. *)
Definition exists_ (fs : FS) (p : Path) : bool :=
  match p with
  | [] => true
  | _ => bool_decide (is_Some (fs !! p))
  end.

Definition is_file (fs : FS) (p : Path) : bool :=
  match fs !! p with Some (File _) => true | _ => false end.

Definition is_dir (fs : FS) (p : Path) : bool :=
  match p with
  | [] => true
  | _ => match fs !! p with Some Dir => true | _ => false end
  end.

(** ** _unique_path *)

(** The pattern [" \((\d+)\)$"] tried at the start of [s]: a space, an
    opening parenthesis, one or more digits, a closing parenthesis, and
    then the end of the string, which [$] also finds just before a final
    newline. *)
Fixpoint digits_close (seen : bool) (s : string) : bool :=
  match s with
  | "" => false
  | String c s' =>
      if Str.isdigit c then digits_close true s'
      else if decide (c = ")"%char) then
        seen && (bool_decide (s' = "") || bool_decide (s' = String "010" ""))
      else false
  end.

Definition match_numbered (s : string) : bool :=
  match s with
  | String " " (String "(" s') => digits_close false s'
  | _ => false
  end.

(** [pattern.search(stem)]: the leftmost position at which the pattern
    matches; the result is [m.start()]. *)
Fixpoint re_search (s : string) : option nat :=
  if match_numbered s then Some 0%nat
  else match s with
       | "" => None
       | String _ s' => S <$> re_search s'
       end.

(** [base_stem]: the stem cut at the start of the match, if any. *)
Definition base_stem (stem : string) : string :=
  match re_search stem with
  | Some i => Str.take i stem
  | None => stem
  end.

(** The name [f"{base_stem} ({i}){suffix}"]. *)
Definition numbered_name (base : string) (i : nat) (suffix : string) : string :=
  base +:+ " (" +:+ pretty i +:+ ")" +:+ suffix.

(** The [while True] loop, started at [i]: [fuel] bounds the number of
    candidates tried, and [None] means the bound was reached. *)
Fixpoint _unique_path_loop (fs : FS) (parent : Path) (base suffix : string)
    (fuel i : nat) : option Path :=
  match fuel with
  | O => None
  | S fuel' =>
      let cand := parent // numbered_name base i suffix in
      if negb (exists_ fs cand) then Some cand
      else _unique_path_loop fs parent base suffix fuel' (S i)
  end.

(** One more candidate than there are entries is always enough, see
    [_unique_path_loop_total]. *)
Definition _unique_path_fuel (fs : FS) (p : Path) : option Path :=
  if negb (exists_ fs p) then Some p
  else
    _unique_path_loop fs (PurePath.parent p) (base_stem (PurePath.stem p))
      (PurePath.suffix p) (S (size fs)) 1.

Definition _unique_path (fs : FS) (p : Path) : Path :=
  default p (_unique_path_fuel fs p).

(** ** The source tree and os.walk *)

(** What the run finds below the source root.  A file carries what
    [os.stat] reports as [st_size], or [None] when [os.stat] raises
    OSError; a directory carries its listing in the order [os.scandir]
    returns it.  There are no symbolic links. *)
#[local] Set Warnings "-register-all".

Inductive node :=
  | NFile (st_size : option Z)
  | NDir (entries : list (string * node)).

Definition is_NDir (n : node) : bool :=
  match n with NDir _ => true | NFile _ => false end.

(** The two lists [os.walk] builds from a listing. *)
Definition dirnames (es : list (string * node)) : list string :=
  (filter (λ e, is_NDir e.2) es).*1.

Definition filenames (es : list (string * node)) : list string :=
  (filter (λ e, negb (is_NDir e.2)) es).*1.

(** [os.walk(top)], top-down.  Both callers replace [dirnames] in place by
    the sub-list of the names that pass a test before the walk descends;
    [keep] is that test, and the walk descends into the directories whose
    name passes it, in listing order. *)
Fixpoint os_walk (keep : string → bool) (top : Path) (n : node)
    : list (Path * list string * list string) :=
  match n with
  | NFile _ => []
  | NDir es =>
      (top, dirnames es, filenames es) ::
      (fix descend (es : list (string * node)) :=
         match es with
         | [] => []
         | (nm, child) :: es' =>
             if is_NDir child && keep nm
             then os_walk keep (top // nm) child ++ descend es'
             else descend es'
         end) es
  end.

(** The first entry of a listing with a given name. *)
Fixpoint entry_named (nm : string) (es : list (string * node)) : option node :=
  match es with
  | [] => None
  | (nm', child) :: es' => if decide (nm' = nm) then Some child else entry_named nm es'
  end.

Fixpoint lookup_node (n : node) (rel : Path) : option node :=
  match rel with
  | [] => Some n
  | c :: rel' =>
      match n with
      | NDir es => entry_named c es ≫= λ child, lookup_node child rel'
      | NFile _ => None
      end
  end.

(** [os.stat(p).st_size] for a path of the source tree; [None] is OSError.
    The source asks it of listed file names only. *)
Definition os_stat (root : Path) (tree : node) (p : Path) : option Z :=
  match PurePath.relative_to p root ≫= lookup_node tree with
  | Some (NFile sz) => sz
  | _ => None
  end.

(** [d.startswith(".")] *)
Definition hidden (nm : string) : bool := Str.startswith nm ".".

(** The test behind
    [dirnames[:] = [d for d in dirnames if not d.startswith(".")]],
    applied only when [skip_hidden]. *)
Definition keep_dir (skip_hidden : bool) (d : string) : bool :=
  negb (skip_hidden && hidden d).

(** The files of one listing that are not skipped. *)
Definition kept_files (skip_hidden : bool) (fns : list string) : list string :=
  filter (λ fn, negb (skip_hidden && hidden fn)) fns.

Definition _iter_files (root : Path) (tree : node) (skip_hidden : bool) : list Path :=
  '(dp, _, fns) ← os_walk (keep_dir skip_hidden) root tree;
  (λ fn, dp // fn) <$> kept_files skip_hidden fns.

Record PreflightStats := mkPreflightStats {
  ps_root : Path;
  ps_dirs : Z;
  ps_files : Z;
  ps_bytes : Z
}.

Record BulkConvertThresholds := mkThresholds {
  max_dirs : Z;
  max_files : Z;
  max_bytes : Z
}.

Definition default_thresholds : BulkConvertThresholds :=
  {| max_dirs := 16; max_files := 128; max_bytes := 300 * 1024 * 1024 |}.

(** The inner [for f in filenames] of [_preflight]: add the size of every
    file that is not skipped and whose [os.stat] succeeds. *)
Definition tally_bytes (root : Path) (tree : node) (skip_hidden : bool)
    (dirpath : Path) (fns : list string) (total_bytes : Z) : Z :=
  foldl (λ tb f,
           if skip_hidden && hidden f then tb
           else match os_stat root tree (dirpath // f) with
                | Some sz => tb + sz
                | None => tb
                end) total_bytes fns.

Definition _preflight (root : Path) (tree : node) (skip_hidden : bool) : PreflightStats :=
  let '(dirs, files, total_bytes) :=
    foldl (λ '(dirs, files, total_bytes) '(dirpath, _, fns),
             (dirs + 1,
              files + Z.of_nat (length (kept_files skip_hidden fns)),
              tally_bytes root tree skip_hidden dirpath fns total_bytes))
          (0, 0, 0) (os_walk (keep_dir skip_hidden) root tree) in
  {| ps_root := root; ps_dirs := dirs; ps_files := files; ps_bytes := total_bytes |}.

(** ** Exceptions *)

(** [str(path)] *)
Definition fspath (p : Path) : string := "/" +:+ String.concat "/" p.

Inductive exn :=
  | NotADirectoryError (msg : string)
  | FileExistsError (msg : string)
  | IsADirectoryError (msg : string)
  | ValueError (msg : string)
  | PreflightExceeded (stats : PreflightStats) (thresholds : BulkConvertThresholds)
  | ConversionError (msg : string).

(** The message of [PreflightExceeded.__init__]. *)
Definition preflight_message (stats : PreflightStats) (th : BulkConvertThresholds) : string :=
  "Preflight limits exceeded: dirs=" +:+ pretty (ps_dirs stats) +:+ "/" +:+ pretty (max_dirs th)
  +:+ ", files=" +:+ pretty (ps_files stats) +:+ "/" +:+ pretty (max_files th)
  +:+ ", bytes=" +:+ pretty (ps_bytes stats) +:+ "/" +:+ pretty (max_bytes th).

(** [str(e)] *)
Definition str (e : exn) : string :=
  match e with
  | NotADirectoryError msg | FileExistsError msg | IsADirectoryError msg
  | ValueError msg | ConversionError msg => msg
  | PreflightExceeded stats th => preflight_message stats th
  end.

(** The text of an OSError built by the operating-system layer, for file
    names whose [repr] needs no escape. *)
Definition os_error (errno : Z) (strerror : string) (p : Path) : string :=
  "[Errno " +:+ pretty errno +:+ "] " +:+ strerror +:+ ": '" +:+ fspath p +:+ "'".

Definition os_error2 (errno : Z) (strerror : string) (p q : Path) : string :=
  "[Errno " +:+ pretty errno +:+ "] " +:+ strerror +:+ ": '" +:+ fspath p
  +:+ "' -> '" +:+ fspath q +:+ "'".

Inductive result (A : Type) :=
  | Ok (a : A)
  | Raise (e : exn).
Arguments Ok {A} a.
Arguments Raise {A} e.

(** ** Effects: the file system and the log of what the run does *)

Inductive event :=
  | EvMkdir (p : Path)              (* os.mkdir creates one directory *)
  | EvOpen (p : Path)               (* open(p, "w"): the file is created or truncated *)
  | EvWrite (p : Path) (c : ascii)  (* one more character reaches the file *)
  | EvReplace (tmp p : Path)        (* os.replace(tmp, p) *)
  | EvPreflight (root : Path)       (* the preflight scan of the source tree *)
  | EvConfirm (stats : PreflightStats) (th : BulkConvertThresholds)
                                    (* the confirmation callback is called *)
  | EvConvert (p : Path).           (* converter.convert_local(str(p)) *)

(** What one event does to the file system. *)
Definition apply_event (fs : FS) (ev : event) : FS :=
  match ev with
  | EvMkdir p => <[p := Dir]> fs
  | EvOpen p => <[p := File ""]> fs
  | EvWrite p c =>
      match fs !! p with
      | Some (File d) => <[p := File (d +:+ String c "")]> fs
      | _ => fs
      end
  | EvReplace tmp p =>
      match fs !! tmp with
      | Some e => <[p := e]> (delete tmp fs)
      | None => fs
      end
  | EvPreflight _ | EvConfirm _ _ | EvConvert _ => fs
  end.

(** The file system after a sequence of events. *)
Definition replay (fs : FS) (evs : list event) : FS := foldl apply_event fs evs.

Record world := mkWorld {
  w_fs : FS;
  w_log : list event
}.

(** A computation reads and changes the world and returns or raises; the
    world is kept when it raises. *)
Definition M (A : Type) : Type := world → result A * world.

Global Instance M_ret : MRet M := λ A a w, (Ok a, w).

Global Instance M_bind : MBind M := λ A B f m w,
  match m w with
  | (Ok a, w') => f a w'
  | (Raise e, w') => (Raise e, w')
  end.

Definition raise {A} (e : exn) : M A := λ w, (Raise e, w).

(** [try: m except Exception as e: h e] *)
Definition try_except {A} (m : M A) (h : exn → M A) : M A := λ w,
  match m w with
  | (Ok a, w') => (Ok a, w')
  | (Raise e, w') => h e w'
  end.

(** A call that returns or raises and leaves the world alone. *)
Definition lift {A} (r : result A) : M A := λ w, (r, w).

Definition get_fs : M FS := λ w, (Ok (w_fs w), w).

(** Perform one event. *)
Definition emit (ev : event) : M unit := λ w,
  (Ok (), {| w_fs := apply_event (w_fs w) ev; w_log := w_log w ++ [ev] |}).

(** ** Path.mkdir(parents=True, exist_ok=True) *)

(** The directories from the top down: [done_] has been seen to be a
    directory, the components of [todo] remain.  A missing directory is
    created; a regular file in the way makes [os.mkdir] fail, with
    FileExistsError when it is the target itself and NotADirectoryError
    when it is an ancestor. *)
Fixpoint mkdir_parents (target done_ todo : Path) : M unit :=
  match todo with
  | [] => mret ()
  | c :: todo' =>
      let q := done_ // c in
      fs ← get_fs;
      match fs !! q with
      | Some (File _) =>
          raise (match todo' with
                 | [] => FileExistsError (os_error 17 "File exists" target)
                 | _ => NotADirectoryError (os_error 20 "Not a directory" target)
                 end)
      | Some Dir => mkdir_parents target q todo'
      | None => emit (EvMkdir q);; mkdir_parents target q todo'
      end
  end.

Definition mkdir (p : Path) : M unit := mkdir_parents p [] p.

(** ** _write_atomic *)

(** [f.write(data)] followed by the flush of [close]: the characters reach
    the file in order.  The finest schedule, one character at a time, is
    taken; every coarser one passes through a sub-sequence of its states. *)
Fixpoint write_chars (p : Path) (data : string) : M unit :=
  match data with
  | "" => mret ()
  | String c data' => emit (EvWrite p c);; write_chars p data'
  end.

(** [p.with_suffix(s)], which raises ValueError on an empty name. *)
Definition with_suffix (p : Path) (s : string) : result Path :=
  match PurePath.with_suffix p s with
  | Some q => Ok q
  | None => Raise (ValueError ("PosixPath('" +:+ fspath p +:+ "') has an empty name"))
  end.

Definition _write_atomic (dest_path : Path) (data : string) : M unit :=
  mkdir (PurePath.parent dest_path);;
  tmp ← lift (with_suffix dest_path (PurePath.suffix dest_path +:+ ".tmp"));
  fs ← get_fs;
  (if is_dir fs tmp
   then raise (IsADirectoryError (os_error 21 "Is a directory" tmp))
   else emit (EvOpen tmp));;
  write_chars tmp data;;
  fs ← get_fs;
  if is_dir fs dest_path
  then raise (IsADirectoryError (os_error2 21 "Is a directory" tmp dest_path))
  else emit (EvReplace tmp dest_path).

(** ** _count_words_and_headings *)

(** [s.split()]: runs of white space separate the tokens.  [tok] is the
    token being read, empty between tokens. *)
Fixpoint split_go (tok : string) (s : string) : list string :=
  match s with
  | "" => if decide (tok = "") then [] else [tok]
  | String c s' =>
      if Str.isspace c
      then (if decide (tok = "") then split_go "" s' else tok :: split_go "" s')
      else split_go (tok +:+ String c "") s'
  end.

Definition split (s : string) : list string := split_go "" s.

(** [s.splitlines()]: a line ends at a line boundary, CR LF counting as
    one; the text after the last boundary is a line when it is not empty.
    [line] is the line being read; [after_cr] holds just after a CR that
    ended a line, where a LF belongs to the same boundary. *)
Fixpoint splitlines_go (line : string) (after_cr : bool) (s : string) : list string :=
  match s with
  | "" => if decide (line = "") then [] else [line]
  | String c s' =>
      if after_cr && bool_decide (c = "010"%char) then splitlines_go "" false s'
      else if Str.islinebreak c
      then line :: splitlines_go "" (bool_decide (c = "013"%char)) s'
      else splitlines_go (line +:+ String c "") false s'
  end.

Definition splitlines (s : string) : list string := splitlines_go "" false s.

(** [s.lstrip()] *)
Fixpoint lstrip (s : string) : string :=
  match s with
  | String c s' => if Str.isspace c then lstrip s' else s
  | "" => ""
  end.

Definition is_heading (line : string) : bool := Str.startswith (lstrip line) "#".

Definition _count_words_and_headings (markdown : string) : Z * Z :=
  let words := Z.of_nat (length (split markdown)) in
  let headings := Z.of_nat (length (filter (λ line, is_heading line) (splitlines markdown))) in
  (words, headings).

(** ** types.py *)

Inductive Status := converted | skipped | failed.

Global Instance Status_eq_dec : EqDecision Status.
Proof. solve_decision. Defined.

Record BulkFileResult := mkBulkFileResult {
  fr_src : Path;
  fr_dest : option Path;
  fr_status : Status;
  fr_reason : option string;
  fr_words : option Z;
  fr_headings : option Z
}.

Record BulkResult := mkBulkResult {
  br_root : Path;
  br_dest : Path;
  br_files : list BulkFileResult;
  br_converted : Z;
  br_skipped : Z;
  br_failed : Z;
  br_total_words : Z;
  br_total_headings : Z
}.

(** ** Path helpers of _bulk.py *)

Definition _md_sibling_dest (root : Path) : Path :=
  PurePath.parent root // (PurePath.name root +:+ "-md").

Definition _ext_of (p : Path) : string :=
  Str.lstrip_dot (Str.lower (PurePath.suffix p)).

Definition _derive_output_path (src root dest_root : Path) : result Path :=
  match PurePath.relative_to src root with
  | Some rel => with_suffix (dest_root ++ rel) ".md"
  | None =>
      Raise (ValueError ("'" +:+ fspath src +:+ "' is not in the subpath of '"
                         +:+ fspath root +:+ "'"))
  end.

Inductive ConflictPolicy := rename | skip.

(** ** bulk_convert *)

(** The local variables the loop of [bulk_convert] updates. *)
Record tally := mkTally {
  results : list BulkFileResult;
  n_converted : Z;
  n_skipped : Z;
  n_failed : Z;
  total_words : Z;
  total_headings : Z
}.

Definition tally0 : tally := mkTally [] 0 0 0 0 0.

Definition record_skipped (t : tally) (file_path : Path) (why : string) : tally :=
  {| results := results t ++ [mkBulkFileResult file_path None skipped (Some why) None None];
     n_converted := n_converted t; n_skipped := n_skipped t + 1; n_failed := n_failed t;
     total_words := total_words t; total_headings := total_headings t |}.

Definition record_converted (t : tally) (file_path final_out : Path) (words headings : Z)
    : tally :=
  {| results := results t ++
       [mkBulkFileResult file_path (Some final_out) converted None (Some words) (Some headings)];
     n_converted := n_converted t + 1; n_skipped := n_skipped t; n_failed := n_failed t;
     total_words := total_words t + words; total_headings := total_headings t + headings |}.

Definition record_failed (t : tally) (file_path : Path) (why : string) : tally :=
  {| results := results t ++ [mkBulkFileResult file_path None failed (Some why) None None];
     n_converted := n_converted t; n_skipped := n_skipped t; n_failed := n_failed t + 1;
     total_words := total_words t; total_headings := total_headings t |}.

(** How an iteration of the loop ends. *)
Inductive ctl := Continue | Break.

(** [if exts: exts = {e.lower().lstrip('.') for e in exts}]: a set that is
    missing or empty is left as it is. *)
Definition normalize_ext (exts : option (gset string)) : option (gset string) :=
  match exts with
  | Some s => if decide (s = ∅) then Some s
              else Some (set_map (λ e, Str.lstrip_dot (Str.lower e)) s)
  | None => None
  end.

Definition exceeded (stats : PreflightStats) (th : BulkConvertThresholds) : bool :=
  bool_decide (ps_dirs stats > max_dirs th)
  || bool_decide (ps_files stats > max_files th)
  || bool_decide (ps_bytes stats > max_bytes th).

Section Bulk.

(** The external converter: [converter.convert_local(str(file_path))]
    followed by the extraction of [md_text]; it returns the Markdown text
    or raises. *)
Variable convert_local : Path → result string.

(** [_make_report]: the text of the report; none of the properties below
    depends on it. *)
Variable _make_report : BulkResult → string.

Definition convert (file_path : Path) : M string :=
  emit (EvConvert file_path);;
  lift (convert_local file_path).

Section Body.

Variables (src_root dest_root : Path).
Variables (include_ext exclude_ext : option (gset string)).
Variable on_conflict : ConflictPolicy.
Variable continue_on_error : bool.

(** The two filters at the head of the loop body; [if include_ext and ...]
    passes over a set that is missing or empty. *)
Definition filtered (file_path : Path) : bool :=
  match include_ext with
  | Some inc => bool_decide (inc ≠ ∅) && bool_decide (_ext_of file_path ∉ inc)
  | None => false
  end
  || match exclude_ext with
     | Some exc => bool_decide (exc ≠ ∅) && bool_decide (_ext_of file_path ∈ exc)
     | None => false
     end.

(** The part of the body from the conflict policy on. *)
Definition resolve_and_write (t : tally) (file_path out_path : Path)
    (md_text : string) (words headings : Z) : M (tally * ctl) :=
  fs ← get_fs;
  match on_conflict with
  | skip =>
      if exists_ fs out_path
      then mret (record_skipped t file_path "exists", Continue)
      else
        _write_atomic out_path md_text;;
        mret (record_converted t file_path out_path words headings, Continue)
  | rename =>
      let final_out := _unique_path fs out_path in
      _write_atomic final_out md_text;;
      mret (record_converted t file_path final_out words headings, Continue)
  end.

(** The body of [for file_path in _iter_files(...)]. *)
Definition process_file (t : tally) (file_path : Path) : M (tally * ctl) :=
  if filtered file_path
  then mret (record_skipped t file_path "filtered", Continue)
  else
    out_path ← lift (_derive_output_path file_path src_root dest_root);
    try_except
      (md_text ← convert file_path;
       let '(words, headings) := _count_words_and_headings md_text in
       resolve_and_write t file_path out_path md_text words headings)
      (λ e, mret (record_failed t file_path (str e),
                  if continue_on_error then Continue else Break)).

Fixpoint loop (t : tally) (files : list Path) : M tally :=
  match files with
  | [] => mret t
  | file_path :: files' =>
      '(t', c) ← process_file t file_path;
      match c with
      | Continue => loop t' files'
      | Break => mret t'
      end
  end.

End Body.

(** The threshold gate. *)
Definition gate (stats : PreflightStats) (th : BulkConvertThresholds)
    (confirm : option (PreflightStats → BulkConvertThresholds → bool)) : M unit :=
  if exceeded stats th then
    match confirm with
    | Some f =>
        emit (EvConfirm stats th);;
        if f stats th then mret () else raise (PreflightExceeded stats th)
    | None => raise (PreflightExceeded stats th)
    end
  else mret ().

(** [bulk_convert].  [src] is what the resolved [root] designates on
    disk, if anything; [dest] is the resolved destination, [None] when
    the argument is missing or empty.  [workers] is unused by the source
    and [enable_plugins] only reaches the converter. *)
Definition bulk_convert (src : option node) (root : Path) (dest : option Path)
    (include_ext exclude_ext : option (gset string))
    (on_conflict : ConflictPolicy) (continue_on_error : bool)
    (thresholds : option BulkConvertThresholds)
    (confirm : option (PreflightStats → BulkConvertThresholds → bool))
    (skip_hidden : bool) : M BulkResult :=
  match src with
  | Some (NDir es) =>
      let tree := NDir es in
      let dest_root := default (_md_sibling_dest root) dest in
      mkdir dest_root;;
      let th := default default_thresholds thresholds in
      emit (EvPreflight root);;
      let stats := _preflight root tree skip_hidden in
      gate stats th confirm;;
      let include_ext := normalize_ext include_ext in
      let exclude_ext := normalize_ext exclude_ext in
      t ← loop root dest_root include_ext exclude_ext on_conflict continue_on_error
             tally0 (_iter_files root tree skip_hidden);
      let bulk :=
        {| br_root := root; br_dest := dest_root; br_files := results t;
           br_converted := n_converted t; br_skipped := n_skipped t;
           br_failed := n_failed t; br_total_words := total_words t;
           br_total_headings := total_headings t |} in
      _write_atomic (dest_root // "process_report.md") (_make_report bulk);;
      mret bulk
  | _ =>
      raise (NotADirectoryError
               ("Root path does not exist or is not a directory: " +:+ fspath root))
  end.

End Bulk.

(** The world before a run: a file system and an empty log. *)
Definition start (fs : FS) : world := {| w_fs := fs; w_log := [] |}.


(** ** Definitions used to state the properties *)



(** A file system in which [out/file.md] exists. *)
Definition fs_file_md : FS := {[ ["out"; "file.md"] := File "old" ]}.

(** The descent of [os_walk] below a listing, as a function of its own. *)
Definition walk_entries (keep : string → bool) (top : Path)
    (es : list (string * node)) : list (Path * list string * list string) :=
  '(nm, child) ← es;
  if is_NDir child && keep nm then os_walk keep (top // nm) child else [].

(** [p] lies below [root] and no component of it below [root] starts with
    a dot. *)
Definition visible (root p : Path) : bool :=
  match PurePath.relative_to p root with
  | Some rel => forallb (λ c, negb (hidden c)) rel
  | None => false
  end.

(** The size [_preflight] adds for a file: what [os.stat] reports, and
    nothing when it raises. *)
Definition counted_size (root : Path) (tree : node) (p : Path) : Z :=
  default 0 (os_stat root tree p).

Definition sum_list_Z (l : list Z) : Z := foldr Z.add 0 l.

(** A computation [m] keeps the relation [R] between the world it starts
    in and the world it ends in, whether it returns or raises. *)
Definition preserves {A} (R : world → world → Prop) (m : M A) : Prop :=
  ∀ w r w', m w = (r, w') → R w w'.

(** The log grows by events that satisfy [P], and the file system is the
    old one after those events. *)
Definition log_extends (P : event → Prop) (w w' : world) : Prop :=
  ∃ evs, w_log w' = w_log w ++ evs ∧ w_fs w' = replay (w_fs w) evs ∧ Forall P evs.

(** Directories stay directories. *)
Definition keeps_dirs (w w' : world) : Prop :=
  ∀ q, w_fs w !! q = Some Dir → w_fs w' !! q = Some Dir.

(** The last character of a string. *)
Fixpoint last_char (s : string) : option ascii :=
  match s with
  | "" => None
  | String c "" => Some c
  | String _ s' => last_char s'
  end.

(** The temporary files of [_write_atomic] have a name that ends in "p";
    the outputs of the run have a name that ends in "d". *)
Definition tmp_named (p : Path) : bool :=
  bool_decide (last_char (PurePath.name p) = Some "p"%char).

(** Entries whose name does not end like a temporary file stay. *)
Definition keeps_entries (w w' : world) : Prop :=
  ∀ q, tmp_named q = false → is_Some (w_fs w !! q) → is_Some (w_fs w' !! q).

(** The events that convert or write a file. *)
Definition is_work (ev : event) : bool :=
  match ev with
  | EvConvert _ | EvOpen _ | EvWrite _ _ | EvReplace _ _ => true
  | _ => false
  end.

(** The events of the preflight and of the threshold gate. *)
Definition is_gate (ev : event) : bool :=
  match ev with
  | EvPreflight _ | EvConfirm _ _ => true
  | _ => false
  end.

Definition is_mkdir (ev : event) : bool :=
  match ev with EvMkdir _ => true | _ => false end.

(** An event that moves a file moves a temporary file. *)
Definition moves_tmp (ev : event) : bool :=
  match ev with EvReplace tmp _ => tmp_named tmp | _ => true end.

(** The temporary sibling [_write_atomic] writes to. *)
Definition tmp_of (dest_path : Path) : Path :=
  PurePath.parent dest_path // (PurePath.name dest_path +:+ ".tmp").

(** The characters of a string, in order. *)
Definition chars (s : string) : list ascii := list_ascii_of_string s.

(** The events of [_write_atomic] after the directories are made: the
    temporary file is opened, receives [data], and is moved. *)
Definition write_events (dest_path : Path) (data : string) : list event :=
  EvOpen (tmp_of dest_path) :: (EvWrite (tmp_of dest_path) <$> chars data)
  ++ [EvReplace (tmp_of dest_path) dest_path].

(** The non-empty prefixes of a path: its ancestors below the root, and
    the path itself. *)
Definition ancestors_and_self (p : Path) : list Path :=
  (λ n, take n p) <$> seq 1 (length p).

(** The paths an event changes. *)
Definition touches (ev : event) (p : Path) : Prop :=
  match ev with
  | EvMkdir q | EvOpen q | EvWrite q _ => q = p
  | EvReplace tmp q => tmp = p ∨ q = p
  | EvPreflight _ | EvConfirm _ _ | EvConvert _ => False
  end.

(** The world after the converter has been called on [file_path]. *)
Definition after_convert (w : world) (file_path : Path) : world :=
  {| w_fs := w_fs w; w_log := w_log w ++ [EvConvert file_path] |}.

(** What the [except] branch of the loop body returns. *)
Definition on_failure (continue_on_error : bool) (t : tally) (file_path : Path) (e : exn)
    : tally * ctl :=
  (record_failed t file_path (str e), if continue_on_error then Continue else Break).

(** The counters agree with the recorded outcomes. *)
Definition count_status (s : Status) (l : list BulkFileResult) : Z :=
  Z.of_nat (length (filter (λ o, fr_status o = s) l)).

Definition sum_words (l : list BulkFileResult) : Z :=
  sum_list_Z ((λ o, default 0 (fr_words o)) <$> filter (λ o, fr_status o = converted) l).

Definition sum_headings (l : list BulkFileResult) : Z :=
  sum_list_Z ((λ o, default 0 (fr_headings o)) <$> filter (λ o, fr_status o = converted) l).

Definition tally_consistent (t : tally) : Prop :=
  n_converted t = count_status converted (results t)
  ∧ n_skipped t = count_status skipped (results t)
  ∧ n_failed t = count_status failed (results t)
  ∧ total_words t = sum_words (results t)
  ∧ total_headings t = sum_headings (results t).

(** The world after the preflight scan. *)
Definition after_preflight (w : world) (root : Path) : world :=
  {| w_fs := w_fs w; w_log := w_log w ++ [EvPreflight root] |}.

(** The world after the confirmation callback has been called. *)
Definition after_confirm (w : world) (stats : PreflightStats) (th : BulkConvertThresholds)
    : world :=
  {| w_fs := w_fs w; w_log := w_log w ++ [EvConfirm stats th] |}.

(** The gate lets the run through. *)
Definition gate_passes (stats : PreflightStats) (th : BulkConvertThresholds)
    (confirm : option (PreflightStats → BulkConvertThresholds → bool)) : bool :=
  negb (exceeded stats th)
  || match confirm with Some f => f stats th | None => false end.

(** The result assembled from the tally at the end of the loop. *)
Definition bulk_of (root dest_root : Path) (t : tally) : BulkResult :=
  {| br_root := root; br_dest := dest_root; br_files := results t;
     br_converted := n_converted t; br_skipped := n_skipped t;
     br_failed := n_failed t; br_total_words := total_words t;
     br_total_headings := total_headings t |}.

(** What the loop body may add to the tally for [file_path]. *)
Definition recorded (convert_local : Path → result string) (t t' : tally)
    (file_path : Path) : Prop :=
  (∃ why, t' = record_skipped t file_path why)
  ∨ (∃ out md_text, convert_local file_path = Ok md_text
       ∧ t' = record_converted t file_path out
                (_count_words_and_headings md_text).1 (_count_words_and_headings md_text).2)
  ∨ (∃ why, t' = record_failed t file_path why).

(** A converted outcome carries the counts of the text the converter
    returned for its source. *)
Definition counts_from (convert_local : Path → result string) (o : BulkFileResult) : Prop :=
  fr_status o = converted →
  ∃ md_text, convert_local (fr_src o) = Ok md_text
    ∧ fr_words o = Some (_count_words_and_headings md_text).1
    ∧ fr_headings o = Some (_count_words_and_headings md_text).2.

(** The events of a run after the gate: no preflight, no confirmation,
    and every file that is moved is a temporary file. *)
Definition after_gate_event (ev : event) : Prop :=
  is_gate ev = false ∧ moves_tmp ev = true.

(** ** A small run, used to exercise the properties

    The tree of the test suite: two files in [a], one in [b], and a hidden
    directory. *)
Definition demo_entries : list (string * node) :=
  [("a", NDir [("f1.txt", NFile (Some 5)); ("f2.pdf", NFile (Some 4))]);
   (".hidden", NDir [("x.txt", NFile (Some 6))]);
   ("b", NDir [("g.docx", NFile (Some 4))])].

Definition demo_tree : node := NDir demo_entries.

(** The converter of the test suite, except that it raises on PDF files. *)
Definition demo_convert (p : Path) : result string :=
  if decide (_ext_of p = "pdf") then Raise (ConversionError "cannot convert")
  else Ok ("#" +:+ PurePath.name p +:+ " converted").

Definition demo_report (b : BulkResult) : string :=
  "Converted: " +:+ pretty (br_converted b).

Definition demo_src : Path := ["tmp"; "src"].
Definition demo_dest : Path := ["tmp"; "out"].

(** The demo run under a conflict policy and an error policy, from a given
    file system. *)
Definition demo_run (on_conflict : ConflictPolicy) (continue_on_error : bool) (fs : FS)
    : result BulkResult * world :=
  bulk_convert demo_convert demo_report (Some demo_tree) demo_src (Some demo_dest)
    None None on_conflict continue_on_error None None true (start fs).

(** The loop goes through the candidates [pre] without a [break] and
    without a raise, and arrives at a tally and a world. *)
Fixpoint run_through (convert_local : Path → result string) (src_root dest_root : Path)
    (include_ext exclude_ext : option (gset string)) (on_conflict : ConflictPolicy)
    (continue_on_error : bool) (t : tally) (w : world) (pre : list Path)
    : option (tally * world) :=
  match pre with
  | [] => Some (t, w)
  | file_path :: pre' =>
      match process_file convert_local src_root dest_root include_ext exclude_ext
              on_conflict continue_on_error t file_path w with
      | (Ok (t', Continue), w') =>
          run_through convert_local src_root dest_root include_ext exclude_ext
            on_conflict continue_on_error t' w' pre'
      | _ => None
      end
  end.




Definition is_preflight_exceeded (e : exn) : bool :=
  match e with PreflightExceeded _ _ => true | _ => false end.

Global Instance PreflightStats_eq_dec : EqDecision PreflightStats.
Proof. solve_decision. Defined.

Global Instance BulkConvertThresholds_eq_dec : EqDecision BulkConvertThresholds.
Proof. solve_decision. Defined.

Global Instance event_eq_dec : EqDecision event.
Proof. solve_decision. Defined.

(** A destination in which the outputs of [a/f1.txt] and [a/f2.pdf] of the
    demo tree already exist. *)
Definition fs_existing : FS :=
  {[ ["tmp"] := Dir; ["tmp"; "out"] := Dir; ["tmp"; "out"; "a"] := Dir;
     ["tmp"; "out"; "a"; "f1.md"] := File "old 1";
     ["tmp"; "out"; "a"; "f2.md"] := File "old 2" ]}.

(** A file system in which the destination of the demo run is a regular
    file. *)
Definition fs_dest_is_file : FS :=
  {[ ["tmp"] := Dir; ["tmp"; "out"] := File "not a directory" ]}.

(** The destination root and the thresholds [bulk_convert] works with. *)
Definition dest_root_of (root : Path) (dest : option Path) : Path :=
  default (_md_sibling_dest root) dest.

Definition thresholds_of (thresholds : option BulkConvertThresholds) : BulkConvertThresholds :=
  default default_thresholds thresholds.

(** What the gate adds to the log: the call of the callback, made when the
    statistics exceed a threshold and a callback is given. *)
Definition gate_events (stats : PreflightStats) (th : BulkConvertThresholds)
    (confirm : option (PreflightStats → BulkConvertThresholds → bool)) : list event :=
  if exceeded stats th
  then match confirm with Some _ => [EvConfirm stats th] | None => [] end
  else [].

(** The gate refuses: a threshold is exceeded and there is no callback or
    the callback answers no. *)
Definition gate_refuses (stats : PreflightStats) (th : BulkConvertThresholds)
    (confirm : option (PreflightStats → BulkConvertThresholds → bool)) : Prop :=
  (ps_dirs stats > max_dirs th ∨ ps_files stats > max_files th
   ∨ ps_bytes stats > max_bytes th)
  ∧ (confirm = None ∨ ∃ f, confirm = Some f ∧ f stats th = false).

(** The world after the preflight scan and the gate. *)
Definition after_gate (w : world) (root : Path) (stats : PreflightStats)
    (th : BulkConvertThresholds)
    (confirm : option (PreflightStats → BulkConvertThresholds → bool)) : world :=
  {| w_fs := w_fs w;
     w_log := w_log w ++ EvPreflight root :: gate_events stats th confirm |}.

(** The thresholds of the test suite, which the demo tree exceeds. *)
Definition demo_thresholds : BulkConvertThresholds :=
  {| max_dirs := 1; max_files := 2; max_bytes := 10 |}.

(** ** Words and headings, as the specification words them *)

Fixpoint all_space (s : string) : bool :=
  match s with
  | "" => true
  | String c s' => Str.isspace c && all_space s'
  end.

Fixpoint no_space (s : string) : bool :=
  match s with
  | "" => true
  | String c s' => negb (Str.isspace c) && no_space s'
  end.

(** The text ends here or goes on with white space. *)
Definition at_space (s : string) : bool :=
  match s with
  | "" => true
  | String c _ => Str.isspace c
  end.

(** [tokens_of s toks]: [toks] are the white-space-delimited tokens of
    [s], in order: [s] is white space, then a token without white space
    that runs up to the next white space or the end, and so on. *)
Inductive tokens_of : string → list string → Prop :=
  | tokens_none ws :
      all_space ws = true → tokens_of ws []
  | tokens_next ws tok rest toks :
      all_space ws = true → tok ≠ "" → no_space tok = true → at_space rest = true →
      tokens_of rest toks →
      tokens_of (ws +:+ tok +:+ rest) (tok :: toks).

Fixpoint no_linebreak (s : string) : bool :=
  match s with
  | "" => true
  | String c s' => negb (Str.islinebreak c) && no_linebreak s'
  end.

(** [boundary brk rest]: [brk] is one line boundary in front of [rest]:
    CR LF, or a single line-break character that is not a CR in front of
    a LF. *)
Definition boundary (brk rest : string) : Prop :=
  brk = String "013" (String "010" "")
  ∨ ∃ c, brk = String c "" ∧ Str.islinebreak c = true
         ∧ ¬ (c = "013"%char ∧ Str.startswith rest (String "010" "") = true).

(** [lines_of s ls]: [ls] are the lines of [s], in order, without their
    boundaries; text after the last boundary is a line when it is not
    empty. *)
Inductive lines_of : string → list string → Prop :=
  | lines_none : lines_of "" []
  | lines_last l :
      l ≠ "" → no_linebreak l = true → lines_of l [l]
  | lines_next l brk rest ls :
      no_linebreak l = true → boundary brk rest → lines_of rest ls →
      lines_of (l +:+ brk +:+ rest) (l :: ls).

(** The first character of a line that is not white space. *)
Fixpoint first_nonspace (s : string) : option ascii :=
  match s with
  | "" => None
  | String c s' => if Str.isspace c then first_nonspace s' else Some c
  end.

(** A line whose first character that is not white space is the heading
    marker. *)
Definition heading_line (line : string) : Prop := first_nonspace line = Some "#"%char.

Global Instance heading_line_dec line : Decision (heading_line line).
Proof. unfold heading_line. apply _. Defined.

(** The result of the demo run from an empty file system: the PDF file
    fails, the other two files are converted. *)
Definition demo_result : BulkResult :=
  bulk_of demo_src demo_dest
    (record_converted
       (record_failed
          (record_converted tally0 (demo_src ++ ["a"; "f1.txt"])
             (demo_dest ++ ["a"; "f1.md"]) 2 1)
          (demo_src ++ ["a"; "f2.pdf"]) "cannot convert")
       (demo_src ++ ["b"; "g.docx"]) (demo_dest ++ ["b"; "g.md"]) 2 1).

(** The run from the loop on: the loop over the candidates, then the
    report. *)
Definition finish (convert_local : Path → result string) (_make_report : BulkResult → string)
    (root dest_root : Path) (include_ext exclude_ext : option (gset string))
    (on_conflict : ConflictPolicy) (continue_on_error : bool) (files : list Path)
    (w : world) : result BulkResult * world :=
  match loop convert_local root dest_root include_ext exclude_ext on_conflict
          continue_on_error tally0 files w with
  | (Raise e, w3) => (Raise e, w3)
  | (Ok t, w3) =>
      match _write_atomic (dest_root // "process_report.md")
              (_make_report (bulk_of root dest_root t)) w3 with
      | (Raise e, w4) => (Raise e, w4)
      | (Ok _, w4) => (Ok (bulk_of root dest_root t), w4)
      end
  end.

(** The outcome of the demo run for [a/f1.txt]. *)
Definition demo_outcome_f1 : BulkFileResult :=
  mkBulkFileResult (demo_src ++ ["a"; "f1.txt"]) (Some (demo_dest ++ ["a"; "f1.md"]))
    converted None (Some 2) (Some 1).

(** The reason the second run records for a candidate. *)
Definition skip_reason (include_ext exclude_ext : option (gset string)) (file_path : Path)
    : string :=
  if filtered include_ext exclude_ext file_path then "filtered" else "exists".

(** The outcome of a skipped candidate. *)
Definition skipped_outcome (file_path : Path) (why : string) : BulkFileResult :=
  mkBulkFileResult file_path None skipped (Some why) None None.

(** A candidate that the first run left with an existing destination and
    a converter that returns. *)
Definition settled (convert_local : Path → result string) (src_root dest_root : Path)
    (include_ext exclude_ext : option (gset string)) (fs : FS) (file_path : Path) : Prop :=
  filtered include_ext exclude_ext file_path = true
  ∨ ∃ out_path md_text,
      _derive_output_path file_path src_root dest_root = Ok out_path
      ∧ convert_local file_path = Ok md_text
      ∧ exists_ fs out_path = true.

(** The report of a run. *)
Definition report_path (dest_root : Path) : Path := dest_root // "process_report.md".

(** A converter that returns for every file, and a tree in which two
    files have the same stem. *)
Definition always_convert (p : Path) : result string :=
  Ok ("#" +:+ PurePath.name p +:+ " converted").

Definition clash_entries : list (string * node) :=
  [("a.txt", NFile (Some 1)); ("a.pdf", NFile (Some 2))].

(** The run on that tree under the skip policy. *)
Definition clash_run (fs : FS) : result BulkResult * world :=
  bulk_convert always_convert demo_report (Some (NDir clash_entries)) demo_src
    (Some demo_dest) None None skip true None None true (start fs).

(** The result of that run from an empty file system: the second file
    finds the destination of the first. *)
Definition clash_result : BulkResult :=
  bulk_of demo_src demo_dest
    (record_skipped
       (record_converted tally0 (demo_src ++ ["a.txt"]) (demo_dest ++ ["a.md"]) 2 1)
       (demo_src ++ ["a.pdf"]) "exists").

(** Two candidates of the example tree, and a destination that holds an
    older output. *)
Definition demo_f1 : Path := demo_src ++ ["a"; "f1.txt"].
Definition demo_f2 : Path := demo_src ++ ["a"; "f2.pdf"].
Definition fs_old : FS := {[ ["out"] := Dir; ["out"; "a.md"] := File "old" ]}.
Definition write_old_new : result () * world :=
  _write_atomic ["out"; "a.md"] "new" (start fs_old).

(** ** Further definitions: the rest of the package and what is said of it *)

From Stdlib Require Import Sorted.

(** A line feed. *)
Definition nl : string := String "010" "".


(** A file system as a disk holds it: what lies above an entry is a
    directory. *)
Definition fs_wf (fs : FS) : Prop :=
  map_Forall (λ p _, Forall (λ q, q ≠ p → fs !! q = Some Dir) (ancestors_and_self p)) fs.

Global Instance fs_wf_dec fs : Decision (fs_wf fs).
Proof. unfold fs_wf. apply _. Defined.

(** What [os.mkdir] raises on the target [p] when the regular file [q] is
    in the way. *)
Definition mkdir_error (p q : Path) : exn :=
  if decide (q = p)
  then FileExistsError (os_error 17 "File exists" p)
  else NotADirectoryError (os_error 20 "Not a directory" p).

(** Nothing changes outside the destination [d]: a path that is neither
    above [d] nor at or below it is as it was. *)
Definition keeps_outside (d : Path) (w w' : world) : Prop :=
  ∀ p, ¬ p `prefix_of` d → ¬ d `prefix_of` p → w_fs w' !! p = w_fs w !! p.

(** The path [d] is taken when the turn of a candidate comes: it was in
    the file system [fs] the run started from, or one of the [earlier]
    candidates was converted to it or to a path below it. *)
Definition taken (fs : FS) (earlier : list BulkFileResult) (d : Path) : Prop :=
  is_Some (fs !! d) ∨ ∃ o dj, o ∈ earlier ∧ fr_dest o = Some dj ∧ d `prefix_of` dj.

(** What exists in the world [w] is what is taken, temporary names
    apart. *)
Definition exists_as_taken (fs : FS) (earlier : list BulkFileResult) (w : world) : Prop :=
  ∀ q, q ≠ [] → tmp_named q = false → is_Some (w_fs w !! q) ↔ taken fs earlier q.

(** The outcome of a candidate that is converted to [out]. *)
Definition converted_outcome (file_path out : Path) (md_text : string) : BulkFileResult :=
  mkBulkFileResult file_path (Some out) converted None
    (Some (_count_words_and_headings md_text).1)
    (Some (_count_words_and_headings md_text).2).

(** The outcome [o] of the candidate [f] in a run under the skip policy
    that records no failure, started from the file system [fs], after the
    outcomes [earlier]: a candidate that the filters reject is skipped as
    "filtered"; for any other the converter returns a text, and the
    candidate is skipped as "exists" when its destination is taken and
    converted to its destination when it is not. *)
Definition skip_run_outcome (convert_local : Path → result string) (root dest_root : Path)
    (include_ext exclude_ext : option (gset string)) (fs : FS)
    (earlier : list BulkFileResult) (f : Path) (o : BulkFileResult) : Prop :=
  if filtered include_ext exclude_ext f then o = skipped_outcome f "filtered"
  else ∃ out md_text,
    _derive_output_path f root dest_root = Ok out
    ∧ convert_local f = Ok md_text
    ∧ (taken fs earlier out → o = skipped_outcome f "exists")
    ∧ (¬ taken fs earlier out → o = converted_outcome f out md_text).


(** [e.lower().lstrip('.')]: the form in which extensions are compared. *)
Definition norm_ext (e : string) : string := Str.lstrip_dot (Str.lower e).

(** The string holds a dot. *)
Fixpoint has_dot (s : string) : bool :=
  match s with
  | "" => false
  | String c s' => bool_decide (c = "."%char) || has_dot s'
  end.

(** [has_file n rel]: below the directory [n], the relative path [rel]
    leads through directories to a regular file. *)
Inductive has_file : node → Path → Prop :=
  | has_file_here es nm sz :
      (nm, NFile sz) ∈ es → has_file (NDir es) [nm]
  | has_file_below es nm es' rel :
      (nm, NDir es') ∈ es → has_file (NDir es') rel → has_file (NDir es) (nm :: rel).


(** What exists stays as it is, temporary siblings apart. *)
Definition keeps_content (w w' : world) : Prop :=
  ∀ q e, (∀ p, q ≠ tmp_of p) → w_fs w !! q = Some e → w_fs w' !! q = Some e.

(** What the outcome [o] of a candidate says of its output.  A converted
    outcome names a destination that mirrors under [dest_root] the
    directory of the source under [src_root] and has the suffix [.md];
    the converter returned a text for the source; the destination was
    [free], and it [holds] that text.  Other outcomes name no
    destination. *)
Definition outcome_ok (convert_local : Path → result string) (src_root dest_root : Path)
    (free : Path → Prop) (holds : Path → string → Prop) (o : BulkFileResult) : Prop :=
  match fr_status o with
  | converted =>
      ∃ dest md_text dir,
        fr_dest o = Some dest ∧ convert_local (fr_src o) = Ok md_text
        ∧ PurePath.parent (fr_src o) = src_root ++ dir
        ∧ PurePath.parent dest = dest_root ++ dir
        ∧ PurePath.suffix dest = ".md"
        ∧ free dest ∧ holds dest md_text
  | _ => fr_dest o = None
  end.

(** The outcome of a candidate between two states of the file system. *)
Definition written_between (convert_local : Path → result string) (src_root dest_root : Path)
    (fs fs' : FS) (o : BulkFileResult) : Prop :=
  outcome_ok convert_local src_root dest_root
    (λ dest, fs !! dest = None) (λ dest md_text, fs' !! dest = Some (File md_text)) o.

(** A destination in which a directory sits where the report goes. *)
Definition fs_report_dir : FS :=
  {[ ["tmp"] := Dir; ["tmp"; "out"] := Dir;
     ["tmp"; "out"; "process_report.md"] := Dir ]}.

(** ** _make_report *)

(** A [dict] as the list of its items in insertion order.  [d[k]] reads
    a [defaultdict] whose missing values are [dflt]. *)
Fixpoint dict_get {K V} `{EqDecision K} (dflt : V) (k : K) (d : list (K * V)) : V :=
  match d with
  | [] => dflt
  | (k', v) :: d' => if decide (k' = k) then v else dict_get dflt k d'
  end.

(** [d[k] = f(d[k])] on a [defaultdict]: an item that is there is updated
    in place, a new one goes to the end. *)
Fixpoint dict_update {K V} `{EqDecision K} (dflt : V) (f : V → V) (k : K)
    (d : list (K * V)) : list (K * V) :=
  match d with
  | [] => [(k, f dflt)]
  | (k', v) :: d' =>
      if decide (k' = k) then (k', f v) :: d' else (k', v) :: dict_update dflt f k d'
  end.

(** [d[k] += n] on a [defaultdict(int)]. *)
Definition dict_add {K} `{EqDecision K} (k : K) (n : Z) (d : list (K * Z)) : list (K * Z) :=
  dict_update 0 (λ v, v + n) k d.

(** [sorted]: a stable sort, by insertion from the right. *)
Fixpoint insert_sorted {A} (le : A → A → bool) (x : A) (l : list A) : list A :=
  match l with
  | [] => [x]
  | y :: l' => if le x y then x :: l else y :: insert_sorted le x l'
  end.

Definition sorted {A} (le : A → A → bool) (l : list A) : list A :=
  foldr (insert_sorted le) [] l.

(** The order of [sorted(..., key=lambda p: str(p))] on paths. *)
Definition path_le (p q : Path) : bool := String.leb (fspath p) (fspath q).

(** The order of tuples [(ext, cnt)]. *)
Definition item_le (a b : string * Z) : bool :=
  match String.compare a.1 b.1 with
  | Lt => true
  | Eq => bool_decide (a.2 ≤ b.2)
  | Gt => false
  end.

(** The dictionaries and the list the first loop of [_make_report]
    fills. *)
Record report_acc := mkReportAcc {
  per_dir_counts : list (Path * list (string * Z));
  per_dir_docs : list (Path * Z);
  per_dir_words : list (Path * Z);
  per_dir_headings : list (Path * Z);
  errors : list (Path * string)
}.

Definition report_acc0 : report_acc := mkReportAcc [] [] [] [] [].

(** [if fr.words:] on an optional integer. *)
Definition truthy (x : option Z) : bool :=
  match x with Some n => bool_decide (n ≠ 0) | None => false end.

(** [fr.reason or "unknown error"] *)
Definition reason_or_unknown (reason : option string) : string :=
  match reason with
  | Some s => if decide (s = "") then "unknown error" else s
  | None => "unknown error"
  end.

(** The body of [for fr in result.files]. *)
Definition report_step (acc : report_acc) (fr : BulkFileResult) : report_acc :=
  let src_dir := PurePath.parent (fr_src fr) in
  if bool_decide (fr_status fr = converted) && bool_decide (is_Some (fr_dest fr)) then
    {| per_dir_counts :=
         dict_update [] (dict_add (_ext_of (fr_src fr)) 1) src_dir (per_dir_counts acc);
       per_dir_docs := dict_add src_dir 1 (per_dir_docs acc);
       per_dir_words :=
         if truthy (fr_words fr)
         then dict_add src_dir (default 0 (fr_words fr)) (per_dir_words acc)
         else per_dir_words acc;
       per_dir_headings :=
         if truthy (fr_headings fr)
         then dict_add src_dir (default 0 (fr_headings fr)) (per_dir_headings acc)
         else per_dir_headings acc;
       errors := errors acc |}
  else if bool_decide (fr_status fr = failed) then
    {| per_dir_counts := per_dir_counts acc; per_dir_docs := per_dir_docs acc;
       per_dir_words := per_dir_words acc; per_dir_headings := per_dir_headings acc;
       errors := errors acc ++ [(fr_src fr, reason_or_unknown (fr_reason fr))] |}
  else acc.

Definition report_acc_of (result : BulkResult) : report_acc :=
  foldl report_step report_acc0 (br_files result).

(** The lines of one directory of the report. *)
Definition dir_lines (acc : report_acc) (d : Path) : list string :=
  ["### " +:+ fspath d]
  ++ (let counts := dict_get [] d (per_dir_counts acc) in
      match counts with
      | [] => []
      | _ =>
          "- Files converted by type:"
          :: ((λ '(ext, cnt), "  - ." +:+ ext +:+ ": " +:+ pretty cnt)
                <$> sorted item_le counts)
      end)
  ++ ["- Documents: " +:+ pretty (dict_get 0 d (per_dir_docs acc));
      "- Words: " +:+ pretty (dict_get 0 d (per_dir_words acc));
      "- Headings: " +:+ pretty (dict_get 0 d (per_dir_headings acc)) +:+ nl].

(** The directories of the report, in the order of their sections. *)
Definition report_dirs (acc : report_acc) : list Path :=
  sorted path_le (per_dir_docs acc).*1.

(** The lines of the errors of the report. *)
Definition error_lines (acc : report_acc) : list string :=
  match errors acc with
  | [] => []
  | errs =>
      ("## Errors" +:+ nl)
      :: ((λ '(src, reason), "- " +:+ fspath src +:+ ": " +:+ reason) <$> errs)
  end.

(** The list [lines]. *)
Definition report_lines (result : BulkResult) : list string :=
  let acc := report_acc_of result in
  ["# Bulk Conversion Report" +:+ nl;
   "Root: " +:+ fspath (br_root result) +:+ nl;
   "Destination: " +:+ fspath (br_dest result) +:+ nl;
   "";
   "## Summary" +:+ nl;
   "- Converted: " +:+ pretty (br_converted result);
   "- Skipped: " +:+ pretty (br_skipped result);
   "- Failed: " +:+ pretty (br_failed result);
   "- Total words: " +:+ pretty (br_total_words result);
   "- Total headings: " +:+ pretty (br_total_headings result) +:+ nl;
   "";
   "## By Directory" +:+ nl]
  ++ (report_dirs acc ≫= dir_lines acc)
  ++ error_lines acc.

Definition _make_report (result : BulkResult) : string :=
  String.concat nl (report_lines result) +:+ nl.

(** An outcome that enters the directory statistics of the report. *)
Definition reported (o : BulkFileResult) : Prop :=
  fr_status o = converted ∧ is_Some (fr_dest o).

Global Instance reported_dec o : Decision (reported o).
Proof. unfold reported. apply _. Defined.

(** The reported outcomes whose source lies in the directory [d]. *)
Definition reported_in (d : Path) (l : list BulkFileResult) : list BulkFileResult :=
  filter (λ o, reported o ∧ PurePath.parent (fr_src o) = d) l.

(** ** types.py: BulkResult.to_summary *)

Definition to_summary (self : BulkResult) : string :=
  "Converted: " +:+ pretty (br_converted self)
  +:+ ", Skipped: " +:+ pretty (br_skipped self)
  +:+ ", Failed: " +:+ pretty (br_failed self)
  +:+ ", Words: " +:+ pretty (br_total_words self)
  +:+ ", Headings: " +:+ pretty (br_total_headings self).

(** ** The command line: __main__.py

    The arguments are taken as [argparse] returns them, with the root and
    the destination resolved as [bulk_convert] resolves them.  The
    standard input is the line [input] reads, if there is one. *)

(** [s.rstrip()] and [s.strip()] *)
Fixpoint rstrip (s : string) : string :=
  match s with
  | "" => ""
  | String c s' =>
      match rstrip s' with
      | "" => if Str.isspace c then "" else String c ""
      | r => String c r
      end
  end.

Definition strip (s : string) : string := rstrip (lstrip s).

(** [_prompt_confirm]: [stdin] is the line [input] returns, [None] when it
    raises EOFError. *)
Definition _prompt_confirm (stdin : option string) (stats_text : string) : bool :=
  match stdin with
  | Some line =>
      let answer := Str.lower (strip line) in
      bool_decide (answer = "y" ∨ answer = "yes")
  | None => false
  end.

Record Namespace := mkNamespace {
  arg_root : Path;
  arg_dest : option Path;
  arg_include : option (list string);
  arg_exclude : option (list string);
  arg_on_conflict : ConflictPolicy;
  arg_no_continue_on_error : bool;
  arg_no_skip_hidden : bool;
  arg_threshold_dirs : Z;
  arg_threshold_files : Z;
  arg_threshold_mb : Z;
  arg_yes : bool
}.

(** [set(xs) if xs else None] *)
Definition ext_set (xs : option (list string)) : option (gset string) :=
  match xs with
  | Some (x :: xs') => Some (list_to_set (x :: xs'))
  | _ => None
  end.

Definition main_thresholds (args : Namespace) : BulkConvertThresholds :=
  {| max_dirs := arg_threshold_dirs args;
     max_files := arg_threshold_files args;
     max_bytes := arg_threshold_mb args * 1024 * 1024 |}.

(** The text [confirm] builds for the prompt. *)
Definition stats_text (stats : PreflightStats) (thres : BulkConvertThresholds) : string :=
  "Preflight limits exceeded. Dirs: " +:+ pretty (ps_dirs stats) +:+ "/"
  +:+ pretty (max_dirs thres) +:+ ", Files: " +:+ pretty (ps_files stats) +:+ "/"
  +:+ pretty (max_files thres) +:+ ", Size: " +:+ pretty (ps_bytes stats) +:+ "/"
  +:+ pretty (max_bytes thres) +:+ " bytes.".

(** The callback [confirm] of [main]. *)
Definition main_confirm (args : Namespace) (stdin : option string)
    (stats : PreflightStats) (thres : BulkConvertThresholds) : bool :=
  if arg_yes args then true else _prompt_confirm stdin (stats_text stats thres).

(** What [main] leaves behind: the exit status and the texts written to
    the standard output and to the standard error, in order. *)
Record Output := mkOutput {
  exit_code : Z;
  stdout : list string;
  stderr : list string
}.

(** The prompts [input] wrote: one for every call of the callback, unless
    [--yes] answers for the user. *)
Definition prompts (args : Namespace) (log : list event) : list string :=
  if arg_yes args then []
  else omap (λ ev, match ev with
                   | EvConfirm stats thres => Some (stats_text stats thres +:+ " Proceed? [y/N]: ")
                   | _ => None
                   end) log.

(** The call of [bulk_convert] in [main]. *)
Definition main_run (convert_local : Path → result string) (args : Namespace)
    (src : option node) (stdin : option string) (fs : FS) : result BulkResult * world :=
  bulk_convert convert_local _make_report src (arg_root args) (arg_dest args)
    (ext_set (arg_include args)) (ext_set (arg_exclude args)) (arg_on_conflict args)
    (negb (arg_no_continue_on_error args)) (Some (main_thresholds args))
    (Some (main_confirm args stdin)) (negb (arg_no_skip_hidden args)) (start fs).

(** [main], after the arguments are parsed; [convert_local] is the
    converter that [--enable-plugins] selects. *)
Definition main (convert_local : Path → result string) (args : Namespace)
    (src : option node) (stdin : option string) (fs : FS) : Output * world :=
  let '(res, w) := main_run convert_local args src stdin fs in
  let asked := prompts args (w_log w) in
  match res with
  | Ok result =>
      ({| exit_code :=
            if bool_decide (br_failed result = 0) || negb (arg_no_continue_on_error args)
            then 0 else 1;
          stdout := asked ++ [to_summary result;
                              "Report written to: "
                              +:+ fspath (br_dest result // "process_report.md")];
          stderr := [] |}, w)
  | Raise (PreflightExceeded stats thres) =>
      ({| exit_code := 2; stdout := asked;
          stderr := [str (PreflightExceeded stats thres)] |}, w)
  | Raise e =>
      ({| exit_code := 1; stdout := asked; stderr := ["Error: " +:+ str e] |}, w)
  end.

(** The arguments of a plain call on the example tree with the
    thresholds of the test suite. *)
Definition demo_args : Namespace :=
  {| arg_root := demo_src; arg_dest := Some demo_dest; arg_include := None;
     arg_exclude := None; arg_on_conflict := rename; arg_no_continue_on_error := false;
     arg_no_skip_hidden := false; arg_threshold_dirs := 1; arg_threshold_files := 2;
     arg_threshold_mb := 1; arg_yes := false |}.

(** Writing the report where a directory sits. *)
Definition write_on_dir : result () * world :=
  _write_atomic ["tmp"; "out"; "process_report.md"] "text" (start fs_report_dir).

Definition write_on_dir_error : exn :=
  IsADirectoryError
    ("[Errno 21] Is a directory: '/tmp/out/process_report.md.tmp'"
     +:+ " -> '/tmp/out/process_report.md'").

(** The fields of an outcome go together: a converted outcome has a
    destination and both counts and no reason; a skipped one has the
    reason "filtered" when the filters reject its source, and otherwise
    the reason "exists", which only the skip policy gives; a failed one
    has a reason; skipped and failed outcomes have no destination and no
    counts. *)
Definition outcome_shape (include_ext exclude_ext : option (gset string))
    (on_conflict : ConflictPolicy) (o : BulkFileResult) : Prop :=
  match fr_status o with
  | converted =>
      is_Some (fr_dest o) ∧ fr_reason o = None
      ∧ is_Some (fr_words o) ∧ is_Some (fr_headings o)
      ∧ filtered include_ext exclude_ext (fr_src o) = false
  | skipped =>
      fr_dest o = None ∧ fr_words o = None ∧ fr_headings o = None
      ∧ ((fr_reason o = Some "filtered"
          ∧ filtered include_ext exclude_ext (fr_src o) = true)
         ∨ (fr_reason o = Some "exists" ∧ on_conflict = skip
            ∧ filtered include_ext exclude_ext (fr_src o) = false))
  | failed =>
      fr_dest o = None ∧ fr_words o = None ∧ fr_headings o = None
      ∧ is_Some (fr_reason o)
      ∧ filtered include_ext exclude_ext (fr_src o) = false
  end.

(** The names of every listing of the tree are distinct, as those of a
    directory are. *)
Inductive distinct_names : node → Prop :=
  | distinct_file sz : distinct_names (NFile sz)
  | distinct_dir es :
      NoDup es.*1 → Forall (λ e, distinct_names e.2) es → distinct_names (NDir es).
(** * Properties *)

(** ** Tactics *)

(** Side conditions of the form [Is_true b] or its negation, after
    rewriting with what is known of [b]. *)
Ltac bool_side tac := tac; simpl; first [exact I | tauto | done].

(** ** Strings *)

Lemma str_app_cons c (a b : string) : String c a +:+ b = String c (a +:+ b).
Proof. reflexivity. Qed.

Lemma str_app_nil_l (b : string) : "" +:+ b = b.
Proof. reflexivity. Qed.

Ltac str_simpl := simpl; rewrite ?str_app_cons, ?str_app_nil_l; simpl.

Lemma str_take_drop n s : Str.take n s +:+ Str.drop n s = s.
Proof.
  revert n; induction s as [|c s IH]; intros [|n]; str_simpl; try done.
  by rewrite IH.
Qed.

Lemma str_app_assoc (a b c : string) : (a +:+ b) +:+ c = a +:+ b +:+ c.
Proof. induction a as [|x a IH]; str_simpl; [done|]. by rewrite IH. Qed.

Lemma str_app_nil_r (a : string) : a +:+ "" = a.
Proof. induction a as [|x a IH]; str_simpl; [done|]. by rewrite IH. Qed.

Lemma str_len_app (a b : string) :
  String.length (a +:+ b) = (String.length a + String.length b)%nat.
Proof. induction a as [|x a IH]; str_simpl; [done|]. by rewrite IH. Qed.

Lemma str_take_app (a b : string) : Str.take (String.length a) (a +:+ b) = a.
Proof. induction a as [|x a IH]; str_simpl; [by destruct b|]. by rewrite IH. Qed.

Lemma str_app_inj_r (a b c : string) : a +:+ c = b +:+ c → a = b.
Proof.
  revert b; induction a as [|x a IH]; intros [|y b] H; try done.
  - apply (f_equal String.length) in H.
    rewrite str_app_nil_l, str_app_cons in H. simpl in H. rewrite str_len_app in H. lia.
  - apply (f_equal String.length) in H.
    rewrite str_app_nil_l, str_app_cons in H. simpl in H. rewrite str_len_app in H. lia.
  - rewrite !str_app_cons in H. injection H as -> H. f_equal. by apply IH.
Qed.

Lemma last_char_app (a b : string) : b ≠ "" → last_char (a +:+ b) = last_char b.
Proof.
  intros Hb. induction a as [|c a IH]; [done|].
  rewrite str_app_cons. simpl. rewrite IH.
  destruct (a +:+ b) eqn:E; [|done].
  destruct a; [by rewrite str_app_nil_l in E|by rewrite str_app_cons in E].
Qed.


(** ** _unique_path *)











Lemma numbered_name_inj base suffix : Inj (=) (=) (λ i, numbered_name base i suffix).
Proof.
  intros i j H. unfold numbered_name in H.
  apply (inj _) in H. apply (inj (String.app " (")) in H.
  apply str_app_inj_r in H. by apply (inj pretty) in H.
Qed.

Lemma exists_join fs p n : exists_ fs (p // n) = bool_decide (is_Some (fs !! (p // n))).
Proof. unfold PurePath.join, exists_. by destruct p. Qed.

Section UniquePath.
Variables (fs : FS) (parent : Path) (base suffix : string).

#[local] Abbreviation cand := (λ i : nat, parent // numbered_name base i suffix).

Lemma cand_inj : Inj (=) (=) cand.
Proof.
  intros i j H. unfold PurePath.join in H.
  apply (inj (app parent)) in H. injection H as H.
  by apply (numbered_name_inj base suffix).
Qed.

Lemma _unique_path_loop_Some fuel i c :
  _unique_path_loop fs parent base suffix fuel i = Some c →
  ∃ k, (i ≤ k)%nat ∧ c = cand k ∧ exists_ fs c = false
       ∧ ∀ j, (i ≤ j < k)%nat → exists_ fs (cand j) = true.
Proof.
  revert i; induction fuel as [|fuel IH]; intros i H; simpl in H; [done|].
  destruct (exists_ fs (parent // numbered_name base i suffix)) eqn:E; simpl in H.
  - apply IH in H as (k & Hk & -> & Hf & Hlow). exists k. repeat split; [lia|done|].
    intros j Hj. destruct (decide (j = i)) as [->|]; [done|]. apply Hlow; lia.
  - injection H as <-. exists i. repeat split; [lia|done|]. intros; lia.
Qed.

Lemma _unique_path_loop_None fuel i :
  _unique_path_loop fs parent base suffix fuel i = None →
  ∀ j, (i ≤ j < i + fuel)%nat → exists_ fs (cand j) = true.
Proof.
  revert i; induction fuel as [|fuel IH]; intros i H j Hj; simpl in H; [lia|].
  destruct (exists_ fs (parent // numbered_name base i suffix)) eqn:E; simpl in H; [|done].
  destruct (decide (j = i)) as [->|]; [done|]. apply (IH (S i)); [done|lia].
Qed.

(** More candidates than the file system has entries cannot all exist. *)
Lemma _unique_path_loop_total i :
  is_Some (_unique_path_loop fs parent base suffix (S (size fs)) i).
Proof.
  destruct (_unique_path_loop fs parent base suffix (S (size fs)) i) eqn:E; [done|].
  exfalso. pose proof (_unique_path_loop_None _ _ E) as Hall.
  set (cs := cand <$> seq i (S (size fs))).
  assert (NoDup cs) as Hnd.
  { pose proof cand_inj. apply (NoDup_fmap_2 cand), NoDup_seq. }
  assert (cs ⊆ elements (dom fs)) as Hsub.
  { intros c Hc. apply list_elem_of_fmap in Hc as (j & -> & Hj).
    apply elem_of_seq in Hj. apply elem_of_elements, elem_of_dom.
    specialize (Hall j ltac:(lia)). simpl in *.
    rewrite exists_join in Hall. by apply bool_decide_eq_true in Hall. }
  apply NoDup_submseteq in Hsub; [|done].
  apply submseteq_length in Hsub.
  unfold cs in Hsub. rewrite length_fmap, length_seq in Hsub.
  assert (length (elements (dom fs)) = size fs) by (by rewrite <- size_dom).
  lia.
Qed.
End UniquePath.

Lemma _unique_path_fuel_total fs p : is_Some (_unique_path_fuel fs p).
Proof.
  unfold _unique_path_fuel. destruct (exists_ fs p); simpl; [|done].
  apply _unique_path_loop_total.
Qed.




(** The scenario of the specification: next to [file.md] the first
    conversion is named [file (1).md], the next one [file (2).md]; a path
    that already carries a number is renumbered. *)
Example unique_path_first :
  _unique_path fs_file_md ["out"; "file.md"] = ["out"; "file (1).md"].
Proof. vm_compute. reflexivity. Qed.

Example unique_path_second :
  _unique_path (<[ ["out"; "file (1).md"] := File "new" ]> fs_file_md) ["out"; "file.md"]
  = ["out"; "file (2).md"].
Proof. vm_compute. reflexivity. Qed.

Example unique_path_renumbered :
  _unique_path (<[ ["out"; "file (1).md"] := File "new" ]> fs_file_md) ["out"; "file (1).md"]
  = ["out"; "file (2).md"].
Proof. vm_compute. reflexivity. Qed.

(** ** Traversal and preflight *)

Lemma node_rect' (P : node → Prop) :
  (∀ sz, P (NFile sz)) →
  (∀ es, Forall (λ e, P e.2) es → P (NDir es)) →
  ∀ n, P n.
Proof.
  intros Hfile Hdir. fix IH 1. intros [sz|es]; [apply Hfile|].
  apply Hdir. induction es as [|[nm child] es IHes]; constructor; [apply IH|apply IHes].
Qed.

Lemma os_walk_NDir keep top es :
  os_walk keep top (NDir es) = (top, dirnames es, filenames es) :: walk_entries keep top es.
Proof.
  simpl. f_equal. unfold walk_entries.
  induction es as [|[nm child] es IH]; [done|].
  rewrite IH. simpl. by destruct (is_NDir child && keep nm).
Qed.

Lemma walk_entries_cons keep top nm child es :
  walk_entries keep top ((nm, child) :: es)
  = (if is_NDir child && keep nm then os_walk keep (top // nm) child else [])
    ++ walk_entries keep top es.
Proof. reflexivity. Qed.

Lemma relative_to_app root rel : PurePath.relative_to (root ++ rel) root = Some rel.
Proof.
  induction root as [|r root IH]; simpl; [by destruct rel|]. by rewrite decide_True.
Qed.

Lemma visible_app root rel :
  visible root (root ++ rel) = forallb (λ c, negb (hidden c)) rel.
Proof. unfold visible. by rewrite relative_to_app. Qed.

(** Every directory the walk reports lies below its top. *)
Lemma os_walk_below keep tree : ∀ top,
  Forall (λ x, ∃ rel, x.1.1 = top ++ rel) (os_walk keep top tree).
Proof.
  induction tree as [sz|es IH] using node_rect'; intros top; [constructor|].
  rewrite os_walk_NDir. constructor; [exists []; simpl; by rewrite app_nil_r|].
  induction IH as [|[nm child] es Hc _ IHes]; [constructor|].
  rewrite walk_entries_cons. apply Forall_app. split; [|done].
  destruct (is_NDir child && keep nm); [|constructor].
  eapply Forall_impl; [apply Hc|]. intros x [rel ->].
  exists (nm :: rel). unfold PurePath.join. by rewrite <- app_assoc.
Qed.

(** Below a hidden directory nothing is visible. *)
Lemma os_walk_hidden_below keep root rel0 tree :
  forallb (λ c, negb (hidden c)) rel0 = false →
  filter (λ x, visible root x.1.1) (os_walk keep (root ++ rel0) tree) = [].
Proof.
  intros Hh. pose proof (os_walk_below keep tree (root ++ rel0)) as Hb.
  induction Hb as [|x l [rel Hx] _ IHl]; [done|].
  rewrite filter_cons_False; [done|].
  rewrite Hx, <- app_assoc, visible_app, forallb_app, Hh. simpl. auto.
Qed.

(** Pruning the hidden directories from the descent leaves exactly the
    visible directories of the full walk, in the same order. *)
Lemma os_walk_pruned root tree : ∀ rel0,
  forallb (λ c, negb (hidden c)) rel0 = true →
  os_walk (keep_dir true) (root ++ rel0) tree
  = filter (λ x, visible root x.1.1) (os_walk (keep_dir false) (root ++ rel0) tree).
Proof.
  induction tree as [sz|es IH] using node_rect'; intros rel0 Hv; [done|].
  rewrite !os_walk_NDir. rewrite filter_cons_True by (bool_side ltac:(simpl; rewrite visible_app, Hv)).
  f_equal.
  induction IH as [|[nm child] es Hc _ IHes]; [done|].
  rewrite !walk_entries_cons, filter_app, <- IHes. f_equal.
  unfold keep_dir; simpl. rewrite andb_true_r.
  destruct (is_NDir child); simpl; [|done].
  unfold PurePath.join. rewrite <- !app_assoc.
  destruct (hidden nm) eqn:Hn; simpl.
  - symmetry. apply os_walk_hidden_below. by rewrite forallb_app; simpl; rewrite Hn, andb_false_r.
  - apply Hc. by rewrite forallb_app; simpl; rewrite Hn, Hv.
Qed.

Lemma filter_all_true {A} (f : A → bool) (l : list A) :
  (∀ x, f x = true) → filter (λ x, f x) l = l.
Proof.
  intros Hf. induction l as [|x l IH]; [done|].
  rewrite filter_cons_True by (bool_side ltac:(rewrite Hf)). by rewrite IH.
Qed.

Lemma kept_files_false fns : kept_files false fns = fns.
Proof. unfold kept_files. by apply (filter_all_true (λ fn, negb (false && hidden fn))). Qed.

(** The files of one listing that are visible from [root]. *)
Lemma visible_files root rel fns :
  filter (λ p, visible root p) ((λ fn, (root ++ rel) // fn) <$> fns)
  = if forallb (λ c, negb (hidden c)) rel
    then (λ fn, (root ++ rel) // fn) <$> kept_files true fns
    else [].
Proof.
  unfold kept_files. induction fns as [|fn fns IH]; [by destruct (forallb _ rel)|].
  rewrite fmap_cons.
  assert (visible root ((root ++ rel) // fn)
          = forallb (λ c, negb (hidden c)) rel && negb (hidden fn)) as Hv.
  { unfold PurePath.join. rewrite <- app_assoc, visible_app, forallb_app. simpl.
    by rewrite andb_true_r. }
  destruct (forallb (λ c, negb (hidden c)) rel) eqn:Hrel; simpl in Hv.
  - destruct (hidden fn) eqn:Hfn; simpl in Hv.
    + rewrite filter_cons_False by (bool_side ltac:(rewrite Hv)).
      rewrite filter_cons_False by (bool_side ltac:(rewrite Hfn)). done.
    + rewrite filter_cons_True by (bool_side ltac:(rewrite Hv)).
      rewrite filter_cons_True by (bool_side ltac:(rewrite Hfn)).
      by rewrite fmap_cons, IH.
  - rewrite filter_cons_False by (bool_side ltac:(rewrite Hv)). done.
Qed.

Lemma iter_files_of_walk root (l : list (Path * list string * list string)) :
  Forall (λ x, ∃ rel, x.1.1 = root ++ rel) l →
  (filter (λ x, visible root x.1.1) l
     ≫= λ '(dp, _, fns), (λ fn, dp // fn) <$> kept_files true fns)
  = filter (λ p, visible root p)
      (l ≫= λ '(dp, _, fns), (λ fn, dp // fn) <$> kept_files false fns).
Proof.
  induction 1 as [|[[dp dns] fns] l [rel Hx] _ IH]; [done|].
  simpl in Hx. subst dp. rewrite bind_cons, filter_app, <- IH.
  rewrite kept_files_false, visible_files.
  destruct (forallb (λ c, negb (hidden c)) rel) eqn:Hrel.
  - rewrite filter_cons_True by (bool_side ltac:(simpl; rewrite visible_app, Hrel)).
    by rewrite bind_cons.
  - rewrite filter_cons_False by (bool_side ltac:(simpl; rewrite visible_app, Hrel)). done.
Qed.

Lemma os_walk_pruned_root root tree :
  os_walk (keep_dir true) root tree
  = filter (λ x, visible root x.1.1) (os_walk (keep_dir false) root tree).
Proof.
  pose proof (os_walk_pruned root tree [] eq_refl) as H.
  by rewrite app_nil_r in H.
Qed.

Lemma iter_files_pruned root tree :
  _iter_files root tree true
  = filter (λ p, visible root p) (_iter_files root tree false).
Proof.
  unfold _iter_files. rewrite os_walk_pruned_root. apply iter_files_of_walk.
  pose proof (os_walk_below (keep_dir false) tree root) as H.
  eapply Forall_impl; [apply H|]. done.
Qed.

Lemma sum_list_Z_app l1 l2 : sum_list_Z (l1 ++ l2) = sum_list_Z l1 + sum_list_Z l2.
Proof. unfold sum_list_Z. induction l1 as [|x l1 IH]; simpl; lia. Qed.

Lemma sum_list_Z_cons x l : sum_list_Z (x :: l) = x + sum_list_Z l.
Proof. reflexivity. Qed.

Lemma tally_bytes_sum root tree sh dp fns tb :
  tally_bytes root tree sh dp fns tb
  = tb + sum_list_Z (counted_size root tree <$> ((λ fn, dp // fn) <$> kept_files sh fns)).
Proof.
  unfold tally_bytes, kept_files. revert tb.
  induction fns as [|f fns IH]; intros tb; simpl; [unfold sum_list_Z; simpl; lia|].
  rewrite IH. destruct (sh && hidden f) eqn:E.
  - rewrite filter_cons_False by (bool_side ltac:(rewrite E)). done.
  - rewrite filter_cons_True by (bool_side ltac:(rewrite E)).
    rewrite !fmap_cons, sum_list_Z_cons. unfold counted_size at 2.
    destruct (os_stat root tree (dp // f)); simpl; lia.
Qed.

(** What [_preflight] counts: the directories the walk visits, the files
    [_iter_files] yields, and the sizes of those files. *)
Lemma preflight_counts root tree sh :
  _preflight root tree sh
  = {| ps_root := root;
       ps_dirs := Z.of_nat (length (os_walk (keep_dir sh) root tree));
       ps_files := Z.of_nat (length (_iter_files root tree sh));
       ps_bytes := sum_list_Z (counted_size root tree <$> _iter_files root tree sh) |}.
Proof.
  unfold _preflight, _iter_files.
  generalize (os_walk (keep_dir sh) root tree). intros l.
  assert (∀ d f b,
    foldl (λ '(dirs, files, total_bytes) '(dirpath, _, fns),
             (dirs + 1, files + Z.of_nat (length (kept_files sh fns)),
              tally_bytes root tree sh dirpath fns total_bytes)) (d, f, b) l
    = (d + Z.of_nat (length l),
       f + Z.of_nat (length (l ≫= λ '(dp, _, fns), (λ fn, dp // fn) <$> kept_files sh fns)),
       b + sum_list_Z (counted_size root tree <$>
                         (l ≫= λ '(dp, _, fns), (λ fn, dp // fn) <$> kept_files sh fns)))) as H.
  { induction l as [|[[dp dns] fns] l IH]; intros d f b.
    - simpl. unfold sum_list_Z. simpl. f_equal; [f_equal|]; lia.
    - simpl foldl. rewrite IH, tally_bytes_sum, bind_cons, fmap_app, sum_list_Z_app.
      rewrite length_app, length_fmap. simpl length. f_equal; [f_equal|]; lia. }
  rewrite H. simpl. done.
Qed.

(** ** Computations *)

Ltac munfold :=
  unfold mbind, M_bind, mret, M_ret, raise, lift, get_fs, emit, try_except in *.

Lemma bind_inv {A B} (m : M A) (k : A → M B) w r w' :
  (m ≫= k) w = (r, w') →
  (∃ a w1, m w = (Ok a, w1) ∧ k a w1 = (r, w'))
  ∨ (∃ e, m w = (Raise e, w') ∧ r = Raise e).
Proof.
  munfold. destruct (m w) as [[a|e] w1]; intros H.
  - left. by exists a, w1.
  - right. exists e. by injection H as <- <-.
Qed.

Lemma bind_Ok {A B} (m : M A) (k : A → M B) w a w1 :
  m w = (Ok a, w1) → (m ≫= k) w = k a w1.
Proof. munfold. by intros ->. Qed.

Lemma bind_Raise {A B} (m : M A) (k : A → M B) w e w1 :
  m w = (Raise e, w1) → (m ≫= k) w = (Raise e, w1).
Proof. munfold. by intros ->. Qed.

Lemma try_except_inv {A} (m : M A) (h : exn → M A) w r w' :
  try_except m h w = (r, w') →
  (∃ a, m w = (Ok a, w') ∧ r = Ok a)
  ∨ (∃ e w1, m w = (Raise e, w1) ∧ h e w1 = (r, w')).
Proof.
  munfold. destruct (m w) as [[a|e] w1]; intros H.
  - left. exists a. by injection H as <- <-.
  - right. by exists e, w1.
Qed.

Section Preserves.
Context (R : world → world → Prop) `{!PreOrder R}.

Lemma preserves_ret {A} (a : A) : preserves R (mret a).
Proof. intros w r w' H. munfold. by injection H as <- <-. Qed.

Lemma preserves_raise {A} (e : exn) : preserves R (@raise A e).
Proof. intros w r w' H. munfold. by injection H as <- <-. Qed.

Lemma preserves_lift {A} (x : result A) : preserves R (lift x).
Proof. intros w r w' H. munfold. by injection H as <- <-. Qed.

Lemma preserves_get_fs : preserves R get_fs.
Proof. intros w r w' H. munfold. by injection H as <- <-. Qed.

Lemma preserves_bind {A B} (m : M A) (k : A → M B) :
  preserves R m → (∀ a, preserves R (k a)) → preserves R (m ≫= k).
Proof.
  intros Hm Hk w r w' H.
  apply bind_inv in H as [(a & w1 & H1 & H2)|(e & H1 & _)].
  - etrans; [by eapply Hm|by eapply Hk].
  - by eapply Hm.
Qed.

Lemma preserves_try {A} (m : M A) (h : exn → M A) :
  preserves R m → (∀ e, preserves R (h e)) → preserves R (try_except m h).
Proof.
  intros Hm Hh w r w' H.
  apply try_except_inv in H as [(a & H1 & _)|(e & w1 & H1 & H2)].
  - by eapply Hm.
  - etrans; [by eapply Hm|by eapply Hh].
Qed.
End Preserves.

Lemma replay_app fs evs1 evs2 : replay fs (evs1 ++ evs2) = replay (replay fs evs1) evs2.
Proof. apply foldl_app. Qed.

Global Instance log_extends_preorder P : PreOrder (log_extends P).
Proof.
  split.
  - intros w. exists []. by rewrite app_nil_r.
  - intros w1 w2 w3 (evs1 & L1 & F1 & P1) (evs2 & L2 & F2 & P2).
    exists (evs1 ++ evs2). rewrite L2, L1, F2, F1, replay_app, app_assoc.
    split_and!; [done..|]. by apply Forall_app.
Qed.

Global Instance keeps_dirs_preorder : PreOrder keeps_dirs.
Proof. split; [by intros w q|]. intros w1 w2 w3 H1 H2 q Hq. by apply H2, H1. Qed.

Global Instance keeps_entries_preorder : PreOrder keeps_entries.
Proof. split; [by intros w q|]. intros w1 w2 w3 H1 H2 q Hn Hq. by apply H2, H1. Qed.

Lemma log_extends_weaken (P Q : event → Prop) w w' :
  (∀ ev, P ev → Q ev) → log_extends P w w' → log_extends Q w w'.
Proof.
  intros HPQ (evs & L & F & HP). exists evs. split_and!; [done..|].
  by eapply Forall_impl.
Qed.

Lemma emit_log_extends (P : event → Prop) ev : P ev → preserves (log_extends P) (emit ev).
Proof.
  intros HP w r w' H. munfold. injection H as <- <-. exists [ev]. simpl.
  split_and!; [done..|]. by constructor.
Qed.

(** ** mkdir and _write_atomic *)

Lemma mkdir_parents_log target : ∀ todo done_,
  preserves (log_extends (λ ev, ∃ q, ev = EvMkdir q ∧ q ≠ [] ∧ q `prefix_of` done_ ++ todo))
    (mkdir_parents target done_ todo).
Proof.
  induction todo as [|c todo IH]; intros done_; simpl.
  - apply preserves_ret, _.
  - assert (preserves
              (log_extends (λ ev, ∃ q, ev = EvMkdir q ∧ q ≠ [] ∧ q `prefix_of` done_ ++ c :: todo))
              (mkdir_parents target (done_ // c) todo)) as IH'.
    { specialize (IH (done_ // c)). unfold PurePath.join in IH.
      by rewrite <- app_assoc in IH. }
    apply preserves_bind; [apply _|apply preserves_get_fs, _|]. intros fs.
    destruct (fs !! (done_ // c)) as [[d|]|].
    + apply preserves_raise, _.
    + apply IH'.
    + apply preserves_bind; [apply _| |intros _; apply IH'].
      apply emit_log_extends. eexists; split_and!; [done|by destruct done_|].
      exists todo. unfold PurePath.join. by rewrite <- app_assoc.
Qed.

Lemma emit_mkdir_keeps_dirs q : preserves keeps_dirs (emit (EvMkdir q)).
Proof.
  intros w r w' H. munfold. injection H as <- <-. intros p Hp. simpl.
  destruct (decide (q = p)) as [->|]; [by rewrite lookup_insert_eq|].
  by rewrite lookup_insert_ne.
Qed.

Lemma emit_mkdir_keeps_entries q : preserves keeps_entries (emit (EvMkdir q)).
Proof.
  intros w r w' H. munfold. injection H as <- <-. intros p _ Hp. simpl.
  destruct (decide (q = p)) as [->|]; [by rewrite lookup_insert_eq|].
  by rewrite lookup_insert_ne.
Qed.

Lemma mkdir_parents_keeps_dirs target : ∀ todo done_,
  preserves keeps_dirs (mkdir_parents target done_ todo).
Proof.
  induction todo as [|c todo IH]; intros done_; simpl.
  - apply preserves_ret, _.
  - apply preserves_bind; [apply _|apply preserves_get_fs, _|]. intros fs.
    destruct (fs !! (done_ // c)) as [[d|]|].
    + apply preserves_raise, _.
    + apply IH.
    + apply preserves_bind; [apply _|apply emit_mkdir_keeps_dirs|intros _; apply IH].
Qed.

Lemma mkdir_parents_keeps_entries target : ∀ todo done_,
  preserves keeps_entries (mkdir_parents target done_ todo).
Proof.
  induction todo as [|c todo IH]; intros done_; simpl.
  - apply preserves_ret, _.
  - apply preserves_bind; [apply _|apply preserves_get_fs, _|]. intros fs.
    destruct (fs !! (done_ // c)) as [[d|]|].
    + apply preserves_raise, _.
    + apply IH.
    + apply preserves_bind; [apply _|apply emit_mkdir_keeps_entries|intros _; apply IH].
Qed.

(** After a [mkdir] that returns, the directories from [done_] down to
    the target are directories. *)
Lemma mkdir_parents_Ok target : ∀ todo done_ w w',
  mkdir_parents target done_ todo w = (Ok (), w') →
  ∀ n, (1 ≤ n ≤ length todo)%nat → w_fs w' !! (done_ ++ take n todo) = Some Dir.
Proof.
  induction todo as [|c todo IH]; intros done_ w w' H n Hn; simpl in *; [lia|].
  munfold. destruct (w_fs w !! (done_ // c)) as [[d|]|] eqn:E; [done| |].
  - destruct n as [|[|n]]; [lia| |].
    + simpl. apply (mkdir_parents_keeps_dirs _ _ _ _ _ _ H). apply E.
    + specialize (IH _ _ _ H (S n) ltac:(lia)).
      unfold PurePath.join in IH. by rewrite <- app_assoc in IH.
  - destruct n as [|[|n]]; [lia| |].
    + simpl. apply (mkdir_parents_keeps_dirs _ _ _ _ _ _ H). simpl.
      apply lookup_insert_eq.
    + specialize (IH _ _ _ H (S n) ltac:(lia)).
      unfold PurePath.join in IH. by rewrite <- app_assoc in IH.
Qed.

Lemma mkdir_Ok p w w' :
  mkdir p w = (Ok (), w') → ∀ q, q ∈ ancestors_and_self p → w_fs w' !! q = Some Dir.
Proof.
  intros H q Hq. apply list_elem_of_fmap in Hq as (n & -> & Hn).
  apply elem_of_seq in Hn. apply (mkdir_parents_Ok _ _ _ _ _ H n). lia.
Qed.

Lemma mkdir_is_dir p w w' : mkdir p w = (Ok (), w') → is_dir (w_fs w') p = true.
Proof.
  intros H. destruct p as [|c p]; [done|].
  unfold is_dir. rewrite (mkdir_Ok _ _ _ H); [done|].
  apply list_elem_of_fmap. exists (length (c :: p)). split; [by rewrite firstn_all|].
  apply elem_of_seq. simpl. lia.
Qed.

Lemma mkdir_parents_noop target : ∀ todo done_ w,
  (∀ n, (1 ≤ n ≤ length todo)%nat → w_fs w !! (done_ ++ take n todo) = Some Dir) →
  mkdir_parents target done_ todo w = (Ok (), w).
Proof.
  induction todo as [|c todo IH]; intros done_ w Hd; simpl; [done|].
  munfold. pose proof (Hd 1%nat ltac:(simpl; lia)) as H1. simpl in H1.
  rewrite take_0 in H1. unfold PurePath.join. rewrite H1.
  apply IH. intros n Hn. specialize (Hd (S n) ltac:(simpl; lia)).
  by rewrite <- app_assoc.
Qed.

Lemma parent_join p n : PurePath.parent (p // n) = p.
Proof. apply removelast_last. Qed.

Lemma name_join p n : PurePath.name (p // n) = n.
Proof. apply last_last. Qed.

Lemma path_parent_name p : p ≠ [] → p = PurePath.parent p // PurePath.name p.
Proof. intros. by apply app_removelast_last. Qed.

Lemma stem_suffix p : PurePath.stem p +:+ PurePath.suffix p = PurePath.name p.
Proof.
  unfold PurePath.stem, PurePath.suffix.
  destruct (PurePath.suffix_index (PurePath.name p)); [apply str_take_drop|apply str_app_nil_r].
Qed.

Lemma with_suffix_tmp dest_path :
  PurePath.with_suffix dest_path (PurePath.suffix dest_path +:+ ".tmp")
  = if decide (PurePath.name dest_path = "") then None else Some (tmp_of dest_path).
Proof.
  unfold PurePath.with_suffix, tmp_of. case_decide; [done|].
  by rewrite <- str_app_assoc, stem_suffix.
Qed.

Lemma str_app_tmp_ne (s : string) : s +:+ ".tmp" ≠ s.
Proof.
  intros H. apply (f_equal String.length) in H. rewrite str_len_app in H. simpl in H. lia.
Qed.

Lemma tmp_of_ne dest_path : tmp_of dest_path ≠ dest_path.
Proof.
  unfold tmp_of. destruct dest_path as [|c p] eqn:E; [by destruct (PurePath.parent [])|].
  rewrite <- E. intros H.
  rewrite (path_parent_name dest_path) in H at 3 by (by rewrite E).
  unfold PurePath.join in H. apply (inj (app _)) in H. injection H as H.
  by apply str_app_tmp_ne in H.
Qed.

Lemma world_eta w : {| w_fs := w_fs w; w_log := w_log w |} = w.
Proof. by destruct w. Qed.

Lemma write_chars_eq p : ∀ data w d,
  w_fs w !! p = Some (File d) →
  write_chars p data w
  = (Ok (), {| w_fs := <[p := File (d +:+ data)]> (w_fs w);
               w_log := w_log w ++ (EvWrite p <$> chars data) |}).
Proof.
  induction data as [|c data IH]; intros w d Hp; simpl.
  - munfold. rewrite str_app_nil_r, insert_id, app_nil_r by done. by rewrite world_eta.
  - munfold. simpl. rewrite Hp. erewrite IH by (simpl; apply lookup_insert_eq).
    simpl. rewrite insert_insert_eq, str_app_assoc, <- app_assoc. done.
Qed.

Lemma is_dir_insert_ne fs p q e : p ≠ q → is_dir (<[p := e]> fs) q = is_dir fs q.
Proof. intros. unfold is_dir. by rewrite lookup_insert_ne. Qed.

(** [_write_atomic], case by case. *)
Lemma _write_atomic_eq dest_path data w :
  _write_atomic dest_path data w =
  match mkdir (PurePath.parent dest_path) w with
  | (Raise e, w1) => (Raise e, w1)
  | (Ok _, w1) =>
      let tmp := tmp_of dest_path in
      if decide (PurePath.name dest_path = "")
      then (Raise (ValueError ("PosixPath('" +:+ fspath dest_path +:+ "') has an empty name")), w1)
      else if is_dir (w_fs w1) tmp
      then (Raise (IsADirectoryError (os_error 21 "Is a directory" tmp)), w1)
      else if is_dir (w_fs w1) dest_path
      then (Raise (IsADirectoryError (os_error2 21 "Is a directory" tmp dest_path)),
            {| w_fs := <[tmp := File data]> (w_fs w1);
               w_log := w_log w1 ++ EvOpen tmp :: (EvWrite tmp <$> chars data) |})
      else (Ok (),
            {| w_fs := <[dest_path := File data]> (delete tmp (w_fs w1));
               w_log := w_log w1 ++ write_events dest_path data |})
  end.
Proof.
  unfold _write_atomic. unfold mbind at 1, M_bind at 1.
  destruct (mkdir (PurePath.parent dest_path) w) as [[[]|e] w1]; [|done].
  unfold with_suffix. rewrite with_suffix_tmp. cbv zeta.
  unfold mbind at 1, M_bind at 1. unfold lift at 1.
  case_decide; [done|].
  unfold mbind at 1, M_bind at 1. unfold get_fs at 1.
  unfold mbind at 1, M_bind at 1.
  destruct (is_dir (w_fs w1) (tmp_of dest_path)) eqn:Etmp; [done|].
  unfold emit at 1. unfold mbind at 1, M_bind at 1.
  erewrite write_chars_eq by (simpl; apply lookup_insert_eq).
  unfold mbind at 1, M_bind at 1. unfold get_fs at 1. simpl.
  rewrite insert_insert_eq, is_dir_insert_ne by apply tmp_of_ne.
  rewrite <- app_assoc. simpl.
  destruct (is_dir (w_fs w1) dest_path) eqn:Edest; [done|].
  munfold. simpl. rewrite lookup_insert_eq, delete_insert_eq.
  unfold write_events. by rewrite <- !app_assoc.
Qed.

Lemma apply_event_frame fs ev p : ¬ touches ev p → apply_event fs ev !! p = fs !! p.
Proof.
  destruct ev as [q|q|q c|tmp q| | |]; simpl; intros Hn; try done.
  - by rewrite lookup_insert_ne.
  - by rewrite lookup_insert_ne.
  - destruct (fs !! q) as [[d|]|]; [|done..]. by rewrite lookup_insert_ne.
  - destruct (fs !! tmp); [|done].
    rewrite lookup_insert_ne by tauto. rewrite lookup_delete_ne by tauto. done.
Qed.

Lemma replay_frame p : ∀ evs fs,
  Forall (λ ev, ¬ touches ev p) evs → replay fs evs !! p = fs !! p.
Proof.
  induction evs as [|ev evs IH]; intros fs Hf; [done|].
  apply Forall_cons in Hf as [H1 H2]. simpl.
  unfold replay in IH. rewrite IH by done. by apply apply_event_frame.
Qed.

Lemma prefix_snoc_cases {A} (k l : list A) x :
  k `prefix_of` l ++ [x] → k `prefix_of` l ∨ k = l ++ [x].
Proof.
  intros [t Ht]. destruct t as [|y t _] using rev_ind.
  - right. by rewrite app_nil_r in Ht.
  - left. rewrite app_assoc in Ht. apply app_inj_tail in Ht as [-> _]. by exists t.
Qed.

Lemma Forall_prefix {A} (P : A → Prop) (k l : list A) :
  k `prefix_of` l → Forall P l → Forall P k.
Proof. intros [t ->] H. by apply Forall_app in H as [H _]. Qed.

Lemma not_prefix_of_parent p q : p ≠ [] → q `prefix_of` PurePath.parent p → q ≠ p.
Proof.
  intros Hp Hq ->. apply prefix_length in Hq.
  rewrite (path_parent_name p Hp) in Hq at 1.
  unfold PurePath.join in Hq. rewrite length_app in Hq. simpl in Hq. lia.
Qed.

Lemma mkdir_quiet p w r w' :
  mkdir (PurePath.parent p) w = (r, w') →
  ∃ mk, w_log w' = w_log w ++ mk ∧ w_fs w' = replay (w_fs w) mk
        ∧ Forall (λ ev, is_mkdir ev ∧ ¬ touches ev p ∧ ¬ touches ev (tmp_of p)) mk.
Proof.
  intros Emk. apply mkdir_parents_log in Emk as (mk & L & F & Hmk).
  exists mk. split_and!; [done..|].
  eapply Forall_impl; [apply Hmk|]. intros ev (q & -> & Hq0 & Hq). simpl in *.
  split_and!; [done| |].
  - destruct (decide (p = [])) as [->|Hne].
    + apply prefix_nil_inv in Hq. done.
    + by apply not_prefix_of_parent.
  - intros ->. apply prefix_length in Hq. unfold tmp_of, PurePath.join in Hq.
    rewrite length_app in Hq. simpl in Hq. lia.
Qed.

Lemma Forall_write_events (P : event → Prop) tmp data :
  (∀ c, P (EvWrite tmp c)) → Forall P (EvWrite tmp <$> chars data).
Proof. intros H. apply Forall_fmap, Forall_true. intros c. apply H. Qed.

Lemma replay_writes tmp : ∀ data fs d,
  fs !! tmp = Some (File d) →
  replay fs (EvWrite tmp <$> chars data) = <[tmp := File (d +:+ data)]> fs.
Proof.
  induction data as [|c data IH]; intros fs d Hd; simpl.
  - by rewrite str_app_nil_r, insert_id.
  - rewrite Hd. unfold replay in IH. erewrite IH by apply lookup_insert_eq.
    by rewrite insert_insert_eq, str_app_assoc.
Qed.

Lemma replay_open_writes tmp data fs :
  replay fs (EvOpen tmp :: (EvWrite tmp <$> chars data)) = <[tmp := File data]> fs.
Proof.
  simpl. fold (replay (<[tmp := File ""]> fs) (EvWrite tmp <$> chars data)).
  erewrite replay_writes by apply lookup_insert_eq. by rewrite insert_insert_eq.
Qed.

(** The log of [_write_atomic]: events that leave the final path alone,
    followed, when the call returns, by the one event that moves the
    complete temporary file onto it. *)
Lemma _write_atomic_log dest_path data w r w' :
  _write_atomic dest_path data w = (r, w') →
  ∃ quiet,
    Forall (λ ev, ¬ touches ev dest_path) quiet
    ∧ w_fs w' = replay (w_fs w)
        (quiet ++ if r is Ok _ then [EvReplace (tmp_of dest_path) dest_path] else [])
    ∧ w_log w' = w_log w ++ quiet
        ++ (if r is Ok _ then [EvReplace (tmp_of dest_path) dest_path] else [])
    ∧ (if r is Ok _ then w_fs w' !! dest_path = Some (File data) else True).
Proof.
  rewrite _write_atomic_eq.
  destruct (mkdir (PurePath.parent dest_path) w) as [[[]|e] w1] eqn:Emk;
    apply mkdir_quiet in Emk as (mk & L & F & Hmk).
  2:{ intros H; injection H as <- <-. exists mk. rewrite !app_nil_r.
      split_and!; [|done..]. eapply Forall_impl; [apply Hmk|]. by intros ev (_ & ? & _). }
  assert (Forall (λ ev, ¬ touches ev dest_path) mk) as Hmk'.
  { eapply Forall_impl; [apply Hmk|]. by intros ev (_ & ? & _). }
  pose proof (tmp_of_ne dest_path) as Hne.
  cbv zeta. case_decide as En.
  { intros H; injection H as <- <-. exists mk. by rewrite !app_nil_r. }
  destruct (is_dir (w_fs w1) (tmp_of dest_path)) eqn:Etmp.
  { intros H; injection H as <- <-. exists mk. by rewrite !app_nil_r. }
  assert (Forall (λ ev, ¬ touches ev dest_path)
            (mk ++ EvOpen (tmp_of dest_path) :: (EvWrite (tmp_of dest_path) <$> chars data)))
    as Hq.
  { apply Forall_app. split; [done|]. constructor; [done|]. by apply Forall_write_events. }
  destruct (is_dir (w_fs w1) dest_path) eqn:Edest; intros H; injection H as <- <-.
  - eexists. split; [apply Hq|]. simpl. rewrite !app_nil_r, replay_app, <- F, L.
    rewrite replay_open_writes, <- app_assoc. done.
  - eexists. split; [apply Hq|]. simpl.
    rewrite <- app_assoc, replay_app, <- F, L. unfold write_events.
    rewrite (app_comm_cons _ _ (EvOpen _)), replay_app, replay_open_writes. simpl.
    rewrite lookup_insert_eq, delete_insert_eq, lookup_insert_eq.
    rewrite <- !app_assoc. done.
Qed.

Lemma mkdir_parents_succeeds target : ∀ todo done_ w,
  (∀ n d, (1 ≤ n ≤ length todo)%nat → w_fs w !! (done_ ++ take n todo) ≠ Some (File d)) →
  ∃ w', mkdir_parents target done_ todo w = (Ok (), w').
Proof.
  induction todo as [|c todo IH]; intros done_ w Hf; simpl; [by eexists|].
  munfold.
  assert (∀ n d, (1 ≤ n ≤ length todo)%nat →
                 w_fs w !! ((done_ // c) ++ take n todo) ≠ Some (File d)) as Hf'.
  { intros n d Hn. specialize (Hf (S n) d ltac:(simpl; lia)).
    unfold PurePath.join. by rewrite <- app_assoc. }
  destruct (w_fs w !! (done_ // c)) as [[d|]|] eqn:E.
  - specialize (Hf 1%nat d ltac:(simpl; lia)). simpl in Hf. by rewrite take_0 in Hf.
  - by apply IH.
  - apply IH. intros n d Hn. simpl. rewrite lookup_insert_ne; [by apply Hf'|].
    intros Heq. apply (f_equal length) in Heq. unfold PurePath.join in Heq.
    rewrite !length_app, length_take in Heq. simpl in Heq. lia.
Qed.

Lemma mkdir_succeeds p w :
  (∀ q d, q ∈ ancestors_and_self p → w_fs w !! q ≠ Some (File d)) →
  ∃ w', mkdir p w = (Ok (), w').
Proof.
  intros Hf. apply mkdir_parents_succeeds. intros n d Hn. apply Hf.
  apply list_elem_of_fmap. exists n. split; [done|]. apply elem_of_seq. lia.
Qed.

Lemma is_dir_same fs fs' p : fs' !! p = fs !! p → is_dir fs' p = is_dir fs p.
Proof. intros H. unfold is_dir. by rewrite H. Qed.

Lemma ancestor_of_parent_ne p q :
  q ∈ ancestors_and_self (PurePath.parent p) → q ≠ p ∧ q ≠ tmp_of p.
Proof.
  intros Hq. apply list_elem_of_fmap in Hq as (n & -> & Hn). apply elem_of_seq in Hn.
  split; intros Heq; apply (f_equal length) in Heq; rewrite length_take in Heq.
  - destruct (decide (p = [])) as [->|Hne]; [simpl in *; lia|].
    rewrite (path_parent_name p Hne) in Heq at 2. unfold PurePath.join in Heq.
    rewrite length_app in Heq. simpl in Heq. lia.
  - unfold tmp_of, PurePath.join in Heq. rewrite length_app in Heq. simpl in Heq. lia.
Qed.

(** C9: [_write_atomic] makes the ancestor directories, writes the text
    to the temporary sibling [tmp_of dest_path] and moves it onto the final
    path with one [os.replace].  In every state the file system passes
    through, also when the call raises half-way, the final path holds what
    it held before the call or the complete new text; after a call that
    returns it holds the new text and all its ancestors are directories.
    The call returns whenever no ancestor is a regular file, the name is
    not empty, and neither the final path nor the temporary one is a
    directory. *)
Theorem write_atomic_old_or_new (fs : FS) (dest_path : Path) (data : string) r w' :
  _write_atomic dest_path data (start fs) = (r, w') →
  w_fs w' = replay fs (w_log w')
  ∧ (∀ evs, evs `prefix_of` w_log w' →
       replay fs evs !! dest_path = fs !! dest_path
       ∨ replay fs evs !! dest_path = Some (File data))
  ∧ (r = Ok () →
       w_fs w' !! dest_path = Some (File data)
       ∧ (∀ q, q ∈ ancestors_and_self (PurePath.parent dest_path) → w_fs w' !! q = Some Dir)
       ∧ PurePath.parent (tmp_of dest_path) = PurePath.parent dest_path
       ∧ ∃ mk, Forall (λ ev, is_mkdir ev) mk ∧ w_log w' = mk ++ write_events dest_path data)
  ∧ ((∀ q d, q ∈ ancestors_and_self (PurePath.parent dest_path) → fs !! q ≠ Some (File d)) →
     PurePath.name dest_path ≠ "" →
     is_dir fs (tmp_of dest_path) = false → is_dir fs dest_path = false →
     r = Ok ()).
Proof.
  intros Hrun. pose proof (_write_atomic_log _ _ _ _ _ Hrun) as (quiet & Hq & Hfs & Hlog & Hfin).
  simpl in Hfs, Hlog. split; [by rewrite Hlog|]. split.
  { intros evs Hpre. rewrite Hlog in Hpre. destruct r as [[]|e].
    - apply prefix_snoc_cases in Hpre as [Hpre| ->].
      + left. apply replay_frame. by eapply Forall_prefix.
      + right. by rewrite <- Hfs.
    - left. rewrite app_nil_r in Hpre. apply replay_frame. by eapply Forall_prefix. }
  rewrite _write_atomic_eq in Hrun.
  destruct (mkdir (PurePath.parent dest_path) (start fs)) as [[[]|e] w1] eqn:Emk.
  2:{ injection Hrun as <- <-. split; [done|]. intros Hanc.
      apply (mkdir_succeeds _ (start fs)) in Hanc as [w2 Hw2]. rewrite Hw2 in Emk. done. }
  pose proof (mkdir_Ok _ _ _ Emk) as Hdirs.
  apply mkdir_quiet in Emk as (mk & L & F & Hmk). simpl in L, F.
  assert (is_dir (w_fs w1) dest_path = is_dir fs dest_path) as Hd1.
  { apply is_dir_same. rewrite F. apply replay_frame.
    eapply Forall_impl; [apply Hmk|]. by intros ev (_ & ? & _). }
  assert (is_dir (w_fs w1) (tmp_of dest_path) = is_dir fs (tmp_of dest_path)) as Hd2.
  { apply is_dir_same. rewrite F. apply replay_frame.
    eapply Forall_impl; [apply Hmk|]. by intros ev (_ & _ & ?). }
  cbv zeta in Hrun. rewrite Hd1, Hd2 in Hrun.
  case_decide as En; [injection Hrun as <- <-; by split|].
  destruct (is_dir fs (tmp_of dest_path)) eqn:Etmp; [injection Hrun as <- <-; by split|].
  destruct (is_dir fs dest_path) eqn:Edest; injection Hrun as <- <-; [by split|].
  split; [|done]. intros _. split; [done|]. split; [|split].
  - intros q Hq'. simpl. destruct (ancestor_of_parent_ne _ _ Hq') as [H1 H2].
    rewrite lookup_insert_ne, lookup_delete_ne by done. by apply Hdirs.
  - unfold tmp_of. apply parent_join.
  - exists mk. split; [|by rewrite L].
    eapply Forall_impl; [apply Hmk|]. by intros ev (? & _).
Qed.

Lemma write_atomic_old_or_new_witness :
  w_fs write_old_new.2 = replay fs_old (w_log write_old_new.2)
  ∧ (∀ evs, evs `prefix_of` w_log write_old_new.2 →
       replay fs_old evs !! ["out"; "a.md"] = fs_old !! ["out"; "a.md"]
       ∨ replay fs_old evs !! ["out"; "a.md"] = Some (File "new"))
  ∧ write_old_new.1 = Ok ().
Proof.
  pose proof (write_atomic_old_or_new fs_old ["out"; "a.md"] "new" write_old_new.1
                write_old_new.2 (surjective_pairing _)) as (H1 & H2 & _ & H4).
  split; [exact H1|]. split; [exact H2|]. apply H4.
  - intros q d Hq. apply list_elem_of_fmap in Hq as (n & -> & Hn).
    apply elem_of_seq in Hn. simpl in Hn. assert (n = 1%nat) as -> by lia. done.
  - done.
  - reflexivity.
  - reflexivity.
Defined.

Lemma tmp_named_tmp_of p : tmp_named (tmp_of p) = true.
Proof.
  unfold tmp_named, tmp_of. rewrite name_join, last_char_app by done.
  by apply bool_decide_eq_true.
Qed.

Lemma _write_atomic_after_gate dest_path data :
  preserves (log_extends after_gate_event) (_write_atomic dest_path data).
Proof.
  intros w r w' H. rewrite _write_atomic_eq in H.
  destruct (mkdir (PurePath.parent dest_path) w) as [[[]|e] w1] eqn:Emk;
    apply mkdir_quiet in Emk as (mk & L & F & Hmk).
  all: assert (log_extends after_gate_event w w1) as H1.
  1,3: exists mk; split_and!; [done..|]; eapply Forall_impl; [apply Hmk|];
       intros [] (? & _); done.
  2: by injection H as <- <-.
  cbv zeta in H. etrans; [apply H1|]. clear H1 L F Hmk.
  pose proof (tmp_named_tmp_of dest_path) as Htmp.
  assert (Forall after_gate_event
            (EvOpen (tmp_of dest_path) :: (EvWrite (tmp_of dest_path) <$> chars data))) as Hq.
  { constructor; [done|]. by apply Forall_write_events. }
  case_decide; [by injection H as <- <-|].
  destruct (is_dir (w_fs w1) (tmp_of dest_path)); [by injection H as <- <-|].
  destruct (is_dir (w_fs w1) dest_path); injection H as <- <-.
  - eexists; split_and!; [done| |apply Hq]. cbn [w_fs]. by rewrite replay_open_writes.
  - exists (write_events dest_path data). split_and!; [done| |].
    + cbn [w_fs]. unfold write_events. rewrite (app_comm_cons _ _ (EvOpen _)), replay_app.
      rewrite replay_open_writes. simpl.
      by rewrite lookup_insert_eq, delete_insert_eq.
    + unfold write_events. rewrite (app_comm_cons _ _ (EvOpen _)).
      apply Forall_app. split; [done|]. by constructor.
Qed.

Lemma is_dir_false_lookup fs p : is_dir fs p = false → fs !! p ≠ Some Dir.
Proof. unfold is_dir. destruct p; [done|]. intros H Hp. by rewrite Hp in H. Qed.

Lemma _write_atomic_keeps_dirs dest_path data :
  preserves keeps_dirs (_write_atomic dest_path data).
Proof.
  intros w r w' H. rewrite _write_atomic_eq in H.
  destruct (mkdir (PurePath.parent dest_path) w) as [[[]|e] w1] eqn:Emk;
    apply mkdir_parents_keeps_dirs in Emk; [|by injection H as <- <-].
  cbv zeta in H. etrans; [apply Emk|]. clear Emk.
  case_decide; [by injection H as <- <-|].
  destruct (is_dir (w_fs w1) (tmp_of dest_path)) eqn:Et; [by injection H as <- <-|].
  apply is_dir_false_lookup in Et.
  destruct (is_dir (w_fs w1) dest_path) eqn:Ed; injection H as <- <-; intros q Hq; simpl.
  - rewrite lookup_insert_ne; [done|]. intros <-. congruence.
  - apply is_dir_false_lookup in Ed.
    rewrite lookup_insert_ne, lookup_delete_ne; [done|intros <-; congruence..].
Qed.

Lemma _write_atomic_keeps_entries dest_path data :
  preserves keeps_entries (_write_atomic dest_path data).
Proof.
  intros w r w' H. rewrite _write_atomic_eq in H.
  destruct (mkdir (PurePath.parent dest_path) w) as [[[]|e] w1] eqn:Emk;
    apply mkdir_parents_keeps_entries in Emk; [|by injection H as <- <-].
  cbv zeta in H. etrans; [apply Emk|]. clear Emk.
  pose proof (tmp_named_tmp_of dest_path) as Htmp.
  case_decide; [by injection H as <- <-|].
  destruct (is_dir (w_fs w1) (tmp_of dest_path)); [by injection H as <- <-|].
  destruct (is_dir (w_fs w1) dest_path); injection H as <- <-; intros q Hn Hq; simpl.
  - rewrite lookup_insert_ne; [done|]. intros <-. congruence.
  - destruct (decide (dest_path = q)) as [->|]; [by rewrite lookup_insert_eq|].
    rewrite lookup_insert_ne, lookup_delete_ne; [done| |done]. intros <-. congruence.
Qed.

Lemma ancestors_and_self_prefix (p q : Path) :
  q ∈ ancestors_and_self p ↔ q ≠ [] ∧ q `prefix_of` p.
Proof.
  unfold ancestors_and_self. rewrite list_elem_of_fmap. split.
  - intros (n & -> & Hn). apply elem_of_seq in Hn. split.
    + intros H. apply (f_equal length) in H. rewrite length_take in H. simpl in H. lia.
    + apply prefix_take.
  - intros [Hne [k ->]]. exists (length q). split; [by rewrite take_app_length|].
    apply elem_of_seq. rewrite length_app. destruct q; [done|]. simpl. lia.
Qed.

(** After a [mkdir] that returns, the directories it was asked for are
    there and everything else is as it was. *)
Lemma mkdir_Ok_lookup p w w' :
  mkdir p w = (Ok (), w') →
  ∀ q, w_fs w' !! q = if decide (q ∈ ancestors_and_self p) then Some Dir else w_fs w !! q.
Proof.
  intros H q. pose proof (mkdir_Ok _ _ _ H) as Hdirs.
  case_decide as Hq; [by apply Hdirs|].
  apply mkdir_parents_log in H as (mk & _ & -> & Hmk).
  apply replay_frame. eapply Forall_impl; [apply Hmk|].
  intros ev (q' & -> & Hne & Hpre) ->. simpl in *.
  apply Hq. by apply ancestors_and_self_prefix.
Qed.

(** A regular file below directories that are there stops [mkdir], which
    then has made nothing. *)
Lemma mkdir_parents_blocked target : ∀ todo done_ w n d,
  (1 ≤ n ≤ length todo)%nat →
  w_fs w !! (done_ ++ take n todo) = Some (File d) →
  (∀ m, (1 ≤ m < n)%nat → w_fs w !! (done_ ++ take m todo) = Some Dir) →
  mkdir_parents target done_ todo w
  = (Raise (if decide (n = length todo)
            then FileExistsError (os_error 17 "File exists" target)
            else NotADirectoryError (os_error 20 "Not a directory" target)), w).
Proof.
  induction todo as [|c todo IH]; intros done_ w n d Hn Hf Hd; simpl in *; [lia|].
  munfold. destruct n as [|n]; [lia|].
  destruct (decide (n = 0%nat)) as [->|Hn0].
  - simpl in Hf. rewrite take_0 in Hf. unfold PurePath.join. rewrite Hf.
    destruct todo; simpl; first [done | by case_decide].
  - pose proof (Hd 1%nat ltac:(lia)) as H1. simpl in H1. rewrite take_0 in H1.
    unfold PurePath.join. rewrite H1.
    rewrite (IH (done_ ++ [c]) w n d).
    + repeat case_decide; (done || lia).
    + lia.
    + simpl in Hf. by rewrite <- app_assoc.
    + intros m Hm. specialize (Hd (S m) ltac:(lia)). simpl in Hd.
      by rewrite <- app_assoc.
Qed.

Lemma fs_wf_above fs p q :
  fs_wf fs → is_Some (fs !! p) → q ∈ ancestors_and_self p → q ≠ p → fs !! q = Some Dir.
Proof.
  intros Hwf [e He] Hq Hne. specialize (Hwf p e He). simpl in Hwf.
  rewrite Forall_forall in Hwf. by apply Hwf.
Qed.

(** On a disk, a regular file at the target or above it makes [mkdir]
    raise before it has made anything, and the target is no directory. *)
Lemma mkdir_blocked p fs q d :
  fs_wf fs → q ∈ ancestors_and_self p → fs !! q = Some (File d) →
  mkdir p (start fs) = (Raise (mkdir_error p q), start fs) ∧ is_dir fs p = false.
Proof.
  intros Hwf Hq Hf. split.
  - pose proof Hq as Hq'. apply list_elem_of_fmap in Hq' as (n & -> & Hn).
    apply elem_of_seq in Hn. unfold mkdir.
    rewrite (mkdir_parents_blocked p p [] (start fs) n d); [|lia|done|].
    + unfold mkdir_error. f_equal. f_equal.
      destruct (decide (n = length p)) as [->|Hne].
      * by rewrite firstn_all, decide_True.
      * rewrite decide_False; [done|]. intros Heq. apply (f_equal length) in Heq.
        rewrite length_take in Heq. lia.
    + intros m Hm. simpl. apply (fs_wf_above fs (take n p)); [done|by rewrite Hf| |].
      * apply ancestors_and_self_prefix. split.
        -- intros H. apply (f_equal length) in H. rewrite length_take in H.
           simpl in H. lia.
        -- exists (drop m (take n p)). rewrite <- (take_drop m (take n p)) at 1.
           f_equal. rewrite take_take. f_equal. lia.
      * intros Heq. apply (f_equal length) in Heq. rewrite !length_take in Heq. lia.
  - apply ancestors_and_self_prefix in Hq as [Hne Hpre].
    destruct p as [|c p]; [by apply prefix_nil_inv in Hpre|].
    unfold is_dir. destruct (fs !! (c :: p)) as [[d'|]|] eqn:E; [done| |done].
    destruct (decide (q = c :: p)) as [->|Hqp]; [congruence|].
    assert (fs !! q = Some Dir); [|congruence].
    apply (fs_wf_above fs (c :: p)); [done|by rewrite E| |done].
    by apply ancestors_and_self_prefix.
Qed.

(** What [mkdir] raises is FileExistsError or NotADirectoryError. *)
Lemma mkdir_parents_Raise_kind target : ∀ todo done_ w e w',
  mkdir_parents target done_ todo w = (Raise e, w') →
  (∃ msg, e = FileExistsError msg) ∨ (∃ msg, e = NotADirectoryError msg).
Proof.
  induction todo as [|c todo IH]; intros done_ w e w' H; simpl in H; [done|].
  munfold. destruct (w_fs w !! (done_ // c)) as [[d|]|].
  - injection H as <- <-. destruct todo; [left|right]; by eexists.
  - by eapply IH.
  - by eapply IH.
Qed.

(** ** The loop of bulk_convert *)

Lemma count_status_snoc s l o :
  count_status s (l ++ [o])
  = count_status s l + (if decide (fr_status o = s) then 1 else 0).
Proof.
  unfold count_status. rewrite filter_app, length_app.
  case_decide.
  - rewrite (filter_cons_True _ o []) by done. simpl. lia.
  - rewrite (filter_cons_False _ o []) by done. simpl. lia.
Qed.

Lemma sum_words_snoc l o :
  sum_words (l ++ [o])
  = sum_words l + (if decide (fr_status o = converted) then default 0 (fr_words o) else 0).
Proof.
  unfold sum_words. rewrite filter_app, fmap_app, sum_list_Z_app.
  case_decide.
  - rewrite (filter_cons_True _ o []) by done. unfold sum_list_Z. simpl. lia.
  - rewrite (filter_cons_False _ o []) by done. unfold sum_list_Z. simpl. lia.
Qed.

Lemma sum_headings_snoc l o :
  sum_headings (l ++ [o])
  = sum_headings l
    + (if decide (fr_status o = converted) then default 0 (fr_headings o) else 0).
Proof.
  unfold sum_headings. rewrite filter_app, fmap_app, sum_list_Z_app.
  case_decide.
  - rewrite (filter_cons_True _ o []) by done. unfold sum_list_Z. simpl. lia.
  - rewrite (filter_cons_False _ o []) by done. unfold sum_list_Z. simpl. lia.
Qed.

Lemma count_status_total l :
  count_status converted l + count_status skipped l + count_status failed l
  = Z.of_nat (length l).
Proof.
  induction l as [|o l IH] using rev_ind; [done|].
  rewrite !count_status_snoc, length_app. simpl.
  destruct (fr_status o); repeat case_decide; try done; lia.
Qed.

Lemma tally_consistent_0 : tally_consistent tally0.
Proof. by repeat split. Qed.

Lemma recorded_consistent convert_local t t' file_path :
  recorded convert_local t t' file_path → tally_consistent t → tally_consistent t'.
Proof.
  intros [[why ->]|[(out & md & _ & ->)|[why ->]]] (Hc & Hs & Hf & Hw & Hh);
    unfold tally_consistent; simpl;
    rewrite !count_status_snoc, sum_words_snoc, sum_headings_snoc; simpl;
    repeat case_decide; try done; split_and!; lia.
Qed.

(** What the loop body appends to the outcomes. *)
Lemma recorded_results convert_local t t' file_path :
  recorded convert_local t t' file_path →
  ∃ o, results t' = results t ++ [o] ∧ fr_src o = file_path
       ∧ counts_from convert_local o.
Proof.
  intros [[why ->]|[(out & md & Hmd & ->)|[why ->]]]; eexists; split_and!; try done.
  intros _. exists md. by split.
Qed.

Section Loop.
Variable convert_local : Path → result string.
Variables (src_root dest_root : Path).
Variables (include_ext exclude_ext : option (gset string)).
Variable on_conflict : ConflictPolicy.
Variable continue_on_error : bool.

#[local] Abbreviation process_file' :=
  (process_file convert_local src_root dest_root include_ext exclude_ext
     on_conflict continue_on_error).
#[local] Abbreviation loop' :=
  (loop convert_local src_root dest_root include_ext exclude_ext
     on_conflict continue_on_error).

(** The loop body, case by case. *)
Lemma process_file_eq t file_path w :
  process_file' t file_path w =
  if filtered include_ext exclude_ext file_path
  then (Ok (record_skipped t file_path "filtered", Continue), w)
  else
    match _derive_output_path file_path src_root dest_root with
    | Raise e => (Raise e, w)
    | Ok out_path =>
        let w1 := after_convert w file_path in
        match convert_local file_path with
        | Raise e => (Ok (on_failure continue_on_error t file_path e), w1)
        | Ok md_text =>
            let words := (_count_words_and_headings md_text).1 in
            let headings := (_count_words_and_headings md_text).2 in
            let final_out :=
              match on_conflict with
              | rename => _unique_path (w_fs w1) out_path
              | skip => out_path
              end in
            if match on_conflict with
               | skip => exists_ (w_fs w1) out_path
               | rename => false
               end
            then (Ok (record_skipped t file_path "exists", Continue), w1)
            else
              match _write_atomic final_out md_text w1 with
              | (Ok _, w2) =>
                  (Ok (record_converted t file_path final_out words headings, Continue), w2)
              | (Raise e, w2) => (Ok (on_failure continue_on_error t file_path e), w2)
              end
        end
    end.
Proof.
  unfold process_file. destruct (filtered include_ext exclude_ext file_path); [done|].
  unfold mbind at 1, M_bind at 1, lift at 1.
  destruct (_derive_output_path file_path src_root dest_root) as [out_path|e]; [|done].
  unfold try_except, convert. unfold mbind at 1, M_bind at 1.
  unfold mbind at 1, M_bind at 1. unfold emit at 1, lift at 1. simpl.
  fold (after_convert w file_path).
  destruct (convert_local file_path) as [md_text|e]; [|done].
  destruct (_count_words_and_headings md_text) as [words headings] eqn:Ec. simpl.
  unfold resolve_and_write. unfold mbind at 1, M_bind at 1, get_fs at 1.
  destruct on_conflict.
  - unfold mbind, M_bind. simpl.
    by destruct (_write_atomic _ md_text (after_convert w file_path)) as [[[]|e] w2].
  - change (w_fs (after_convert w file_path)) with (w_fs w).
    destruct (exists_ (w_fs w) out_path); [done|].
    unfold mbind, M_bind.
    by destruct (_write_atomic out_path md_text (after_convert w file_path)) as [[[]|e] w2].
Qed.

Lemma loop_cons t file_path files w :
  loop' t (file_path :: files) w =
  match process_file' t file_path w with
  | (Ok (t', Continue), w') => loop' t' files w'
  | (Ok (t', Break), w') => (Ok t', w')
  | (Raise e, w') => (Raise e, w')
  end.
Proof.
  simpl. unfold mbind at 1, M_bind at 1.
  by destruct (process_file' t file_path w) as [[[t' []]|e] w'].
Qed.
Lemma process_file_preserves (R : world → world → Prop) `{!PreOrder R} :
  (∀ w f, R w (after_convert w f)) →
  (∀ p d, preserves R (_write_atomic p d)) →
  ∀ t file_path, preserves R (process_file' t file_path).
Proof.
  intros Hc Hw t file_path w r w' H. rewrite process_file_eq in H.
  destruct (filtered _ _ _); [by injection H as <- <-|].
  destruct (_derive_output_path _ _ _) as [out_path|e]; [|by injection H as <- <-].
  cbv zeta in H.
  destruct (convert_local file_path) as [md_text|e]; [|by injection H as <- <-].
  destruct (match on_conflict with skip => _ | rename => _ end);
    [by injection H as <- <-|].
  destruct (_write_atomic _ md_text _) as [[[]|e] w2] eqn:Ew;
    injection H as <- <-; (etrans; [apply Hc|by eapply Hw]).
Qed.

Lemma loop_preserves (R : world → world → Prop) `{!PreOrder R} :
  (∀ w f, R w (after_convert w f)) →
  (∀ p d, preserves R (_write_atomic p d)) →
  ∀ files t, preserves R (loop' t files).
Proof.
  intros Hc Hw. induction files as [|file_path files IH]; intros t w r w' H.
  - simpl in H. munfold. by injection H as <- <-.
  - rewrite loop_cons in H.
    destruct (process_file' t file_path w) as [[[t' []]|e] w1] eqn:Ep;
      apply (process_file_preserves R) in Ep; try done.
    + etrans; [apply Ep|by eapply IH].
    + by injection H as <- <-.
    + by injection H as <- <-.
Qed.

Lemma process_file_recorded t file_path w t' c w' :
  process_file' t file_path w = (Ok (t', c), w') →
  recorded convert_local t t' file_path.
Proof.
  intros H. rewrite process_file_eq in H. unfold recorded, on_failure in *.
  destruct (filtered _ _ _); [injection H as <- <- <-; eauto|].
  destruct (_derive_output_path _ _ _) as [out_path|e]; [|done].
  cbv zeta in H.
  destruct (convert_local file_path) as [md_text|e] eqn:Ec;
    [|injection H as <- <- <-; eauto].
  destruct (match on_conflict with skip => _ | rename => _ end);
    [injection H as <- <- <-; eauto|].
  destruct (_write_atomic _ md_text _) as [[[]|e] w2];
    injection H as <- <- <-; eauto 10.
Qed.

(** The outcomes the loop appends follow the candidates in order, one
    per candidate it reaches. *)
Lemma loop_results : ∀ files t w t' w',
  loop' t files w = (Ok t', w') →
  (tally_consistent t → tally_consistent t')
  ∧ ∃ new, results t' = results t ++ new
           ∧ fr_src <$> new `prefix_of` files
           ∧ Forall (counts_from convert_local) new.
Proof.
  induction files as [|file_path files IH]; intros t w t' w' H.
  - simpl in H. munfold. injection H as <- <-. split; [done|].
    exists []. by rewrite app_nil_r.
  - rewrite loop_cons in H.
    destruct (process_file' t file_path w) as [[[t1 []]|e] w1] eqn:Ep; [| |done];
      apply process_file_recorded in Ep;
      pose proof (recorded_consistent _ _ _ _ Ep) as Hcons;
      apply recorded_results in Ep as (o & Hres & Hsrc & Hcnt).
    + apply IH in H as (Hc & new & Hnew & Hpre & Hall). split; [auto|].
      exists (o :: new). rewrite Hnew, Hres, <- app_assoc. split_and!; [done| |by constructor].
      rewrite fmap_cons, Hsrc. by apply prefix_cons.
    + injection H as <- <-. split; [done|]. exists [o]. split_and!; [done| |by constructor].
      rewrite fmap_cons, Hsrc. apply prefix_cons, prefix_nil.
Qed.

Lemma process_file_Break t file_path w t' w' :
  process_file' t file_path w = (Ok (t', Break), w') → continue_on_error = false.
Proof.
  intros H. rewrite process_file_eq in H. unfold on_failure in H.
  destruct (filtered _ _ _); [done|].
  destruct (_derive_output_path _ _ _) as [out_path|e]; [|done].
  cbv zeta in H. destruct continue_on_error; [|done].
  destruct (convert_local file_path) as [md_text|e]; [|done].
  destruct (match on_conflict with skip => _ | rename => _ end); [done|].
  by destruct (_write_atomic _ md_text _) as [[[]|e] w2].
Qed.

(** With [continue_on_error] the loop reaches every candidate. *)
Lemma loop_results_all : ∀ files t w t' w',
  continue_on_error = true →
  loop' t files w = (Ok t', w') →
  ∃ new, results t' = results t ++ new ∧ fr_src <$> new = files.
Proof.
  induction files as [|file_path files IH]; intros t w t' w' Hc H.
  - simpl in H. munfold. injection H as <- <-. exists []. by rewrite app_nil_r.
  - rewrite loop_cons in H.
    destruct (process_file' t file_path w) as [[[t1 []]|e] w1] eqn:Ep; [| |done].
    + apply process_file_recorded, recorded_results in Ep as (o & Hres & Hsrc & _).
      apply IH in H as (new & Hnew & Hpre); [|done].
      exists (o :: new). rewrite Hnew, Hres, <- app_assoc. split; [done|].
      by rewrite fmap_cons, Hsrc, Hpre.
    + apply process_file_Break in Ep. congruence.
Qed.

(** C1, as the code has it: under the skip policy, on a candidate that
    passes the filters and whose derived destination exists when its
    turn comes, the converter is called first; the file system is left
    as it is and the log gains that one call; the outcome is skipped with
    reason "exists" when the converter returns, and failed with the
    error's description when it raises. *)
Theorem skip_existing_after_convert t file_path w out_path :
  on_conflict = skip →
  filtered include_ext exclude_ext file_path = false →
  _derive_output_path file_path src_root dest_root = Ok out_path →
  exists_ (w_fs w) out_path = true →
  w_fs (process_file' t file_path w).2 = w_fs w
  ∧ w_log (process_file' t file_path w).2 = w_log w ++ [EvConvert file_path]
  ∧ (∀ md_text, convert_local file_path = Ok md_text →
       (process_file' t file_path w).1 = Ok (record_skipped t file_path "exists", Continue))
  ∧ (∀ e, convert_local file_path = Raise e →
       (process_file' t file_path w).1
       = Ok (record_failed t file_path (str e),
             if continue_on_error then Continue else Break)).
Proof.
  intros Hpol Hf Hout Hex. rewrite process_file_eq, Hf, Hout, Hpol. cbv zeta.
  change (w_fs (after_convert w file_path)) with (w_fs w). rewrite Hex.
  destruct (convert_local file_path) as [md_text|e]; simpl;
    split_and!; try done; by intros ? [= <-].
Qed.

#[local] Abbreviation run_through' :=
  (run_through convert_local src_root dest_root include_ext exclude_ext
     on_conflict continue_on_error).



End Loop.

Section Run.
Variable convert_local : Path → result string.
Variable _make_report : BulkResult → string.

Lemma gate_eq stats th confirm w :
  gate stats th confirm w =
  if exceeded stats th then
    match confirm with
    | Some f =>
        if f stats th then (Ok (), after_confirm w stats th)
        else (Raise (PreflightExceeded stats th), after_confirm w stats th)
    | None => (Raise (PreflightExceeded stats th), w)
    end
  else (Ok (), w).
Proof.
  unfold gate. destruct (exceeded stats th); [|done].
  destruct confirm as [f|]; [|done]. munfold. simpl.
  fold (after_confirm w stats th). by destruct (f stats th).
Qed.

(** [bulk_convert], stage by stage. *)
Lemma bulk_convert_eq src root dest include_ext exclude_ext on_conflict
    continue_on_error thresholds confirm skip_hidden w :
  bulk_convert convert_local _make_report src root dest include_ext exclude_ext
    on_conflict continue_on_error thresholds confirm skip_hidden w =
  match src with
  | Some (NDir es) =>
      let tree := NDir es in
      let dest_root := default (_md_sibling_dest root) dest in
      let th := default default_thresholds thresholds in
      let stats := _preflight root tree skip_hidden in
      match mkdir dest_root w with
      | (Raise e, w1) => (Raise e, w1)
      | (Ok _, w1) =>
          match gate stats th confirm (after_preflight w1 root) with
          | (Raise e, w2) => (Raise e, w2)
          | (Ok _, w2) =>
              match loop convert_local root dest_root (normalize_ext include_ext)
                      (normalize_ext exclude_ext) on_conflict continue_on_error
                      tally0 (_iter_files root tree skip_hidden) w2 with
              | (Raise e, w3) => (Raise e, w3)
              | (Ok t, w3) =>
                  let bulk := bulk_of root dest_root t in
                  match _write_atomic (dest_root // "process_report.md")
                          (_make_report bulk) w3 with
                  | (Raise e, w4) => (Raise e, w4)
                  | (Ok _, w4) => (Ok bulk, w4)
                  end
              end
          end
      end
  | _ =>
      (Raise (NotADirectoryError
                ("Root path does not exist or is not a directory: " +:+ fspath root)), w)
  end.
Proof.
  unfold bulk_convert. destruct src as [[sz|es]|]; [done| |done].
  cbv zeta. unfold mbind at 1, M_bind at 1.
  destruct (mkdir _ w) as [[[]|e] w1]; [|done].
  unfold mbind at 1, M_bind at 1, emit at 1. simpl.
  fold (after_preflight w1 root).
  unfold mbind at 1, M_bind at 1.
  destruct (gate _ _ confirm (after_preflight w1 root)) as [[[]|e] w2]; [|done].
  unfold mbind at 1, M_bind at 1.
  destruct (loop _ _ _ _ _ _ _ tally0 _ w2) as [[t|e] w3]; [|done].
  unfold mbind at 1, M_bind at 1. fold (bulk_of root (default (_md_sibling_dest root) dest) t).
  by destruct (_write_atomic _ _ w3) as [[[]|e] w4].
Qed.
(** A run that returns went through every stage. *)
Lemma bulk_convert_Ok src root dest include_ext exclude_ext on_conflict
    continue_on_error thresholds confirm skip_hidden w r w' :
  bulk_convert convert_local _make_report src root dest include_ext exclude_ext
    on_conflict continue_on_error thresholds confirm skip_hidden w = (Ok r, w') →
  ∃ es w1 w2 t w3,
    let dest_root := default (_md_sibling_dest root) dest in
    src = Some (NDir es)
    ∧ mkdir dest_root w = (Ok (), w1)
    ∧ gate (_preflight root (NDir es) skip_hidden) (default default_thresholds thresholds)
        confirm (after_preflight w1 root) = (Ok (), w2)
    ∧ loop convert_local root dest_root (normalize_ext include_ext)
        (normalize_ext exclude_ext) on_conflict continue_on_error
        tally0 (_iter_files root (NDir es) skip_hidden) w2 = (Ok t, w3)
    ∧ r = bulk_of root dest_root t
    ∧ _write_atomic (dest_root // "process_report.md") (_make_report r) w3 = (Ok (), w').
Proof.
  rewrite bulk_convert_eq. destruct src as [[sz|es]|]; [done| |done]. cbv zeta.
  destruct (mkdir _ w) as [[[]|e] w1] eqn:E1; [|done].
  destruct (gate _ _ confirm _) as [[[]|e] w2] eqn:E2; [|done].
  destruct (loop _ _ _ _ _ _ _ tally0 _ w2) as [[t|e] w3] eqn:E3; [|done].
  destruct (_write_atomic _ _ w3) as [[[]|e] w4] eqn:E4; [|done].
  intros H; injection H as <- <-. by exists es, w1, w2, t, w3.
Qed.

(** The outcomes of a run that returns belong, in order, to an initial
    part of the candidates. *)
Lemma bulk_convert_sources es root dest include_ext exclude_ext on_conflict
    continue_on_error thresholds confirm skip_hidden w r :
  (bulk_convert convert_local _make_report (Some (NDir es)) root dest include_ext
     exclude_ext on_conflict continue_on_error thresholds confirm skip_hidden w).1
  = Ok r →
  fr_src <$> br_files r `prefix_of` _iter_files root (NDir es) skip_hidden.
Proof.
  destruct (bulk_convert _ _ _ _ _ _ _ _ _ _ _ _ w) as [r0 w'] eqn:E. simpl.
  intros ->. apply bulk_convert_Ok in E as (es' & w1 & w2 & t & w3 & E).
  cbv zeta in E. destruct E as (Hes & _ & _ & Hloop & -> & _).
  injection Hes as <-. simpl.
  pose proof (loop_results _ _ _ _ _ _ _ _ _ _ _ _ Hloop) as (_ & new & Hnew & Hpre & _).
  simpl in Hnew. by rewrite Hnew.
Qed.

(** C3: in the result of a run that returns, the three counters are the
    numbers of outcomes of each status, so they add up to the number of
    outcomes, and the totals are the sums of the word and heading counts
    of the converted outcomes.  The outcomes follow the candidates in
    order, one for each candidate when [continue_on_error] holds. *)
Theorem bulk_result_counts es root dest include_ext exclude_ext on_conflict
    continue_on_error thresholds confirm skip_hidden w r :
  (bulk_convert convert_local _make_report (Some (NDir es)) root dest include_ext
     exclude_ext on_conflict continue_on_error thresholds confirm skip_hidden w).1
  = Ok r →
  br_converted r + br_skipped r + br_failed r = Z.of_nat (length (br_files r))
  ∧ br_converted r = count_status converted (br_files r)
  ∧ br_skipped r = count_status skipped (br_files r)
  ∧ br_failed r = count_status failed (br_files r)
  ∧ br_total_words r = sum_words (br_files r)
  ∧ br_total_headings r = sum_headings (br_files r)
  ∧ fr_src <$> br_files r `prefix_of` _iter_files root (NDir es) skip_hidden
  ∧ (continue_on_error = true →
     fr_src <$> br_files r = _iter_files root (NDir es) skip_hidden).
Proof.
  destruct (bulk_convert _ _ _ _ _ _ _ _ _ _ _ _ w) as [r0 w'] eqn:E. simpl.
  intros ->. apply bulk_convert_Ok in E as (es' & w1 & w2 & t & w3 & E).
  cbv zeta in E. destruct E as (Hes & _ & _ & Hloop & -> & _).
  injection Hes as <-. simpl.
  pose proof (loop_results _ _ _ _ _ _ _ _ _ _ _ _ Hloop) as (Hc & new & Hnew & Hpre & _).
  simpl in Hnew. destruct (Hc tally_consistent_0) as (H1 & H2 & H3 & H4 & H5).
  rewrite H1, H2, H3. split_and!; try done.
  - apply count_status_total.
  - by rewrite Hnew.
  - intros Hcoe. subst continue_on_error.
    apply loop_results_all in Hloop as (new' & Hnew' & Hall); [|done].
    simpl in Hnew'. by rewrite Hnew'.
Qed.
End Run.

Lemma bulk_result_counts_witness :
  br_converted demo_result + br_skipped demo_result + br_failed demo_result
  = Z.of_nat (length (br_files demo_result))
  ∧ br_total_words demo_result = sum_words (br_files demo_result)
  ∧ fr_src <$> br_files demo_result = _iter_files demo_src demo_tree true.
Proof.
  assert ((demo_run rename true ∅).1 = Ok demo_result) as Hrun
    by (vm_compute; reflexivity).
  pose proof (bulk_result_counts demo_convert demo_report demo_entries demo_src
                (Some demo_dest) None None rename true None None true (start ∅)
                demo_result Hrun) as (H1 & _ & _ & _ & H5 & _ & _ & H8).
  split; [exact H1|]. split; [exact H5|]. apply H8. reflexivity.
Defined.


Lemma skip_existing_after_convert_witness :
  (process_file demo_convert demo_src demo_dest None None skip true tally0 demo_f1
     (start fs_existing)).1
  = Ok (record_skipped tally0 demo_f1 "exists", Continue)
  ∧ w_log (process_file demo_convert demo_src demo_dest None None skip true tally0 demo_f1
             (start fs_existing)).2
    = [EvConvert demo_f1].
Proof.
  pose proof (skip_existing_after_convert demo_convert demo_src demo_dest None None skip
                true tally0 demo_f1 (start fs_existing) (demo_dest ++ ["a"; "f1.md"])
                eq_refl eq_refl eq_refl eq_refl) as (_ & H2 & H3 & _).
  split; [|exact H2]. apply (H3 ("#f1.txt converted")). reflexivity.
Defined.

(** C1 as stated fails: in a run under the skip policy where the
    destinations of [a/f1.txt] and [a/f2.pdf] exist, the converter is
    called on both files; the first is then recorded as skipped, and the
    second, on which the converter raises, is recorded as failed. *)
Lemma converter_called_before_skip_check :
  exists_ fs_existing (demo_dest ++ ["a"; "f1.md"]) = true
  ∧ exists_ fs_existing (demo_dest ++ ["a"; "f2.md"]) = true
  ∧ (∃ r, (demo_run skip true fs_existing).1 = Ok r
          ∧ (λ o, (fr_src o, fr_status o, fr_reason o)) <$> br_files r
            = [(demo_src ++ ["a"; "f1.txt"], skipped, Some "exists");
               (demo_src ++ ["a"; "f2.pdf"], failed, Some "cannot convert");
               (demo_src ++ ["b"; "g.docx"], converted, None)])
  ∧ EvConvert (demo_src ++ ["a"; "f1.txt"]) ∈ w_log (demo_run skip true fs_existing).2
  ∧ EvConvert (demo_src ++ ["a"; "f2.pdf"]) ∈ w_log (demo_run skip true fs_existing).2.
Proof.
  split; [reflexivity|]. split; [reflexivity|]. split.
  - eexists. split; vm_compute; reflexivity.
  - split; apply (bool_decide_unpack _); vm_compute; exact I.
Qed.

(** ** The whole run *)

Lemma mkdir_parents_raises target : ∀ todo done_ w e w',
  mkdir_parents target done_ todo w = (Raise e, w') → is_preflight_exceeded e = false.
Proof.
  induction todo as [|c todo IH]; intros done_ w e w' H; simpl in H; [done|].
  munfold. destruct (w_fs w !! (done_ // c)) as [[d|]|].
  - injection H as <- <-. by destruct todo.
  - by eapply IH.
  - by eapply IH.
Qed.

Lemma _write_atomic_raises dest_path data w e w' :
  _write_atomic dest_path data w = (Raise e, w') → is_preflight_exceeded e = false.
Proof.
  rewrite _write_atomic_eq.
  destruct (mkdir (PurePath.parent dest_path) w) as [[[]|e1] w1] eqn:Emk.
  - cbv zeta. case_decide; [by intros [= <- <-]|].
    destruct (is_dir (w_fs w1) (tmp_of dest_path)); [by intros [= <- <-]|].
    destruct (is_dir (w_fs w1) dest_path); [by intros [= <- <-]|done].
  - intros [= <- <-]. by eapply mkdir_parents_raises.
Qed.

Lemma _derive_output_path_raises src root dest_root e :
  _derive_output_path src root dest_root = Raise e → is_preflight_exceeded e = false.
Proof.
  unfold _derive_output_path, with_suffix.
  destruct (PurePath.relative_to src root); [|by intros [= <-]].
  destruct (PurePath.with_suffix _ _); [done|by intros [= <-]].
Qed.

Section RunProperties.
Variable convert_local : Path → result string.
Variable _make_report : BulkResult → string.

Lemma loop_raises root dest_root inc exc pol coe : ∀ files t w e w',
  loop convert_local root dest_root inc exc pol coe t files w = (Raise e, w') →
  is_preflight_exceeded e = false.
Proof.
  induction files as [|f files IH]; intros t w e w' H; [done|].
  rewrite loop_cons in H.
  destruct (process_file _ _ _ _ _ _ _ t f w) as [[[t1 []]|e1] w1] eqn:Ep; [|done|].
  - by eapply IH.
  - injection H as <- <-. rewrite process_file_eq in Ep.
    destruct (filtered _ _ _); [done|].
    destruct (_derive_output_path _ _ _) as [out|e2] eqn:Ed.
    + cbv zeta in Ep. destruct (convert_local f); [|done].
      destruct (match pol with skip => _ | rename => _ end); [done|].
      by destruct (_write_atomic _ _ _) as [[[]|?] ?].
    + injection Ep as <- <-. by eapply _derive_output_path_raises.
Qed.

(** From the gate on, a run keeps every relation that the converter
    call and the writes keep. *)
Lemma finish_preserves (R : world → world → Prop) `{!PreOrder R}
    root dest_root inc exc pol coe files w r w' :
  (∀ w f, R w (after_convert w f)) →
  (∀ p d, preserves R (_write_atomic p d)) →
  finish convert_local _make_report root dest_root inc exc pol coe files w = (r, w') →
  R w w'.
Proof.
  intros Hc Hw. unfold finish.
  destruct (loop _ _ _ _ _ _ _ tally0 files w) as [[t|e] w3] eqn:El;
    apply (loop_preserves _ _ _ _ _ _ _ R Hc Hw) in El; [|by intros [= <- <-]].
  destruct (_write_atomic _ _ w3) as [[[]|e] w4] eqn:Ew; apply Hw in Ew;
    intros [= <- <-]; by etrans.
Qed.

Lemma finish_raises root dest_root inc exc pol coe files w e w' :
  finish convert_local _make_report root dest_root inc exc pol coe files w
  = (Raise e, w') →
  is_preflight_exceeded e = false.
Proof.
  unfold finish.
  destruct (loop _ _ _ _ _ _ _ tally0 files w) as [[t|e1] w3] eqn:El.
  - destruct (_write_atomic _ _ w3) as [[[]|e2] w4] eqn:Ew; [done|].
    intros [= <- <-]. by apply _write_atomic_raises in Ew.
  - intros [= <- <-]. by apply loop_raises in El.
Qed.

Lemma finish_log root dest_root inc exc pol coe files w :
  log_extends after_gate_event w
    (finish convert_local _make_report root dest_root inc exc pol coe files w).2.
Proof.
  destruct (finish _ _ _ _ _ _ _ _ files w) as [r w'] eqn:E. simpl.
  eapply (finish_preserves (log_extends after_gate_event)); [| |apply E].
  - intros w0 f. exists [EvConvert f]. split_and!; [done..|]. by repeat constructor.
  - apply _write_atomic_after_gate.
Qed.

Lemma finish_keeps_dirs root dest_root inc exc pol coe files w :
  keeps_dirs w
    (finish convert_local _make_report root dest_root inc exc pol coe files w).2.
Proof.
  destruct (finish _ _ _ _ _ _ _ _ files w) as [r w'] eqn:E. simpl.
  eapply (finish_preserves keeps_dirs); [| |apply E].
  - by intros w0 f q.
  - apply _write_atomic_keeps_dirs.
Qed.

Lemma gate_after_preflight stats th confirm w root :
  gate stats th confirm (after_preflight w root)
  = (if gate_passes stats th confirm then Ok () else Raise (PreflightExceeded stats th),
     after_gate w root stats th confirm).
Proof.
  rewrite gate_eq. unfold gate_passes, after_gate, gate_events, after_confirm,
    after_preflight.
  destruct (exceeded stats th); simpl; [|done].
  destruct confirm as [f|]; simpl; [|done].
  destruct (f stats th); simpl; by rewrite <- app_assoc.
Qed.

(** [bulk_convert] on a root that is a directory: the destination, the
    gate, and the rest. *)
Lemma bulk_convert_stages es root dest include_ext exclude_ext on_conflict
    continue_on_error thresholds confirm skip_hidden w :
  bulk_convert convert_local _make_report (Some (NDir es)) root dest include_ext
    exclude_ext on_conflict continue_on_error thresholds confirm skip_hidden w =
  let stats := _preflight root (NDir es) skip_hidden in
  let th := thresholds_of thresholds in
  match mkdir (dest_root_of root dest) w with
  | (Raise e, w1) => (Raise e, w1)
  | (Ok _, w1) =>
      if gate_passes stats th confirm
      then finish convert_local _make_report root (dest_root_of root dest)
             (normalize_ext include_ext) (normalize_ext exclude_ext) on_conflict
             continue_on_error (_iter_files root (NDir es) skip_hidden)
             (after_gate w1 root stats th confirm)
      else (Raise (PreflightExceeded stats th), after_gate w1 root stats th confirm)
  end.
Proof.
  rewrite bulk_convert_eq. cbv zeta.
  fold (dest_root_of root dest) (thresholds_of thresholds).
  destruct (mkdir (dest_root_of root dest) w) as [[[]|e] w1]; [|done].
  rewrite gate_after_preflight. by destruct (gate_passes _ _ confirm).
Qed.

Lemma exceeded_true stats th :
  exceeded stats th = true ↔
  ps_dirs stats > max_dirs th ∨ ps_files stats > max_files th
  ∨ ps_bytes stats > max_bytes th.
Proof.
  unfold exceeded. rewrite !orb_true_iff, !bool_decide_eq_true. tauto.
Qed.

Lemma gate_refuses_passes stats th confirm :
  gate_refuses stats th confirm ↔ gate_passes stats th confirm = false.
Proof.
  unfold gate_refuses, gate_passes. rewrite <- exceeded_true.
  destruct (exceeded stats th); simpl.
  - destruct confirm as [f|]; simpl.
    + split; [intros (_ & [?|(f' & [= <-] & ?)]); done|].
      intros Hf. split; [done|]. right. by exists f.
    + split; [done|]. intros _. split; [done|]. by left.
  - split; [by intros [? _]|done].
Qed.

Lemma is_dir_keeps w w' p :
  keeps_dirs w w' → is_dir (w_fs w) p = true → is_dir (w_fs w') p = true.
Proof.
  unfold is_dir. destruct p as [|c p]; [done|]. intros Hk.
  destruct (w_fs w !! (c :: p)) as [[d|]|] eqn:E; [done| |done].
  by rewrite (Hk _ E).
Qed.

(** C2: once the root is a directory and the destination has been
    made, [bulk_convert] raises [PreflightExceeded] exactly when a
    threshold is exceeded and there is no callback or the callback
    answers no.  The exception carries the statistics and the
    thresholds, and its message shows both.  The log of every such run is
    the directories made for the destination, one preflight scan, at
    most one call of the callback, and then events that are neither: the
    gate is passed once, before any file is converted or written, and
    when it refuses nothing follows. *)
Theorem preflight_gate_once es root dest include_ext exclude_ext on_conflict
    continue_on_error thresholds confirm skip_hidden fs :
  let stats := _preflight root (NDir es) skip_hidden in
  let th := thresholds_of thresholds in
  let run := bulk_convert convert_local _make_report (Some (NDir es)) root dest
               include_ext exclude_ext on_conflict continue_on_error thresholds
               confirm skip_hidden (start fs) in
  (mkdir (dest_root_of root dest) (start fs)).1 = Ok () →
  ((∃ s t, run.1 = Raise (PreflightExceeded s t)) ↔ gate_refuses stats th confirm)
  ∧ (gate_refuses stats th confirm →
     run.1 = Raise (PreflightExceeded stats th)
     ∧ str (PreflightExceeded stats th)
       = "Preflight limits exceeded: dirs=" +:+ pretty (ps_dirs stats) +:+ "/"
         +:+ pretty (max_dirs th) +:+ ", files=" +:+ pretty (ps_files stats) +:+ "/"
         +:+ pretty (max_files th) +:+ ", bytes=" +:+ pretty (ps_bytes stats) +:+ "/"
         +:+ pretty (max_bytes th))
  ∧ ∃ mk rest,
      w_log run.2 = mk ++ EvPreflight root :: gate_events stats th confirm ++ rest
      ∧ Forall (λ ev, is_mkdir ev) mk
      ∧ Forall (λ ev, is_gate ev = false) rest
      ∧ (gate_refuses stats th confirm → rest = []).
Proof.
  intros stats th run Hmk. unfold run. clear run.
  rewrite bulk_convert_stages. cbv zeta. fold stats th.
  destruct (mkdir (dest_root_of root dest) (start fs)) as [[[]|e0] w1] eqn:Emk; [|done].
  apply mkdir_parents_log in Emk as (mk & Lmk & _ & Pmk). simpl in Lmk.
  assert (Forall (λ ev, is_mkdir ev) mk) as Hmk'.
  { eapply Forall_impl; [apply Pmk|]. by intros ev (q & -> & _). }
  rewrite (gate_refuses_passes stats th confirm).
  destruct (gate_passes stats th confirm) eqn:Eg.
  - destruct (finish _ _ _ _ _ _ _ _ _ (after_gate w1 root stats th confirm))
      as [r w'] eqn:Ef. simpl.
    pose proof (finish_log root (dest_root_of root dest) (normalize_ext include_ext)
                  (normalize_ext exclude_ext) on_conflict continue_on_error
                  (_iter_files root (NDir es) skip_hidden)
                  (after_gate w1 root stats th confirm)) as (rest & Hlog & _ & Hrest).
    rewrite Ef in Hlog. simpl in Hlog.
    split_and!; [|done|].
    + split; [|done]. intros (s & t & ->). by apply finish_raises in Ef.
    + exists mk, rest. rewrite Hlog, Lmk, <- app_assoc. simpl.
      split_and!; [done|done| |].
      * eapply Forall_impl; [apply Hrest|]. by intros ev [? _].
      * intros Hg. apply gate_refuses_passes in Hg. congruence.
  - simpl. split_and!; [split; eauto|done|].
    exists mk, []. rewrite Lmk, app_nil_r. by split_and!.
Qed.

(** C10, as the code has it: [bulk_convert] makes the destination root,
    with the directories above it that are missing, before the preflight
    and the gate.  When that succeeds, the preflight comes next in the
    log, and the destination root and what is above it are directories at
    the end of the call, however the call ends; this is the case of every
    call that returns and of every call that raises [PreflightExceeded],
    and in the latter nothing but the destination directories has been
    created and no file has been converted or written.  When making the
    destination raises, the call ends with that exception and goes no
    further.  On a disk where a regular file sits at the destination path
    or above it this is what happens: the call raises FileExistsError for
    a file at the path itself and NotADirectoryError for a file above it,
    nothing is changed, and there is no destination directory
    afterwards. *)
Theorem dest_root_made_before_gate es root dest include_ext exclude_ext on_conflict
    continue_on_error thresholds confirm skip_hidden fs :
  let dest_root := dest_root_of root dest in
  let made := mkdir dest_root (start fs) in
  let run := bulk_convert convert_local _make_report (Some (NDir es)) root dest
               include_ext exclude_ext on_conflict continue_on_error thresholds
               confirm skip_hidden (start fs) in
  (made.1 = Ok () → is_dir (w_fs run.2) dest_root = true)
  ∧ ((∃ r, run.1 = Ok r) ∨ (∃ s t, run.1 = Raise (PreflightExceeded s t)) →
     made.1 = Ok ())
  ∧ (∀ s t, run.1 = Raise (PreflightExceeded s t) →
     w_fs run.2 = w_fs made.2
     ∧ Forall (λ ev, is_work ev = false) (w_log run.2))
  ∧ (∀ e, made.1 = Raise e → run = (Raise e, made.2))
  ∧ (Forall (λ ev, is_mkdir ev) (w_log made.2) ∧ w_fs made.2 = replay fs (w_log made.2))
  ∧ (made.1 = Ok () →
     (∃ rest, w_log run.2 = w_log made.2 ++ EvPreflight root :: rest)
     ∧ ∀ q, q ∈ ancestors_and_self dest_root →
         w_fs made.2 !! q = Some Dir ∧ w_fs run.2 !! q = Some Dir)
  ∧ (fs_wf fs → ∀ q d, q ∈ ancestors_and_self dest_root → fs !! q = Some (File d) →
     run = (Raise (mkdir_error dest_root q), start fs)
     ∧ is_dir (w_fs run.2) dest_root = false).
Proof.
  intros dest_root made run. unfold run, made. clear run made.
  rewrite bulk_convert_stages. cbv zeta. fold dest_root.
  destruct (mkdir dest_root (start fs)) as [[[]|e0] w1] eqn:Emk; simpl.
  2:{ pose proof (mkdir_parents_raises _ _ _ _ _ _ Emk) as Hne.
      pose proof (mkdir_parents_log _ _ _ _ _ _ Emk) as (mk & Lmk & Hfs & Pmk).
      simpl in Lmk, Hfs. split_and!; try done.
      - intros [[r [=]]|(s & t & [= ->])]. done.
      - by intros s t [= ->].
      - by intros e [= <-].
      - rewrite Lmk. eapply Forall_impl; [apply Pmk|]. by intros ev (q & -> & _).
      - by rewrite Lmk.
      - intros Hwf q d Hq Hf.
        destruct (mkdir_blocked dest_root fs q d Hwf Hq Hf) as [Hb Hnd].
        rewrite Emk in Hb. by injection Hb as -> ->. }
  pose proof (mkdir_is_dir _ _ _ Emk) as Hdir.
  pose proof (mkdir_Ok _ _ _ Emk) as Hdirs.
  pose proof (mkdir_parents_log _ _ _ _ _ _ Emk) as (mk & Lmk & Hfs & Pmk).
  simpl in Lmk, Hfs.
  assert (Forall (λ ev, is_mkdir ev) mk) as Hmk.
  { eapply Forall_impl; [apply Pmk|]. by intros ev (q & -> & _). }
  set (stats := _preflight root (NDir es) skip_hidden).
  set (th := thresholds_of thresholds).
  destruct (gate_passes stats th confirm).
  - destruct (finish _ _ _ _ _ _ _ _ _ (after_gate w1 root stats th confirm))
      as [r w'] eqn:Ef. simpl.
    pose proof (finish_keeps_dirs root dest_root (normalize_ext include_ext)
                  (normalize_ext exclude_ext) on_conflict continue_on_error
                  (_iter_files root (NDir es) skip_hidden)
                  (after_gate w1 root stats th confirm)) as Hk.
    pose proof (finish_log root dest_root (normalize_ext include_ext)
                  (normalize_ext exclude_ext) on_conflict continue_on_error
                  (_iter_files root (NDir es) skip_hidden)
                  (after_gate w1 root stats th confirm)) as (rest & Hlog & _).
    rewrite Ef in Hk, Hlog. simpl in Hk, Hlog.
    split_and!; [|done| |done|by rewrite Lmk|by rewrite Lmk| |].
    + intros _. by eapply (is_dir_keeps (after_gate w1 root stats th confirm)).
    + intros s t ->. by apply finish_raises in Ef.
    + intros _. split.
      * eexists. rewrite Hlog, <- app_assoc. done.
      * intros q Hq. split; [by apply Hdirs|]. by apply Hk, Hdirs.
    + intros Hwf q d Hq Hf.
      destruct (mkdir_blocked dest_root fs q d Hwf Hq Hf) as [Hb _]. congruence.
  - simpl. split_and!; try done.
    + intros s t _. split; [done|].
      rewrite Lmk. apply Forall_app. split.
      * eapply Forall_impl; [apply Pmk|]. by intros ev (q & -> & _).
      * constructor; [done|]. unfold gate_events.
        destruct (exceeded stats th); [|done]. destruct confirm; by repeat constructor.
    + by rewrite Lmk.
    + by rewrite Lmk.
    + intros _. split; [by eexists|]. intros q Hq. split; by apply Hdirs.
    + intros Hwf q d Hq Hf.
      destruct (mkdir_blocked dest_root fs q d Hwf Hq Hf) as [Hb _]. congruence.
Qed.
End RunProperties.

Lemma preflight_gate_once_witness :
  (bulk_convert demo_convert demo_report (Some demo_tree) demo_src (Some demo_dest)
     None None rename true (Some demo_thresholds) None true (start ∅)).1
  = Raise (PreflightExceeded (mkPreflightStats demo_src 3 3 13) demo_thresholds)
  ∧ str (PreflightExceeded (mkPreflightStats demo_src 3 3 13) demo_thresholds)
    = "Preflight limits exceeded: dirs=3/1, files=3/2, bytes=13/10".
Proof.
  pose proof (preflight_gate_once demo_convert demo_report demo_entries demo_src
                (Some demo_dest) None None rename true (Some demo_thresholds) None true ∅
                eq_refl) as (_ & H & _).
  destruct H as [H1 H2].
  - split; [left; reflexivity|left; reflexivity].
  - split; [|vm_compute; reflexivity].
    etrans; [exact H1|]. vm_compute. reflexivity.
Defined.

(** The gate of the test suite: the callback is called once, and the run
    proceeds when it answers yes. *)
Example preflight_gate_confirmed :
  ∃ r w, bulk_convert demo_convert demo_report (Some demo_tree) demo_src (Some demo_dest)
           None None rename true (Some demo_thresholds) (Some (λ _ _, true)) true (start ∅)
         = (Ok r, w)
         ∧ br_converted r = 2
         ∧ filter (λ ev, is_gate ev) (w_log w)
           = [EvPreflight demo_src;
              EvConfirm (mkPreflightStats demo_src 3 3 13) demo_thresholds].
Proof. eexists _, _. split; [vm_compute; reflexivity|]. split; reflexivity. Qed.

Lemma dest_root_made_before_gate_witness :
  is_dir (w_fs (bulk_convert demo_convert demo_report (Some demo_tree) demo_src
                  (Some demo_dest) None None rename true (Some demo_thresholds) None true
                  (start ∅)).2) demo_dest
  = true
  ∧ demo_run rename true fs_dest_is_file
    = (Raise (FileExistsError "[Errno 17] File exists: '/tmp/out'"), start fs_dest_is_file).
Proof.
  split.
  - pose proof (dest_root_made_before_gate demo_convert demo_report demo_entries demo_src
                  (Some demo_dest) None None rename true (Some demo_thresholds) None true ∅)
      as (H & _).
    apply H. reflexivity.
  - pose proof (dest_root_made_before_gate demo_convert demo_report demo_entries demo_src
                  (Some demo_dest) None None rename true None None true fs_dest_is_file)
      as (_ & _ & _ & _ & _ & _ & H).
    destruct (H ltac:(apply (bool_decide_unpack _); vm_compute; exact I)
                demo_dest "not a directory"
                ltac:(apply (bool_decide_unpack _); vm_compute; exact I) eq_refl)
      as [Hrun _].
    exact Hrun.
Defined.

(** C10 as stated fails: the root is a directory, but the destination
    path is a regular file; making the destination raises, and after the
    call there is no destination directory. *)
Lemma dest_root_not_made_when_file_in_the_way :
  (demo_run rename true fs_dest_is_file).1
  = Raise (FileExistsError "[Errno 17] File exists: '/tmp/out'")
  ∧ is_dir (w_fs (demo_run rename true fs_dest_is_file).2) demo_dest = false
  ∧ w_fs (demo_run rename true fs_dest_is_file).2 = fs_dest_is_file.
Proof. split; [|split]; vm_compute; reflexivity. Qed.

(** ** Words and headings *)

Lemma no_space_app a b : no_space (a +:+ b) = no_space a && no_space b.
Proof.
  induction a as [|c a IH]; [done|]. rewrite str_app_cons. simpl.
  by rewrite IH, andb_assoc.
Qed.

Lemma tokens_of_space c s toks :
  Str.isspace c = true → tokens_of s toks → tokens_of (String c s) toks.
Proof.
  intros Hc H. destruct H as [ws Hws|ws tok rest toks Hws Htok Hns Hat Hrest].
  - apply tokens_none. simpl. by rewrite Hc.
  - rewrite <- str_app_cons. apply tokens_next; try done. simpl. by rewrite Hc.
Qed.

Lemma split_go_tokens : ∀ s tok,
  no_space tok = true → tokens_of (tok +:+ s) (split_go tok s).
Proof.
  induction s as [|c s IH]; intros tok Htok; simpl.
  - rewrite str_app_nil_r. case_decide as E; [subst; by apply tokens_none|].
    rewrite <- (str_app_nil_l tok), <- (str_app_nil_r tok) at 1.
    apply tokens_next; try done. by apply tokens_none.
  - destruct (Str.isspace c) eqn:Hc.
    + case_decide as E.
      * subst tok. rewrite str_app_nil_l. apply tokens_of_space; [done|].
        by apply (IH "").
      * rewrite <- (str_app_nil_l (tok +:+ String c s)).
        apply tokens_next; try done. apply tokens_of_space; [done|]. by apply (IH "").
    + specialize (IH (tok +:+ String c "")). rewrite str_app_assoc in IH.
      apply IH. rewrite no_space_app, Htok. simpl. by rewrite Hc.
Qed.

(** [str.split()] returns the white-space-delimited tokens. *)
Lemma split_tokens s : tokens_of s (split s).
Proof. apply (split_go_tokens s ""). done. Qed.

Lemma no_linebreak_app a b : no_linebreak (a +:+ b) = no_linebreak a && no_linebreak b.
Proof.
  induction a as [|c a IH]; [done|]. rewrite str_app_cons. simpl.
  by rewrite IH, andb_assoc.
Qed.

Lemma splitlines_go_lines : ∀ s,
  (∀ line, no_linebreak line = true →
     lines_of (line +:+ s) (splitlines_go line false s))
  ∧ (∀ line, no_linebreak line = true →
     lines_of (line +:+ String "013" "" +:+ s) (line :: splitlines_go "" true s)).
Proof.
  induction s as [|c s [IH1 IH2]].
  - split; intros line Hl; simpl.
    + rewrite str_app_nil_r. case_decide as E; [subst; apply lines_none|].
      by apply lines_last.
    + apply lines_next; [done| |apply lines_none].
      right. exists "013"%char. split_and!; [done..|]. by intros [_ ?].
  - assert (∀ line, no_linebreak line = true →
              lines_of (line +:+ String c s) (splitlines_go line false (String c s))) as H1.
    { intros line Hl. simpl. destruct (Str.islinebreak c) eqn:Hc.
      - case_bool_decide as Ecr.
        + subst c. by apply IH2.
        + change (String c s) with (String c "" +:+ s).
          apply lines_next; [done| |by apply (IH1 "")].
          right. exists c. split_and!; [done..|]. by intros [? _].
      - specialize (IH1 (line +:+ String c "")). rewrite str_app_assoc in IH1.
        apply IH1. rewrite no_linebreak_app, Hl. simpl. by rewrite Hc. }
    split; [done|]. intros line Hl. simpl.
    case_bool_decide as Elf.
    + subst c.
      change (String "013" "" +:+ String "010" s)
        with (String "013" (String "010" "") +:+ s).
      apply lines_next; [done|by left|by apply (IH1 "")].
    + apply lines_next; [done| |].
      * right. exists "013"%char. split_and!; [done..|].
        intros [_ Hs]. simpl in Hs. apply andb_prop in Hs as [Hs _].
        by apply bool_decide_eq_true in Hs.
      * specialize (H1 "" eq_refl). simpl in H1. by rewrite str_app_nil_l in H1.
Qed.

(** [str.splitlines()] returns the lines. *)
Lemma splitlines_lines s : lines_of s (splitlines s).
Proof. apply (proj1 (splitlines_go_lines s) ""). done. Qed.

Lemma startswith_empty s : Str.startswith s "" = true.
Proof. by destruct s. Qed.

Lemma is_heading_first_nonspace line : is_heading line = true ↔ heading_line line.
Proof.
  unfold is_heading, heading_line. induction line as [|c line IH]; simpl; [done|].
  destruct (Str.isspace c) eqn:Hc; [done|]. simpl.
  rewrite startswith_empty, andb_true_r, bool_decide_eq_true.
  split; [by intros ->|by intros [= ->]].
Qed.

Lemma filter_is_heading (ls : list string) :
  filter (λ line, is_heading line) ls = filter heading_line ls.
Proof.
  apply list_filter_iff. intros line. rewrite <- is_heading_first_nonspace.
  by destruct (is_heading line).
Qed.

Lemma split_go_skip_space ws s :
  all_space ws = true → split_go "" (ws +:+ s) = split_go "" s.
Proof.
  induction ws as [|c ws IH]; [done|]. simpl. intros H.
  apply andb_prop in H as [Hc Hws]. rewrite Hc. auto.
Qed.

Lemma split_go_token tok : ∀ t0 s,
  no_space tok = true → split_go t0 (tok +:+ s) = split_go (t0 +:+ tok) s.
Proof.
  induction tok as [|c tok IH]; intros t0 s H.
  - by rewrite str_app_nil_l, str_app_nil_r.
  - simpl in H. apply andb_prop in H as [Hc Htok]. apply negb_true_iff in Hc.
    rewrite str_app_cons. simpl. rewrite Hc, IH by done. by rewrite str_app_assoc.
Qed.

Lemma split_go_at_space tok rest :
  tok ≠ "" → at_space rest = true → split_go tok rest = tok :: split_go "" rest.
Proof.
  intros Htok Hat. destruct rest as [|c r]; simpl.
  - by rewrite decide_False.
  - simpl in Hat. by rewrite Hat, decide_False.
Qed.

(** The tokens of a text are determined: they are what [str.split()]
    returns. *)
Lemma tokens_of_split s toks : tokens_of s toks → toks = split s.
Proof.
  unfold split. induction 1 as [ws Hws|ws tok rest toks Hws Htok Hns Hat _ IH].
  - rewrite <- (str_app_nil_r ws). by rewrite split_go_skip_space.
  - rewrite split_go_skip_space, split_go_token, str_app_nil_l by done.
    rewrite split_go_at_space by done. by rewrite IH.
Qed.

Lemma splitlines_go_line l : ∀ line s,
  no_linebreak l = true →
  splitlines_go line false (l +:+ s) = splitlines_go (line +:+ l) false s.
Proof.
  induction l as [|c l IH]; intros line s H.
  - by rewrite str_app_nil_l, str_app_nil_r.
  - simpl in H. apply andb_prop in H as [Hc Hl]. apply negb_true_iff in Hc.
    rewrite str_app_cons. simpl. rewrite Hc, IH by done. by rewrite str_app_assoc.
Qed.

Lemma splitlines_go_after_cr rest :
  Str.startswith rest (String "010" "") = false →
  splitlines_go "" true rest = splitlines_go "" false rest.
Proof.
  destruct rest as [|c r]; [done|]. simpl.
  rewrite startswith_empty, andb_true_r. by intros ->.
Qed.

Lemma splitlines_go_boundary line brk rest :
  boundary brk rest →
  splitlines_go line false (brk +:+ rest) = line :: splitlines_go "" false rest.
Proof.
  intros [->|(c & -> & Hc & Hncr)]; [done|].
  rewrite str_app_cons, str_app_nil_l. simpl. rewrite Hc. f_equal.
  case_bool_decide as Ecr; [|done].
  apply splitlines_go_after_cr. destruct (Str.startswith rest _); [|done].
  by destruct Hncr.
Qed.

(** The lines of a text are determined: they are what [str.splitlines()]
    returns. *)
Lemma lines_of_splitlines s ls : lines_of s ls → ls = splitlines s.
Proof.
  unfold splitlines. induction 1 as [|l Hne Hl|l brk rest ls Hl Hb _ IH].
  - done.
  - rewrite <- (str_app_nil_r l) at 2. rewrite splitlines_go_line by done.
    simpl. by rewrite decide_False.
  - rewrite splitlines_go_line, str_app_nil_l, splitlines_go_boundary by done.
    by rewrite IH.
Qed.

(** [_count_words_and_headings] counts the tokens, and the lines whose
    first character that is not white space is "#". *)
Lemma _count_words_and_headings_spec markdown :
  ∃ toks ls,
    tokens_of markdown toks ∧ lines_of markdown ls
    ∧ _count_words_and_headings markdown
      = (Z.of_nat (length toks), Z.of_nat (length (filter heading_line ls))).
Proof.
  exists (split markdown), (splitlines markdown).
  split; [apply split_tokens|]. split; [apply splitlines_lines|].
  unfold _count_words_and_headings. by rewrite filter_is_heading.
Qed.

Section Counts.
Variable convert_local : Path → result string.
Variable _make_report : BulkResult → string.

(** C8: every converted outcome of a run that returns carries the
    number of white-space-delimited tokens of the text the converter
    returned for its source, and the number of lines of that text whose
    first character that is not white space is "#"; the tokens and the
    lines of a text are determined. *)
Theorem counts_of_converted src root dest include_ext exclude_ext on_conflict
    continue_on_error thresholds confirm skip_hidden w r o :
  (bulk_convert convert_local _make_report src root dest include_ext exclude_ext
     on_conflict continue_on_error thresholds confirm skip_hidden w).1 = Ok r →
  o ∈ br_files r → fr_status o = converted →
  ∃ md_text toks ls,
    convert_local (fr_src o) = Ok md_text
    ∧ tokens_of md_text toks ∧ (∀ toks', tokens_of md_text toks' → toks' = toks)
    ∧ lines_of md_text ls ∧ (∀ ls', lines_of md_text ls' → ls' = ls)
    ∧ fr_words o = Some (Z.of_nat (length toks))
    ∧ fr_headings o = Some (Z.of_nat (length (filter heading_line ls))).
Proof.
  destruct (bulk_convert _ _ _ _ _ _ _ _ _ _ _ _ w) as [r0 w'] eqn:E. simpl.
  intros -> Ho Hconv. apply bulk_convert_Ok in E as (es & w1 & w2 & t & w3 & E).
  cbv zeta in E. destruct E as (_ & _ & _ & Hloop & -> & _). simpl in Ho.
  apply loop_results in Hloop as (_ & new & Hnew & _ & Hall). simpl in Hnew.
  rewrite Hnew in Ho. rewrite Forall_forall in Hall.
  destruct (Hall o Ho Hconv) as (md_text & Hmd & Hw & Hh).
  exists md_text, (split md_text), (splitlines md_text).
  split_and!; [done|apply split_tokens| |apply splitlines_lines| |done|].
  - intros toks' H. by apply tokens_of_split.
  - intros ls' H. by apply lines_of_splitlines.
  - rewrite Hh. unfold _count_words_and_headings. simpl. by rewrite filter_is_heading.
Qed.
End Counts.

Lemma counts_of_converted_witness :
  ∃ md_text toks ls,
    demo_convert (demo_src ++ ["a"; "f1.txt"]) = Ok md_text
    ∧ tokens_of md_text toks ∧ lines_of md_text ls
    ∧ Z.of_nat (length toks) = 2 ∧ Z.of_nat (length (filter heading_line ls)) = 1.
Proof.
  assert ((demo_run rename true ∅).1 = Ok demo_result) as Hrun
    by (vm_compute; reflexivity).
  destruct (counts_of_converted demo_convert demo_report (Some demo_tree) demo_src
              (Some demo_dest) None None rename true None None true (start ∅)
              demo_result
              demo_outcome_f1 Hrun)
    as (md_text & toks & ls & H1 & H2 & _ & H3 & _ & H4 & H5).
  - simpl. constructor.
  - reflexivity.
  - exists md_text, toks, ls. simpl in H4, H5.
    split_and!; [exact H1|exact H2|exact H3|congruence|congruence].
Defined.

(** The counts of a small text: four tokens, and two heading lines out
    of four lines. *)
Example count_words_and_headings_example :
  _count_words_and_headings (String "#" (String " " (String "a"
    (String "013" (String "010" (String " " (String "#" (String "b"
    (String "010" (String "c" (String "012" (String "010" ""))))))))))))
  = (4, 2).
Proof. reflexivity. Qed.

(** ** Hidden entries *)

Section Hidden.
Variable convert_local : Path → result string.
Variable _make_report : BulkResult → string.

(** C6: with [skip_hidden], the walk descends into exactly the
    directories that have no component starting with a dot below the
    root, [_iter_files] yields exactly the files that have none, in the
    order of the full traversal, and [_preflight] counts those
    directories, those files and the sizes of those files; every outcome
    of a run comes from such a file. *)
Theorem skip_hidden_excludes (root : Path) (es : list (string * node)) :
  os_walk (keep_dir true) root (NDir es)
  = filter (λ x, visible root x.1.1) (os_walk (keep_dir false) root (NDir es))
  ∧ _iter_files root (NDir es) true
    = filter (λ p, visible root p) (_iter_files root (NDir es) false)
  ∧ _preflight root (NDir es) true
    = {| ps_root := root;
         ps_dirs := Z.of_nat (length (filter (λ x, visible root x.1.1)
                                        (os_walk (keep_dir false) root (NDir es))));
         ps_files := Z.of_nat (length (filter (λ p, visible root p)
                                         (_iter_files root (NDir es) false)));
         ps_bytes := sum_list_Z (counted_size root (NDir es) <$>
                                   filter (λ p, visible root p)
                                     (_iter_files root (NDir es) false)) |}
  ∧ (∀ dest include_ext exclude_ext on_conflict continue_on_error thresholds confirm
       w r o,
       (bulk_convert convert_local _make_report (Some (NDir es)) root dest include_ext
          exclude_ext on_conflict continue_on_error thresholds confirm true w).1 = Ok r →
       o ∈ br_files r → visible root (fr_src o) = true).
Proof.
  split; [apply os_walk_pruned_root|]. split; [apply iter_files_pruned|]. split.
  - by rewrite preflight_counts, iter_files_pruned, os_walk_pruned_root.
  - intros dest inc exc pol coe th confirm w r o Hrun Ho.
    pose proof (bulk_convert_sources convert_local _make_report es root dest inc exc pol
                  coe th confirm true w r Hrun) as Hpre.
    assert (fr_src o ∈ _iter_files root (NDir es) true) as Hin.
    { destruct Hpre as [k Hk]. rewrite Hk. apply elem_of_app. left.
      apply list_elem_of_fmap. by exists o. }
    rewrite iter_files_pruned in Hin. apply list_elem_of_filter in Hin as [Hv _].
    by apply Is_true_true.
Qed.
End Hidden.

Lemma skip_hidden_excludes_witness :
  _iter_files demo_src demo_tree true
  = [demo_src ++ ["a"; "f1.txt"]; demo_src ++ ["a"; "f2.pdf"]; demo_src ++ ["b"; "g.docx"]]
  ∧ ps_files (_preflight demo_src demo_tree true) = 3
  ∧ visible demo_src (demo_src ++ ["a"; "f1.txt"]) = true.
Proof.
  destruct (skip_hidden_excludes demo_convert demo_report demo_src demo_entries)
    as (_ & H2 & H3 & H4).
  split; [|split].
  - etrans; [exact H2|]. vm_compute. reflexivity.
  - unfold demo_tree. rewrite H3. vm_compute. reflexivity.
  - apply (H4 (Some demo_dest) None None rename true None None (start ∅) demo_result
             demo_outcome_f1).
    + vm_compute. reflexivity.
    + simpl. constructor.
Defined.

(** The tree of the test suite: the file below [.hidden] is a candidate
    only without [skip_hidden]. *)
Example hidden_file_not_a_candidate :
  demo_src ++ [".hidden"; "x.txt"] ∈ _iter_files demo_src demo_tree false
  ∧ demo_src ++ [".hidden"; "x.txt"] ∉ _iter_files demo_src demo_tree true.
Proof. split; apply (bool_decide_unpack _); vm_compute; exact I. Qed.

(** ** Running twice under the skip policy *)

Lemma derived_not_tmp_named src root dest_root out_path :
  _derive_output_path src root dest_root = Ok out_path → tmp_named out_path = false.
Proof.
  unfold _derive_output_path, with_suffix, PurePath.with_suffix.
  destruct (PurePath.relative_to src root) as [rel|]; [|done].
  case_decide; [done|]. intros [= <-].
  unfold tmp_named. rewrite name_join, last_char_app by done.
  by apply bool_decide_eq_false.
Qed.

Lemma exists_keeps w w' q :
  keeps_entries w w' → tmp_named q = false →
  exists_ (w_fs w) q = true → exists_ (w_fs w') q = true.
Proof.
  intros Hk Hq. unfold exists_. destruct q as [|c q]; [done|].
  rewrite !bool_decide_eq_true. by apply Hk.
Qed.

Lemma _write_atomic_Ok dest_path data w w' :
  _write_atomic dest_path data w = (Ok (), w') →
  w_fs w' !! dest_path = Some (File data)
  ∧ w_fs w' !! tmp_of dest_path = None
  ∧ ∀ q, q ∈ ancestors_and_self (PurePath.parent dest_path) → w_fs w' !! q = Some Dir.
Proof.
  rewrite _write_atomic_eq.
  destruct (mkdir (PurePath.parent dest_path) w) as [[[]|e] w1] eqn:Emk; [|done].
  pose proof (mkdir_Ok _ _ _ Emk) as Hdirs. cbv zeta.
  case_decide; [done|].
  destruct (is_dir (w_fs w1) (tmp_of dest_path)); [done|].
  destruct (is_dir (w_fs w1) dest_path); [done|]. intros [= <-]. simpl.
  pose proof (tmp_of_ne dest_path) as Hne. split_and!.
  - apply lookup_insert_eq.
  - rewrite lookup_insert_ne by done. apply lookup_delete_eq.
  - intros q Hq. destruct (ancestor_of_parent_ne _ _ Hq) as [H1 H2].
    rewrite lookup_insert_ne, lookup_delete_ne by done. by apply Hdirs.
Qed.

(** Writing again to a path that a write has left behind. *)
Lemma _write_atomic_again dest_path data old w :
  (∀ q, q ∈ ancestors_and_self (PurePath.parent dest_path) → w_fs w !! q = Some Dir) →
  PurePath.name dest_path ≠ "" →
  w_fs w !! tmp_of dest_path = None →
  w_fs w !! dest_path = Some (File old) →
  _write_atomic dest_path data w
  = (Ok (), {| w_fs := <[dest_path := File data]> (w_fs w);
               w_log := w_log w ++ write_events dest_path data |}).
Proof.
  intros Hdirs Hname Htmp Hdest. rewrite _write_atomic_eq.
  unfold mkdir. rewrite mkdir_parents_noop.
  2:{ intros n Hn. apply Hdirs. apply list_elem_of_fmap. exists n. split; [done|].
      apply elem_of_seq. lia. }
  cbv zeta. rewrite decide_False by done.
  assert (is_dir (w_fs w) (tmp_of dest_path) = false) as ->.
  { unfold is_dir, tmp_of, PurePath.join.
    destruct (PurePath.parent dest_path ++ _) eqn:E; [by destruct (PurePath.parent dest_path)|].
    unfold tmp_of, PurePath.join in Htmp. by rewrite <- E, Htmp. }
  assert (is_dir (w_fs w) dest_path = false) as ->.
  { unfold is_dir. destruct dest_path; [done|]. by rewrite Hdest. }
  by rewrite delete_id.
Qed.

Section Twice.
Variable convert_local : Path → result string.
Variables (src_root dest_root : Path).
Variables (include_ext exclude_ext : option (gset string)).
Variable continue_on_error : bool.

#[local] Abbreviation loop_skip :=
  (loop convert_local src_root dest_root include_ext exclude_ext skip continue_on_error).
#[local] Abbreviation body_skip :=
  (process_file convert_local src_root dest_root include_ext exclude_ext skip
     continue_on_error).

Lemma loop_keeps_entries files t :
  preserves keeps_entries (loop_skip t files).
Proof.
  apply loop_preserves; [apply _|by intros w f q|apply _write_atomic_keeps_entries].
Qed.

Lemma loop_failed_mono : ∀ files t w t' w',
  loop_skip t files w = (Ok t', w') → n_failed t ≤ n_failed t'.
Proof.
  induction files as [|f files IH]; intros t w t' w' H.
  - simpl in H. munfold. injection H as <- <-. lia.
  - rewrite loop_cons in H.
    destruct (body_skip t f w) as [[[t1 []]|e] w1] eqn:Ep; [| |done];
      apply process_file_recorded in Ep as [[why ->]|[(out & md & _ & ->)|[why ->]]].
    all: try (apply IH in H; simpl in H; lia).
    all: injection H as <- <-; simpl; lia.
Qed.

(** A loop that records no failure has reached every candidate, and
    leaves each one that passes the filters with an existing
    destination. *)
Lemma loop_no_failure : ∀ files t w t' w',
  loop_skip t files w = (Ok t', w') → n_failed t' = n_failed t →
  Forall (settled convert_local src_root dest_root include_ext exclude_ext (w_fs w'))
    files.
Proof.
  induction files as [|f files IH]; intros t w t' w' H Hnf; [constructor|].
  rewrite loop_cons in H.
  destruct (body_skip t f w) as [[[t1 c]|e] w1] eqn:Ep; [|done].
  assert (n_failed t1 = n_failed t ∧ c = Continue
          ∧ (filtered include_ext exclude_ext f = true
             ∨ ∃ out_path md_text,
                 _derive_output_path f src_root dest_root = Ok out_path
                 ∧ convert_local f = Ok md_text
                 ∧ exists_ (w_fs w1) out_path = true)) as (Hn1 & -> & Hset).
  { assert (n_failed t1 ≤ n_failed t') as Hmono.
    { destruct c; [by eapply loop_failed_mono|injection H as <- <-; lia]. }
    rewrite process_file_eq in Ep. unfold on_failure in Ep.
    destruct (filtered _ _ f) eqn:Ef; [injection Ep as <- <- <-; auto|].
    destruct (_derive_output_path f src_root dest_root) as [out_path|e] eqn:Ed; [|done].
    cbv zeta in Ep.
    destruct (convert_local f) as [md_text|e] eqn:Ec;
      [|injection Ep as <- <- <-; simpl in Hmono; lia].
    change (w_fs (after_convert w f)) with (w_fs w) in Ep.
    destruct (exists_ (w_fs w) out_path) eqn:Ex.
    - injection Ep as <- <- <-. split_and!; [done..|]. right. by exists out_path, md_text.
    - destruct (_write_atomic out_path md_text _) as [[[]|e] w2] eqn:Ew;
        [|injection Ep as <- <- <-; simpl in Hmono; lia].
      injection Ep as <- <- <-. split_and!; [done..|]. right.
      exists out_path, md_text. split_and!; [done..|].
      apply _write_atomic_Ok in Ew as (Hout & _).
      unfold exists_. destruct out_path; [done|]. apply bool_decide_eq_true.
      by rewrite Hout. }
  pose proof (loop_keeps_entries _ _ _ _ _ H) as Hk.
  constructor; [|eapply IH; [apply H|lia]].
  destruct Hset as [?|(out_path & md_text & Hd & Hc & Hx)]; [by left|right].
  exists out_path, md_text. split_and!; [done..|].
  eapply exists_keeps; [apply Hk| |done]. by eapply derived_not_tmp_named.
Qed.

(** Over candidates that are all settled, the loop records each one as
    skipped, calls the converter on those that pass the filters, and
    leaves the file system as it is. *)
Lemma loop_all_skipped : ∀ files t w,
  Forall (settled convert_local src_root dest_root include_ext exclude_ext (w_fs w))
    files →
  loop_skip t files w
  = (Ok (foldl (λ t f, record_skipped t f (skip_reason include_ext exclude_ext f)) t files),
     {| w_fs := w_fs w;
        w_log := w_log w ++ (EvConvert <$>
                   filter (λ f, filtered include_ext exclude_ext f = false) files) |}).
Proof.
  induction files as [|f files IH]; intros t w Hall.
  - simpl. munfold. by rewrite app_nil_r, world_eta.
  - apply Forall_cons in Hall as [Hf Hall]. rewrite loop_cons, process_file_eq.
    unfold skip_reason at 1. simpl foldl.
    destruct Hf as [Hf|(out_path & md_text & Hd & Hc & Hx)].
    + rewrite Hf. rewrite IH by done. rewrite filter_cons_False; [done|].
      rewrite Hf. done.
    + destruct (filtered include_ext exclude_ext f) eqn:Ef.
      * rewrite IH by done. rewrite filter_cons_False; [done|]. by rewrite Ef.
      * rewrite Hd, Hc. cbv zeta.
        change (w_fs (after_convert w f)) with (w_fs w). rewrite Hx.
        rewrite IH by done. simpl. rewrite filter_cons_True by done.
        by rewrite fmap_cons, <- app_assoc.
Qed.
Lemma body_Break_failed t f w t' w' :
  body_skip t f w = (Ok (t', Break), w') → n_failed t' = n_failed t + 1.
Proof.
  intros H. rewrite process_file_eq in H. unfold on_failure in H.
  destruct (filtered _ _ f); [done|].
  destruct (_derive_output_path f src_root dest_root) as [out_path|e]; [|done].
  cbv zeta in H.
  destruct (convert_local f) as [md_text|e]; [|by injection H as <- _ <-].
  destruct (exists_ _ out_path); [done|].
  destruct (_write_atomic out_path md_text _) as [[[]|e] w2]; [done|].
  by injection H as <- _ <-.
Qed.

(** A loop that records no failure has an outcome for every candidate,
    and none of them is a failure. *)
Lemma loop_no_failure_all : ∀ files t w t' w',
  loop_skip t files w = (Ok t', w') → n_failed t' = n_failed t →
  ∃ new, results t' = results t ++ new ∧ fr_src <$> new = files
         ∧ Forall (λ o, fr_status o ≠ failed) new.
Proof.
  induction files as [|f files IH]; intros t w t' w' H Hnf.
  - simpl in H. munfold. injection H as <- <-. exists []. by rewrite app_nil_r.
  - rewrite loop_cons in H.
    destruct (body_skip t f w) as [[[t1 []]|e] w1] eqn:Ep; [| |done].
    + pose proof (loop_failed_mono _ _ _ _ _ H) as Hmono.
      apply process_file_recorded in Ep as [[why ->]|[(out & md & _ & ->)|[why ->]]];
        simpl in Hmono; [| |lia].
      all: apply IH in H as (new & Hnew & Hsrc & Hall); [|simpl; lia].
      all: simpl in Hnew; rewrite <- app_assoc in Hnew; simpl in Hnew.
      all: eexists; split_and!; [exact Hnew|by rewrite fmap_cons, Hsrc|by constructor].
    + apply body_Break_failed in Ep. injection H as <- <-. lia.
Qed.

Lemma foldl_record_skipped (why : Path → string) : ∀ files t,
  results (foldl (λ t f, record_skipped t f (why f)) t files)
  = results t ++ ((λ f, skipped_outcome f (why f)) <$> files)
  ∧ n_converted (foldl (λ t f, record_skipped t f (why f)) t files) = n_converted t
  ∧ n_failed (foldl (λ t f, record_skipped t f (why f)) t files) = n_failed t.
Proof.
  induction files as [|f files IH]; intros t; simpl.
  - by rewrite app_nil_r.
  - destruct (IH (record_skipped t f (why f))) as (H1 & H2 & H3).
    rewrite H1, H2, H3. simpl. by rewrite <- app_assoc.
Qed.

Lemma settled_keeps w w' f :
  keeps_entries w w' →
  settled convert_local src_root dest_root include_ext exclude_ext (w_fs w) f →
  settled convert_local src_root dest_root include_ext exclude_ext (w_fs w') f.
Proof.
  intros Hk [?|(out_path & md_text & Hd & Hc & Hx)]; [by left|right].
  exists out_path, md_text. split_and!; [done..|].
  eapply exists_keeps; [apply Hk| |done]. by eapply derived_not_tmp_named.
Qed.
End Twice.

(** ** The path helpers: extensions, derived outputs, the default destination *)

Lemma lower_char_idem c : Str.lower_char (Str.lower_char c) = Str.lower_char c.
Proof. destruct c as [[] [] [] [] [] [] [] []]; vm_compute; reflexivity. Qed.

Lemma lower_char_dot c : Str.lower_char c = "."%char ↔ c = "."%char.
Proof. destruct c as [[] [] [] [] [] [] [] []]; vm_compute; split; congruence. Qed.

Lemma lower_idem s : Str.lower (Str.lower s) = Str.lower s.
Proof. induction s as [|c s IH]; simpl; [done|]. by rewrite lower_char_idem, IH. Qed.

Lemma lower_lstrip_dot s : Str.lower (Str.lstrip_dot s) = Str.lstrip_dot (Str.lower s).
Proof.
  induction s as [|c s IH]; [done|].
  destruct (decide (c = "."%char)) as [->|Hc]; [exact IH|].
  assert (Str.lower_char c ≠ "."%char) as Hl by (by rewrite lower_char_dot).
  transitivity (Str.lower (String c s)).
  { f_equal. simpl. destruct c as [[] [] [] [] [] [] [] []]; done. }
  simpl. destruct (Str.lower_char c) as [[] [] [] [] [] [] [] []]; done.
Qed.

Lemma lstrip_dot_idem s : Str.lstrip_dot (Str.lstrip_dot s) = Str.lstrip_dot s.
Proof.
  induction s as [|c s IH]; [done|].
  destruct (decide (c = "."%char)) as [->|Hc]; [exact IH|].
  assert (Str.lstrip_dot (String c s) = String c s) as ->; [|].
  all: simpl; destruct c as [[] [] [] [] [] [] [] []]; done.
Qed.

Lemma norm_ext_idem e : norm_ext (norm_ext e) = norm_ext e.
Proof.
  unfold norm_ext. by rewrite lower_lstrip_dot, lower_idem, lstrip_dot_idem.
Qed.

(** *** The last dot of a name *)

Lemma rfind_app c a b i :
  Str.rfind c b = Some i → Str.rfind c (a +:+ b) = Some (String.length a + i)%nat.
Proof.
  intros Hb. induction a as [|x a IH]; [by rewrite str_app_nil_l|].
  rewrite str_app_cons. simpl. by rewrite IH.
Qed.

Lemma rfind_no_dot s : has_dot s = false → Str.rfind "." s = None.
Proof.
  induction s as [|c s IH]; [done|]. simpl. intros [Hc Hs]%orb_false_iff.
  rewrite (IH Hs). apply bool_decide_eq_false in Hc. by rewrite decide_False.
Qed.

(** After the last dot there is no dot. *)
Lemma rfind_drop s : ∀ i, Str.rfind "." s = Some i → has_dot (Str.drop (S i) s) = false.
Proof.
  induction s as [|c s IH]; [done|]. intros i. simpl.
  destruct (Str.rfind "." s) as [j|] eqn:E.
  - intros [= <-]. by apply IH.
  - case_decide; [|done]. intros [= <-]. simpl. clear IH.
    induction s as [|d s IH]; [done|]. simpl in *.
    destruct (Str.rfind "." s); [done|]. case_decide; [done|].
    rewrite IH by done. by rewrite bool_decide_eq_false_2.
Qed.

Lemma rfind_lt s : ∀ i, Str.rfind "." s = Some i → (i < String.length s)%nat.
Proof.
  induction s as [|c s IH]; [done|]. intros i. simpl.
  destruct (Str.rfind "." s) as [j|].
  - intros [= <-]. specialize (IH j eq_refl). lia.
  - case_decide; [|done]. intros [= <-]. lia.
Qed.

Lemma str_drop_app (a b : string) : Str.drop (String.length a) (a +:+ b) = b.
Proof. induction a as [|c a IH]; [by rewrite str_app_nil_l; destruct b|]. by rewrite str_app_cons. Qed.

Lemma str_drop_S_dot i s c t : Str.drop i s = String c t → Str.drop (S i) s = t.
Proof.
  revert s. induction i as [|i IH]; intros [|x s]; simpl; try done.
  - by intros [= _ ->].
  - apply IH.
Qed.

Lemma has_dot_lower s : has_dot (Str.lower s) = has_dot s.
Proof.
  induction s as [|c s IH]; [done|]. simpl. rewrite IH. f_equal.
  apply bool_decide_ext, lower_char_dot.
Qed.

Lemma lstrip_dot_no_dot s : has_dot s = false → Str.lstrip_dot s = s.
Proof.
  destruct s as [|c s]; [done|]. simpl. intros [Hc _]%orb_false_iff.
  apply bool_decide_eq_false in Hc. destruct c as [[] [] [] [] [] [] [] []]; done.
Qed.

Lemma str_drop_length s : ∀ i,
  String.length (Str.drop i s) = (String.length s - i)%nat.
Proof. induction s as [|c s IH]; intros [|i]; simpl; auto. Qed.

Lemma rfind_at s : ∀ i c t,
  Str.rfind "." s = Some i → Str.drop i s = String c t → c = "."%char.
Proof.
  induction s as [|x s IH]; [done|]. intros i c t. simpl.
  destruct (Str.rfind "." s) as [j|] eqn:Ej.
  - intros [= <-]. simpl. by apply IH.
  - case_decide; [|done]. by intros [= <-] [= -> _].
Qed.

(** The suffix of a path is empty, or a dot followed by text without a
    dot. *)
Lemma suffix_shape p :
  PurePath.suffix p = ""
  ∨ ∃ e, PurePath.suffix p = String "." e ∧ e ≠ "" ∧ has_dot e = false.
Proof.
  unfold PurePath.suffix, PurePath.suffix_index.
  destruct (Str.rfind "." (PurePath.name p)) as [i|] eqn:E; [|by left].
  case_bool_decide as Hi; [|by left]. right. unfold Str.len in Hi.
  pose proof (rfind_drop _ _ E) as Hno.
  pose proof (str_drop_length (PurePath.name p) i) as Hlen.
  destruct (Str.drop i (PurePath.name p)) as [|c t] eqn:Ed; [simpl in Hlen; lia|].
  rewrite (str_drop_S_dot _ _ _ _ Ed) in Hno.
  rewrite (rfind_at _ _ _ _ E Ed).
  exists t. split; [done|]. split; [|done]. intros ->. simpl in Hlen. lia.
Qed.

(** The suffix of a name [stem.e]. *)
Lemma suffix_of_name dir (stem e : string) :
  stem ≠ "" → e ≠ "" → has_dot e = false →
  PurePath.suffix (dir // (stem +:+ String "." e)) = String "." e
  ∧ PurePath.stem (dir // (stem +:+ String "." e)) = stem.
Proof.
  intros Hs He Hd. unfold PurePath.suffix, PurePath.stem, PurePath.suffix_index.
  rewrite name_join.
  assert (Str.rfind "." (String "." e) = Some 0%nat) as H0.
  { simpl. by rewrite (rfind_no_dot _ Hd). }
  rewrite (rfind_app _ stem _ _ H0), Nat.add_0_r.
  rewrite bool_decide_eq_true_2.
  - by rewrite str_drop_app, str_take_app.
  - unfold Str.len. rewrite str_len_app. simpl.
    destruct stem; [done|]. destruct e; [done|]. simpl. lia.
Qed.

Lemma stem_nonempty p : PurePath.name p ≠ "" → PurePath.stem p ≠ "".
Proof.
  unfold PurePath.stem, PurePath.suffix_index. intros Hn.
  destruct (Str.rfind "." (PurePath.name p)) as [i|]; [|done].
  case_bool_decide as Hi; [|done].
  destruct i as [|i]; [lia|]. by destruct (PurePath.name p).
Qed.

(** X1: the extension [_ext_of] reports for a name [stem.e] is [e] in lower
    case, whatever dots the stem holds. *)
Theorem ext_of_last_dot (dir : Path) (stem e : string) :
  stem ≠ "" → e ≠ "" → has_dot e = false →
  _ext_of (dir // (stem +:+ "." +:+ e)) = Str.lower e.
Proof.
  intros Hs He Hd. unfold _ext_of.
  change ("." +:+ e) with (String "." e).
  destruct (suffix_of_name dir stem e Hs He Hd) as [-> _].
  change (Str.lower (String "." e)) with (String "." (Str.lower e)).
  change (Str.lstrip_dot (String "." (Str.lower e))) with (Str.lstrip_dot (Str.lower e)).
  apply lstrip_dot_no_dot. by rewrite has_dot_lower.
Qed.

Lemma ext_of_last_dot_witness :
  _ext_of (["tmp"; "src"] // ("archive.tar" +:+ "." +:+ "GZ")) = "gz".
Proof.
  etrans; [apply (ext_of_last_dot ["tmp"; "src"] "archive.tar" "GZ"); done|].
  reflexivity.
Defined.

(** X2: what [_ext_of] returns is in the form extensions are compared in:
    lower case, no dot at all; it is empty exactly when the path has no
    suffix. *)
Theorem ext_of_normal (p : Path) :
  norm_ext (_ext_of p) = _ext_of p
  ∧ has_dot (_ext_of p) = false
  ∧ (_ext_of p = "" ↔ PurePath.suffix p = "").
Proof.
  unfold _ext_of. fold (norm_ext (PurePath.suffix p)).
  split; [apply norm_ext_idem|].
  destruct (suffix_shape p) as [->|(e & -> & He & Hd)]; [done|].
  unfold norm_ext.
  change (Str.lower (String "." e)) with (String "." (Str.lower e)).
  change (Str.lstrip_dot (String "." (Str.lower e))) with (Str.lstrip_dot (Str.lower e)).
  rewrite lstrip_dot_no_dot by (by rewrite has_dot_lower).
  rewrite has_dot_lower. split; [done|]. split; [|done].
  by destruct e.
Qed.

(** *** The extension filters *)

Lemma normalize_ext_Some (s : gset string) :
  ∃ s', normalize_ext (Some s) = Some s'
        ∧ (s' = ∅ ↔ s = ∅)
        ∧ ∀ x, x ∈ s' ↔ ∃ e, e ∈ s ∧ norm_ext e = x.
Proof.
  unfold normalize_ext. case_decide as He.
  - exists s. subst s. split; [done|]. split; [done|]. intros x. split; [set_solver|].
    intros (e & He & _). set_solver.
  - eexists. split; [done|]. split.
    + split; [|done]. intros Hm. apply set_choose_L in He as [e He].
      assert (norm_ext e ∈ (∅ : gset string)); [|set_solver].
      rewrite <- Hm. apply elem_of_map. by exists e.
    + intros x. rewrite elem_of_map. unfold norm_ext.
      split; intros (e & H1 & H2); by exists e.
Qed.

(** X3: how the two extension sets filter a candidate, in terms of the
    sets the caller passes: with a non-empty include set a file is skipped
    unless one of its entries, lower-cased and without leading dots, is
    the file's extension; with an exclude set it is skipped when one of
    its entries is.  An empty set filters nothing, and exclusion is applied
    also to included files. *)
Theorem filtered_after_normalize (inc exc : option (gset string)) (f : Path) :
  filtered (normalize_ext inc) (normalize_ext exc) f = true ↔
  (∃ s, inc = Some s ∧ s ≠ ∅ ∧ ∀ e, e ∈ s → norm_ext e ≠ _ext_of f)
  ∨ (∃ s e, exc = Some s ∧ e ∈ s ∧ norm_ext e = _ext_of f).
Proof.
  unfold filtered. rewrite orb_true_iff. apply Morphisms_Prop.or_iff_morphism.
  - destruct inc as [s|]; [|simpl; split; [done|by intros (? & ? & _)]].
    destruct (normalize_ext_Some s) as (s' & -> & Hempty & Hs').
    rewrite andb_true_iff, !bool_decide_eq_true, Hempty, Hs'. split.
    + intros [Hne Hno]. exists s. split; [done|]. split; [done|]. intros e He Heq.
      apply Hno. by exists e.
    + intros (s0 & [= <-] & Hne & Hno). split; [done|]. intros (e & He & Heq).
      by apply (Hno e).
  - destruct exc as [s|]; [|simpl; split; [done|by intros (? & ? & ? & _)]].
    destruct (normalize_ext_Some s) as (s' & -> & Hempty & Hs').
    rewrite andb_true_iff, !bool_decide_eq_true, Hempty, Hs'. split.
    + intros [Hne (e & He & Heq)]. by exists s, e.
    + intros (s0 & e & [= <-] & He & Heq).
      split; [by intros ->; apply elem_of_empty in He|]. by exists e.
Qed.

(** *** _derive_output_path *)

Lemma relative_to_Some src root rel :
  PurePath.relative_to src root = Some rel ↔ src = root ++ rel.
Proof.
  split; [|intros ->; apply relative_to_app].
  revert src. induction root as [|r root IH]; intros src; simpl.
  - destruct src; by intros [= <-].
  - destruct src as [|c src]; [done|]. simpl. case_decide; [|done]. subst c.
    intros H. by rewrite (IH _ H).
Qed.

Lemma relative_to_prefix src root :
  is_Some (PurePath.relative_to src root) ↔ root `prefix_of` src.
Proof.
  split.
  - intros [rel Hrel]. apply relative_to_Some in Hrel. by exists rel.
  - intros [rel ->]. rewrite relative_to_app. by eexists.
Qed.

(** X4: [_derive_output_path] mirrors the position of the source below the
    root under the destination root, keeps the stem of the source and
    gives the output the suffix [.md]. *)
Theorem derive_output_path_mirrors (root dest_root dir : Path) (nm : string) :
  nm ≠ "" →
  let src := root ++ dir ++ [nm] in
  let out := (dest_root ++ dir) // (PurePath.stem src +:+ ".md") in
  _derive_output_path src root dest_root = Ok out
  ∧ PurePath.parent out = dest_root ++ dir
  ∧ PurePath.stem out = PurePath.stem src
  ∧ PurePath.suffix out = ".md".
Proof.
  intros Hnm src out.
  assert (PurePath.name src = nm) as Hname.
  { unfold src. rewrite (assoc_L (++)). apply name_join. }
  assert (dest_root ++ dir ++ [nm] = (dest_root ++ dir) // nm) as Htarget.
  { unfold PurePath.join. by rewrite (assoc_L (++)). }
  assert (PurePath.stem ((dest_root ++ dir) // nm) = PurePath.stem src) as Hstem.
  { unfold PurePath.stem. by rewrite Hname, name_join. }
  assert (PurePath.stem src ≠ "") as Hs by (apply stem_nonempty; by rewrite Hname).
  split; [|split; [apply parent_join|]].
  - unfold _derive_output_path, src. rewrite relative_to_app, Htarget.
    unfold with_suffix, PurePath.with_suffix.
    rewrite Hstem, name_join, parent_join.
    by rewrite decide_False.
  - destruct (suffix_of_name (dest_root ++ dir) (PurePath.stem src) "md" Hs) as [H1 H2];
      [done..|]. by split.
Qed.

Lemma derive_output_path_mirrors_witness :
  _derive_output_path ["tmp"; "src"; "a"; "b"; "notes.v2.TXT"] ["tmp"; "src"] ["tmp"; "out"]
  = Ok ["tmp"; "out"; "a"; "b"; "notes.v2.md"].
Proof.
  destruct (derive_output_path_mirrors ["tmp"; "src"] ["tmp"; "out"] ["a"; "b"]
              "notes.v2.TXT") as [H _]; [done|].
  etrans; [exact H|]. vm_compute. reflexivity.
Defined.

(** X5: [_derive_output_path] returns exactly when the source lies below
    the root and the target has a name; otherwise it raises ValueError,
    and nothing else. *)
Theorem derive_output_path_raises (src root dest_root : Path) :
  ((∃ out, _derive_output_path src root dest_root = Ok out)
   ↔ root `prefix_of` src ∧ PurePath.name (dest_root ++ drop (length root) src) ≠ "")
  ∧ (∀ e, _derive_output_path src root dest_root = Raise e → ∃ msg, e = ValueError msg).
Proof.
  unfold _derive_output_path, with_suffix, PurePath.with_suffix.
  destruct (PurePath.relative_to src root) as [rel|] eqn:E.
  - apply relative_to_Some in E as ->. rewrite drop_app_length.
    case_decide as Hn; split.
    + split; [by intros [? ?]|]. by intros [_ ?].
    + intros e [= <-]. by eexists.
    + split; [|by eexists]. intros _. split; [by exists rel|done].
    + done.
  - split.
    + split; [by intros [? ?]|]. intros [Hp _]. apply relative_to_prefix in Hp.
      rewrite E in Hp. by destruct Hp.
    + intros e [= <-]. by eexists.
Qed.

(** *** _md_sibling_dest *)

(** X6: the default destination of a root other than the top of the file
    system is its sibling named after it with [-md] appended; neither lies
    inside the other. *)
Theorem md_sibling_dest_beside (root : Path) :
  root ≠ [] →
  PurePath.parent (_md_sibling_dest root) = PurePath.parent root
  ∧ PurePath.name (_md_sibling_dest root) = PurePath.name root +:+ "-md"
  ∧ ¬ root `prefix_of` _md_sibling_dest root
  ∧ ¬ _md_sibling_dest root `prefix_of` root.
Proof.
  intros Hne. unfold _md_sibling_dest. rewrite parent_join, name_join.
  split; [done|]. split; [done|].
  assert (PurePath.name root +:+ "-md" ≠ PurePath.name root) as Hnm.
  { intros H. apply (f_equal String.length) in H. rewrite str_len_app in H.
    simpl in H. lia. }
  assert (length (PurePath.parent root // (PurePath.name root +:+ "-md")) = length root)
    as Hlen.
  { rewrite (path_parent_name root Hne) at 3. unfold PurePath.join.
    by rewrite !length_app. }
  assert (∀ k : Path, length k = 0%nat → k = []) as Hnil by (by intros []).
  split; intros [k Hk].
  - assert (k = []) as ->.
    { apply Hnil. apply (f_equal length) in Hk. rewrite length_app in Hk. lia. }
    rewrite app_nil_r in Hk. rewrite (path_parent_name root Hne) in Hk at 3.
    unfold PurePath.join in Hk. apply (inj (app _)) in Hk. by injection Hk.
  - assert (k = []) as ->.
    { apply Hnil. apply (f_equal length) in Hk. rewrite length_app in Hk. lia. }
    rewrite app_nil_r in Hk. rewrite (path_parent_name root Hne) in Hk at 1.
    unfold PurePath.join in Hk. apply (inj (app _)) in Hk. by injection Hk.
Qed.

Lemma md_sibling_dest_beside_witness :
  _md_sibling_dest ["tmp"; "src"] = ["tmp"; "src-md"]
  ∧ ¬ ["tmp"; "src"] `prefix_of` _md_sibling_dest ["tmp"; "src"].
Proof.
  destruct (md_sibling_dest_beside ["tmp"; "src"]) as (_ & _ & H & _); [done|].
  split; [reflexivity|exact H].
Defined.

(** ** The candidates and the tree *)

Lemma bind_bind {A B C} (f : A → list B) (g : B → list C) (l : list A) :
  (l ≫= f) ≫= g = l ≫= λ x, f x ≫= g.
Proof.
  induction l as [|x l IH]; [done|]. by rewrite !bind_cons, bind_app, IH.
Qed.

Lemma iter_files_NDir top es sh :
  _iter_files top (NDir es) sh
  = ((λ fn, top // fn) <$> kept_files sh (filenames es))
    ++ (es ≫= λ '(nm, child),
          if is_NDir child && keep_dir sh nm then _iter_files (top // nm) child sh else []).
Proof.
  unfold _iter_files at 1. rewrite os_walk_NDir. rewrite bind_cons. f_equal.
  unfold walk_entries. rewrite bind_bind. apply list_bind_ext; [|done].
  intros [nm child]. by destruct (is_NDir child && keep_dir sh nm).
Qed.

Lemma elem_of_filenames fn es :
  fn ∈ filenames es ↔ ∃ sz, (fn, NFile sz) ∈ es.
Proof.
  unfold filenames. rewrite list_elem_of_fmap. split.
  - intros ([nm child] & -> & H). apply list_elem_of_filter in H as [Hf Hin].
    destruct child as [sz|]; [|done]. by exists sz.
  - intros [sz H]. exists (fn, NFile sz). split; [done|].
    by apply list_elem_of_filter.
Qed.

Lemma iter_files_has_file sh tree : ∀ top p,
  p ∈ _iter_files top tree sh ↔
  ∃ rel, p = top ++ rel ∧ has_file tree rel
         ∧ (sh = true → Forall (λ c, hidden c = false) rel).
Proof.
  induction tree as [sz|es IH] using node_rect'; intros top p.
  { split; [by intros ?%elem_of_nil|]. intros (rel & _ & H & _). inversion H. }
  rewrite iter_files_NDir, elem_of_app, list_elem_of_fmap, list_elem_of_bind. split.
  - intros [(fn & -> & Hfn)|([nm child] & Hp & Hin)].
    + apply list_elem_of_filter in Hfn as [Hvis Hfn].
      apply elem_of_filenames in Hfn as [sz Hfn].
      exists [fn]. split; [done|]. split; [by econstructor|].
      intros ->. constructor; [|done]. simpl in Hvis. by destruct (hidden fn).
    + destruct child as [sz|es']; [by apply elem_of_nil in Hp|]. simpl in Hp.
      destruct (keep_dir sh nm) eqn:Hk; [|by apply elem_of_nil in Hp].
      rewrite Forall_forall in IH. apply (IH _ Hin) in Hp as (rel & -> & Hrel & Hvis).
      exists (nm :: rel). split; [unfold PurePath.join; by rewrite <- app_assoc|].
      split; [by econstructor|]. intros ->. constructor; [|by apply Hvis].
      unfold keep_dir in Hk. simpl in Hk. by destruct (hidden nm).
  - intros (rel & -> & Hrel & Hvis). inversion Hrel as [es0 nm sz Hin|es0 nm es' rel' Hin Hsub]; subst.
    + left. exists nm. split; [done|]. apply list_elem_of_filter. split.
      * destruct sh; [|done]. specialize (Hvis eq_refl). apply Forall_cons in Hvis as [-> _].
        done.
      * apply elem_of_filenames. by exists sz.
    + right. exists (nm, NDir es'). split; [|done]. simpl.
      assert (keep_dir sh nm = true) as ->.
      { unfold keep_dir. destruct sh; [|done]. specialize (Hvis eq_refl).
        apply Forall_cons in Hvis as [-> _]. done. }
      rewrite Forall_forall in IH. apply (IH _ Hin). exists rel'.
      split; [unfold PurePath.join; by rewrite <- app_assoc|]. split; [done|].
      intros Hsh. specialize (Hvis Hsh). by apply Forall_cons in Hvis as [_ ?].
Qed.

Lemma has_file_nonempty tree rel : has_file tree rel → rel ≠ [].
Proof. by intros []. Qed.

Lemma iter_files_ne_root root tree sh :
  Forall (λ f, f ≠ root) (_iter_files root tree sh).
Proof.
  apply Forall_forall. intros f Hf. apply iter_files_has_file in Hf as (rel & -> & Hrel & _).
  apply has_file_nonempty in Hrel. intros H. apply (f_equal length) in H.
  rewrite length_app in H. destruct rel; [done|]. simpl in H. lia.
Qed.

(** X9: the candidates [_iter_files] yields are exactly the regular files
    below the root, reached through directories; with [skip_hidden],
    exactly those of them with no component below the root that starts
    with a dot. *)
Theorem iter_files_exactly (root : Path) (tree : node) (skip_hidden : bool) (p : Path) :
  p ∈ _iter_files root tree skip_hidden ↔
  ∃ rel, p = root ++ rel ∧ has_file tree rel
         ∧ (skip_hidden = true → Forall (λ c, hidden c = false) rel).
Proof. apply iter_files_has_file. Qed.

Lemma distinct_names_inv es :
  distinct_names (NDir es) → NoDup es.*1 ∧ Forall (λ e, distinct_names e.2) es.
Proof. by inversion 1. Qed.

Lemma NoDup_fst_inj {A B} (l : list (A * B)) x y1 y2 :
  NoDup l.*1 → (x, y1) ∈ l → (x, y2) ∈ l → y1 = y2.
Proof.
  induction l as [|[a b] l IH]; [by intros _ ?%elem_of_nil|].
  rewrite fmap_cons. intros [Hnin Hnd]%NoDup_cons [H1|H1]%elem_of_cons [H2|H2]%elem_of_cons.
  - congruence.
  - injection H1 as -> ->. destruct Hnin. apply list_elem_of_fmap. by exists (a, y2).
  - injection H2 as -> ->. destruct Hnin. apply list_elem_of_fmap. by exists (a, y1).
  - by apply IH.
Qed.

Lemma iter_files_distinct sh tree : ∀ top,
  distinct_names tree → NoDup (_iter_files top tree sh).
Proof.
  induction tree as [sz|es IH] using node_rect'; intros top Hd; [constructor|].
  apply distinct_names_inv in Hd as [Hnd Hsub].
  rewrite iter_files_NDir. apply NoDup_app. split_and!.
  - apply NoDup_fmap_2; [intros a b H; by apply (inj (app top)) in H as [= ->]|].
    apply NoDup_filter. unfold filenames. apply NoDup_fmap_2_strong.
    + intros [a1 b1] [a2 b2] H1%list_elem_of_filter H2%list_elem_of_filter Heq.
      simpl in Heq. subst a2. f_equal.
      by apply (NoDup_fst_inj es a1 b1 b2 Hnd); [apply H1|apply H2].
    + apply NoDup_filter. by apply NoDup_fmap_1 in Hnd.
  - intros p (fn & -> & _)%list_elem_of_fmap ([nm child] & Hp & Hin)%list_elem_of_bind.
    destruct (is_NDir child && keep_dir sh nm); [|by apply elem_of_nil in Hp].
    apply iter_files_has_file in Hp as (rel & Heq & Hrel%has_file_nonempty & _).
    apply (f_equal length) in Heq. unfold PurePath.join in Heq.
    rewrite !length_app in Heq. simpl in Heq. destruct rel; [done|]. simpl in Heq. lia.
  - apply NoDup_bind.
    + intros [nm1 c1] [nm2 c2] p H1 H2 Hp1 Hp2.
      destruct (is_NDir c1 && keep_dir sh nm1); [|by apply elem_of_nil in Hp1].
      destruct (is_NDir c2 && keep_dir sh nm2); [|by apply elem_of_nil in Hp2].
      apply iter_files_has_file in Hp1 as (rel1 & -> & _).
      apply iter_files_has_file in Hp2 as (rel2 & Heq & _).
      unfold PurePath.join in Heq. rewrite <- !app_assoc in Heq.
      apply (inj (app top)) in Heq. injection Heq as -> _. f_equal.
      by apply (NoDup_fst_inj es nm2 c1 c2 Hnd).
    + intros [nm child] Hin. destruct (is_NDir child && keep_dir sh nm); [|constructor].
      rewrite Forall_forall in IH, Hsub. apply (IH _ Hin). by apply (Hsub _ Hin).
    + by apply NoDup_fmap_1 in Hnd.
Qed.

(** X10: in a tree whose listings have distinct names, [_iter_files] yields
    every candidate once. *)
Theorem iter_files_once (root : Path) (tree : node) (skip_hidden : bool) :
  distinct_names tree → NoDup (_iter_files root tree skip_hidden).
Proof. apply iter_files_distinct. Qed.

Lemma iter_files_once_witness : NoDup (_iter_files demo_src demo_tree true).
Proof.
  apply (iter_files_once demo_src demo_tree true).
  repeat first [ apply distinct_dir | apply distinct_file | constructor
               | (cbn; apply (bool_decide_unpack _); vm_compute; exact I) ].
Defined.

(** ** What a run leaves on disk *)

Global Instance keeps_content_preorder : PreOrder keeps_content.
Proof.
  split; [by intros w q e|]. intros w1 w2 w3 H12 H23 q e Hq H.
  apply H23; [done|]. by apply H12.
Qed.

(** [mkdir] changes nothing that exists, whether it returns or raises. *)
Lemma mkdir_parents_extends target : ∀ todo done_ w r w',
  mkdir_parents target done_ todo w = (r, w') →
  ∀ q e, w_fs w !! q = Some e → w_fs w' !! q = Some e.
Proof.
  induction todo as [|c todo IH]; intros done_ w r w' H q e Hq; simpl in H; munfold.
  - by injection H as <- <-.
  - destruct (w_fs w !! (done_ // c)) as [[d|]|] eqn:E.
    + by injection H as <- <-.
    + by eapply IH.
    + eapply IH; [exact H|]. cbn [w_fs apply_event].
      rewrite lookup_insert_ne; [done|]. intros <-. congruence.
Qed.

(** [_write_atomic] changes nothing but the path it writes and the
    temporary sibling, whether it returns or raises. *)
Lemma _write_atomic_frame p data w r w' :
  _write_atomic p data w = (r, w') →
  ∀ q e, q ≠ p → q ≠ tmp_of p → w_fs w !! q = Some e → w_fs w' !! q = Some e.
Proof.
  rewrite _write_atomic_eq. intros H q e Hp Htmp Hq.
  destruct (mkdir (PurePath.parent p) w) as [[[]|e1] w1] eqn:Emk.
  2:{ injection H as <- <-. by eapply mkdir_parents_extends. }
  pose proof (mkdir_parents_extends _ _ _ _ _ _ Emk q e Hq) as Hq1.
  cbv zeta in H. case_decide; [by injection H as <- <-|].
  destruct (is_dir (w_fs w1) (tmp_of p)); [by injection H as <- <-|].
  destruct (is_dir (w_fs w1) p); injection H as <- <-; simpl.
  - by rewrite lookup_insert_ne.
  - by rewrite lookup_insert_ne, lookup_delete_ne.
Qed.

Lemma exists_false_lookup fs p : exists_ fs p = false → p ≠ [] ∧ fs !! p = None.
Proof.
  destruct p as [|c p]; [done|]. simpl. intros H%bool_decide_eq_false.
  split; [done|]. by apply eq_None_not_Some.
Qed.

Lemma _write_atomic_fresh p data w r w' :
  exists_ (w_fs w) p = false → _write_atomic p data w = (r, w') → keeps_content w w'.
Proof.
  intros [_ Hfree]%exists_false_lookup H q e Hq Hin.
  eapply _write_atomic_frame; [exact H| |apply Hq|done]. intros ->. congruence.
Qed.

Lemma _unique_path_fresh fs p : exists_ fs (_unique_path fs p) = false.
Proof.
  destruct (_unique_path_fuel_total fs p) as [q Hq].
  unfold _unique_path. rewrite Hq. simpl. unfold _unique_path_fuel in Hq.
  destruct (exists_ fs p) eqn:E; cbn [negb] in Hq.
  - by apply _unique_path_loop_Some in Hq as (k & _ & _ & Hfree & _).
  - by injection Hq as <-.
Qed.

Section Disk.
Variable convert_local : Path → result string.
Variables (src_root dest_root : Path).
Variables (include_ext exclude_ext : option (gset string)).
Variable on_conflict : ConflictPolicy.
Variable continue_on_error : bool.

#[local] Abbreviation body :=
  (process_file convert_local src_root dest_root include_ext exclude_ext
     on_conflict continue_on_error).
#[local] Abbreviation loop_ :=
  (loop convert_local src_root dest_root include_ext exclude_ext
     on_conflict continue_on_error).

(** The loop body writes to a path only when nothing is there. *)
Lemma process_file_keeps_content t f : preserves keeps_content (body t f).
Proof.
  intros w r w' H. rewrite process_file_eq in H.
  destruct (filtered _ _ _); [by injection H as <- <-|].
  destruct (_derive_output_path _ _ _) as [out_path|e]; [|by injection H as <- <-].
  cbv zeta in H.
  assert (keeps_content w (after_convert w f)) as Hc by (by intros q e).
  destruct (convert_local f) as [md_text|e]; [|by injection H as <- <-].
  destruct on_conflict.
  - destruct (_write_atomic _ md_text _) as [[[]|e] w2] eqn:Ew;
      injection H as <- <-; (etrans; [exact Hc|]);
      eapply _write_atomic_fresh; try exact Ew; apply _unique_path_fresh.
  - destruct (exists_ (w_fs (after_convert w f)) out_path) eqn:Ex;
      [by injection H as <- <-|].
    destruct (_write_atomic _ md_text _) as [[[]|e] w2] eqn:Ew;
      injection H as <- <-; (etrans; [exact Hc|]);
      eapply _write_atomic_fresh; try exact Ew; exact Ex.
Qed.

Lemma loop_keeps_content : ∀ files t, preserves keeps_content (loop_ t files).
Proof.
  induction files as [|f files IH]; intros t w r w' H.
  - simpl in H. munfold. by injection H as <- <-.
  - rewrite loop_cons in H.
    destruct (body t f w) as [[[t1 []]|e] w1] eqn:Ep;
      pose proof (process_file_keeps_content _ _ _ _ _ Ep) as H1.
    + etrans; [exact H1|]. by eapply IH.
    + by injection H as <- <-.
    + by injection H as <- <-.
Qed.

End Disk.

Section DiskRun.
Variable convert_local : Path → result string.
Variable _make_report : BulkResult → string.

(** X11: a run changes or removes nothing that was there before it
    started, whether it returns or raises, except the report
    [process_report.md] of the destination root and temporary siblings
    (paths of the form [tmp_of p]): outputs go to paths that were free. *)
Theorem run_never_overwrites (src : option node) (root : Path) (dest : option Path)
    (include_ext exclude_ext : option (gset string)) (on_conflict : ConflictPolicy)
    (continue_on_error : bool) (thresholds : option BulkConvertThresholds)
    (confirm : option (PreflightStats → BulkConvertThresholds → bool))
    (skip_hidden : bool) (fs : FS) (q : Path) (e : entry) :
  fs !! q = Some e →
  (∀ p, q ≠ tmp_of p) →
  q ≠ report_path (dest_root_of root dest) →
  w_fs (bulk_convert convert_local _make_report src root dest include_ext exclude_ext
          on_conflict continue_on_error thresholds confirm skip_hidden (start fs)).2 !! q
  = Some e.
Proof.
  intros Hq Htmp Hrep.
  destruct src as [[sz|es]|]; [done| |done].
  rewrite bulk_convert_stages. cbv zeta.
  destruct (mkdir (dest_root_of root dest) (start fs)) as [[[]|e0] w1] eqn:Emk;
    pose proof (mkdir_parents_extends _ _ _ _ _ _ Emk q e Hq) as Hq1; [|done].
  destruct (gate_passes _ _ confirm); [|done].
  unfold finish.
  destruct (loop _ _ _ _ _ _ _ _ _ _) as [[t|e1] w3] eqn:El;
    pose proof (loop_keeps_content _ _ _ _ _ _ _ _ _ _ _ _ El q e Htmp Hq1) as Hq3;
    [|done].
  destruct (_write_atomic _ _ w3) as [[[]|e2] w4] eqn:Ew; simpl;
    by eapply _write_atomic_frame.
Qed.

End DiskRun.

Lemma run_never_overwrites_witness :
  w_fs (demo_run rename true fs_existing).2 !! (demo_dest ++ ["a"; "f1.md"])
  = Some (File "old 1").
Proof.
  apply (run_never_overwrites demo_convert demo_report (Some demo_tree) demo_src
           (Some demo_dest) None None rename true None None true fs_existing).
  - reflexivity.
  - intros p Hp. apply (f_equal tmp_named) in Hp. rewrite tmp_named_tmp_of in Hp.
    vm_compute in Hp. discriminate.
  - vm_compute. discriminate.
Defined.

(** *** The outputs of the converted files *)

Lemma outcome_ok_impl cl src_root dest_root (free free' : Path → Prop)
    (holds holds' : Path → string → Prop) o :
  (∀ dest, PurePath.suffix dest = ".md" → free dest → free' dest) →
  (∀ dest md, PurePath.suffix dest = ".md" → holds dest md → holds' dest md) →
  outcome_ok cl src_root dest_root free holds o →
  outcome_ok cl src_root dest_root free' holds' o.
Proof.
  unfold outcome_ok. intros Hf Hh. destruct (fr_status o); [|done..].
  intros (dest & md & dir & ? & ? & ? & ? & ? & ? & ?). exists dest, md, dir.
  split_and!; auto.
Qed.

(** A path with the suffix [.md] is no temporary sibling. *)
Lemma suffix_md_not_tmp dest : PurePath.suffix dest = ".md" → ∀ p, dest ≠ tmp_of p.
Proof.
  intros Hs p ->. pose proof (tmp_named_tmp_of p) as Ht.
  unfold tmp_named in Ht. rewrite <- (stem_suffix (tmp_of p)), Hs in Ht.
  rewrite last_char_app in Ht by done. by apply bool_decide_eq_true in Ht.
Qed.

(** What [_derive_output_path] returns for a source other than the root. *)
Lemma _derive_output_path_Ok src root dest_root out :
  _derive_output_path src root dest_root = Ok out → src ≠ root →
  ∃ dir, PurePath.parent src = root ++ dir
    ∧ out = (dest_root ++ dir) // (PurePath.stem src +:+ ".md")
    ∧ PurePath.suffix out = ".md".
Proof.
  unfold _derive_output_path. intros H Hne.
  destruct (PurePath.relative_to src root) as [rel|] eqn:E; [|done].
  apply relative_to_Some in E as ->.
  destruct rel as [|nm dir _] using rev_ind; [by rewrite app_nil_r in Hne|].
  unfold with_suffix, PurePath.with_suffix in H.
  change (dir ++ [nm]) with (dir // nm) in H.
  assert (dest_root ++ dir // nm = (dest_root ++ dir) // nm) as Ht
    by (unfold PurePath.join; by rewrite (assoc_L (++))).
  assert (root ++ dir ++ [nm] = (root ++ dir) // nm) as Hs
    by (unfold PurePath.join; by rewrite (assoc_L (++))).
  rewrite Ht, name_join, parent_join in H. case_decide as Hnm; [done|].
  injection H as <-. exists dir. rewrite Hs, parent_join. split; [done|].
  assert (PurePath.stem ((dest_root ++ dir) // nm) = PurePath.stem ((root ++ dir) // nm))
    as -> by (unfold PurePath.stem; by rewrite !name_join).
  split; [done|].
  apply (suffix_of_name (dest_root ++ dir) _ "md"); [|done..].
  apply stem_nonempty. by rewrite name_join.
Qed.

Lemma candidate_parent_suffix fs p :
  PurePath.suffix p = ".md" →
  PurePath.parent (_unique_path fs p) = PurePath.parent p
  ∧ PurePath.suffix (_unique_path fs p) = ".md".
Proof.
  intros Hs. destruct (_unique_path_fuel_total fs p) as [q Hq].
  unfold _unique_path. rewrite Hq. simpl. unfold _unique_path_fuel in Hq.
  destruct (exists_ fs p) eqn:E; cbn [negb] in Hq; [|by injection Hq as <-].
  apply _unique_path_loop_Some in Hq as (k & _ & -> & _). rewrite parent_join.
  split; [done|]. rewrite Hs. unfold numbered_name.
  rewrite <- !str_app_assoc.
  apply (suffix_of_name _ _ "md"); [|done..].
  intros H. apply (f_equal String.length) in H. rewrite !str_len_app in H.
  simpl in H. lia.
Qed.

Section Outputs.
Variable convert_local : Path → result string.
Variables (src_root dest_root : Path).
Variables (include_ext exclude_ext : option (gset string)).
Variable on_conflict : ConflictPolicy.
Variable continue_on_error : bool.

#[local] Abbreviation body' :=
  (process_file convert_local src_root dest_root include_ext exclude_ext
     on_conflict continue_on_error).
#[local] Abbreviation loop'' :=
  (loop convert_local src_root dest_root include_ext exclude_ext
     on_conflict continue_on_error).

Lemma process_file_written t f w t' c w' :
  body' t f w = (Ok (t', c), w') → f ≠ src_root →
  ∃ o, results t' = results t ++ [o] ∧ fr_src o = f
       ∧ written_between convert_local src_root dest_root (w_fs w) (w_fs w') o.
Proof.
  intros H Hne. rewrite process_file_eq in H. unfold on_failure in H.
  destruct (filtered _ _ _); [injection H as <- <- <-; by eexists|].
  destruct (_derive_output_path _ _ _) as [out_path|e] eqn:Ed; [|done].
  apply _derive_output_path_Ok in Ed as (dir & Hdir & Hout & Hsuf); [|done].
  cbv zeta in H. change (w_fs (after_convert w f)) with (w_fs w) in H.
  destruct (convert_local f) as [md_text|e] eqn:Ec;
    [|injection H as <- <- <-; by eexists].
  assert (∀ final_out,
            exists_ (w_fs w) final_out = false →
            PurePath.parent final_out = dest_root ++ dir →
            PurePath.suffix final_out = ".md" →
            match _write_atomic final_out md_text (after_convert w f) with
            | (Ok _, w2) =>
                (Ok (record_converted t f final_out (_count_words_and_headings md_text).1
                       (_count_words_and_headings md_text).2, Continue), w2)
            | (Raise e, w2) =>
                (Ok (record_failed t f (str e),
                     if continue_on_error then Continue else Break), w2)
            end = (Ok (t', c), w') →
            ∃ o, results t' = results t ++ [o] ∧ fr_src o = f
                 ∧ written_between convert_local src_root dest_root (w_fs w) (w_fs w') o)
    as Hfin.
  { intros final_out Hfree Hpar Hsuf' H'.
    destruct (_write_atomic final_out md_text _) as [[[]|e] w2] eqn:Ew;
      injection H' as <- <- <-; [|by eexists].
    eexists. split; [done|]. split; [done|].
    unfold written_between, outcome_ok. simpl. exists final_out, md_text, dir.
    apply exists_false_lookup in Hfree as [_ Hfree].
    apply _write_atomic_Ok in Ew as (Hw & _). by split_and!. }
  destruct on_conflict.
  - apply (Hfin (_unique_path (w_fs w) out_path) (_unique_path_fresh _ _)); [| |exact H].
    + destruct (candidate_parent_suffix (w_fs w) out_path Hsuf) as [-> _].
      rewrite Hout. apply parent_join.
    + by destruct (candidate_parent_suffix (w_fs w) out_path Hsuf) as [_ ->].
  - destruct (exists_ (w_fs w) out_path) eqn:Ex;
      [injection H as <- <- <-; by eexists|].
    apply (Hfin out_path Ex); [|done|exact H]. rewrite Hout. apply parent_join.
Qed.

Lemma written_between_status cl fs fs' o dest :
  written_between cl src_root dest_root fs fs' o → fr_dest o = Some dest →
  PurePath.suffix dest = ".md" ∧ fs !! dest = None.
Proof.
  unfold written_between, outcome_ok. destruct (fr_status o); [|congruence..].
  intros (d & md & dir & Hd & _ & _ & _ & Hs & Hf & _) Ho.
  rewrite Hd in Ho. by injection Ho as <-.
Qed.

Lemma loop_written : ∀ files t w t' w',
  loop'' t files w = (Ok t', w') → Forall (λ f, f ≠ src_root) files →
  ∃ new, results t' = results t ++ new
    ∧ Forall (written_between convert_local src_root dest_root (w_fs w) (w_fs w')) new
    ∧ NoDup (omap fr_dest new).
Proof.
  induction files as [|f files IH]; intros t w t' w' H Hfiles.
  { simpl in H. munfold. injection H as <- <-. exists []. rewrite app_nil_r.
    split; [done|]. split; constructor. }
  apply Forall_cons in Hfiles as [Hf Hfiles]. rewrite loop_cons in H.
  destruct (body' t f w) as [[[t1 []]|e] w1] eqn:Ep; [| |done];
    pose proof (process_file_keeps_content _ _ _ _ _ _ _ _ _ _ _ _ Ep) as Hk1;
    apply process_file_written in Ep as (o & Hres & _ & Ho); try done.
  2:{ injection H as <- <-. exists [o]. split; [done|]. split; [by constructor|].
      simpl. destruct (fr_dest o); repeat constructor. by intros ?%elem_of_nil. }
  pose proof (loop_keeps_content _ _ _ _ _ _ _ _ _ _ _ _ H) as Hk2.
  apply IH in H as (new & Hnew & Hall & Hnd); [|done].
  exists (o :: new). rewrite Hnew, Hres, <- app_assoc. split; [done|]. split.
  - constructor.
    + revert Ho. apply outcome_ok_impl; [done|]. intros dest md Hs Hd.
      apply Hk2; [|done]. by apply suffix_md_not_tmp.
    + eapply Forall_impl; [exact Hall|]. intros o'.
      apply outcome_ok_impl; [|done]. intros dest Hs Hd.
      destruct (w_fs w !! dest) as [e|] eqn:E; [|done].
      apply Hk1 in E; [congruence|]. by apply suffix_md_not_tmp.
  - simpl. destruct (fr_dest o) as [dest|] eqn:Ed; [|done]. constructor; [|done].
    intros Hin. apply list_elem_of_omap in Hin as (o' & Ho' & Hd').
    rewrite Forall_forall in Hall.
    destruct (written_between_status _ _ _ _ _ (Hall _ Ho') Hd') as [_ Hfree].
    revert Ho. unfold written_between, outcome_ok.
    destruct (fr_status o); [|congruence..].
    intros (d & md & dir & Hd & _ & _ & _ & _ & _ & Hholds). congruence.
Qed.

End Outputs.

Section OutputsRun.
Variable convert_local : Path → result string.
Variable _make_report : BulkResult → string.

(** X12: in the result of a run that returns, every converted outcome
    names a destination with the suffix [.md] whose directory mirrors
    under the destination root the directory of the source under the root;
    that path was free before the run, no two outcomes name the same
    one, and after the run it holds the text the converter returned for
    the source, unless it is the path of the report, which holds the
    report.  Skipped and failed outcomes name no destination. *)
Theorem converted_outputs_on_disk (es : list (string * node)) (root : Path)
    (dest : option Path) (include_ext exclude_ext : option (gset string))
    (on_conflict : ConflictPolicy) (continue_on_error : bool)
    (thresholds : option BulkConvertThresholds)
    (confirm : option (PreflightStats → BulkConvertThresholds → bool))
    (skip_hidden : bool) (fs : FS) (r : BulkResult) :
  let dest_root := dest_root_of root dest in
  let run := bulk_convert convert_local _make_report (Some (NDir es)) root dest
               include_ext exclude_ext on_conflict continue_on_error thresholds
               confirm skip_hidden (start fs) in
  run.1 = Ok r →
  NoDup (omap fr_dest (br_files r))
  ∧ Forall (outcome_ok convert_local root dest_root
              (λ d, fs !! d = None)
              (λ d md_text, d ≠ report_path dest_root →
                            w_fs run.2 !! d = Some (File md_text)))
      (br_files r)
  ∧ w_fs run.2 !! report_path dest_root = Some (File (_make_report r)).
Proof.
  intros dest_root run. unfold run. clear run.
  destruct (bulk_convert _ _ _ _ _ _ _ _ _ _ _ _ _) as [r0 w'] eqn:E. simpl.
  intros ->. apply bulk_convert_Ok in E as (es' & w1 & w2 & t & w3 & E).
  cbv zeta in E. destruct E as (_ & Hmk & Hgate & Hloop & -> & Hrep).
  fold (dest_root_of root dest) in *. fold dest_root in Hmk, Hloop, Hrep |- *.
  assert (w_fs w2 = w_fs w1) as Hfs2.
  { rewrite gate_after_preflight in Hgate. by injection Hgate as _ <-. }
  apply loop_written in Hloop as (new & Hnew & Hall & Hnd);
    [|apply iter_files_ne_root].
  simpl in Hnew. simpl. rewrite Hnew. split; [done|]. split.
  - eapply Forall_impl; [exact Hall|]. intros o. apply outcome_ok_impl.
    + intros d _ Hd. rewrite Hfs2 in Hd.
      destruct (fs !! d) as [e|] eqn:Efs; [|done].
      apply (mkdir_parents_extends _ _ _ _ _ _ Hmk) in Efs. congruence.
    + intros d md Hs Hd Hne.
      eapply _write_atomic_frame; [exact Hrep|done| |done].
      by apply suffix_md_not_tmp.
  - by apply _write_atomic_Ok in Hrep as (? & _).
Qed.

End OutputsRun.

Lemma converted_outputs_on_disk_witness :
  w_fs (demo_run rename true ∅).2 !! report_path demo_dest
  = Some (File (demo_report demo_result))
  ∧ NoDup (omap fr_dest (br_files demo_result)).
Proof.
  assert ((demo_run rename true ∅).1 = Ok demo_result) as Hrun
    by (vm_compute; reflexivity).
  destruct (converted_outputs_on_disk demo_convert demo_report demo_entries demo_src
              (Some demo_dest) None None rename true None None true ∅ demo_result Hrun)
    as (H1 & _ & H3).
  split; [exact H3|exact H1].
Defined.

(** *** Nothing is written outside the destination *)

Global Instance keeps_outside_preorder d : PreOrder (keeps_outside d).
Proof.
  split; [by intros w p|]. intros w1 w2 w3 H12 H23 p H1 H2.
  by rewrite H23, H12.
Qed.

Lemma mkdir_keeps_outside d p r w w' :
  p `prefix_of` d ∨ d `prefix_of` p →
  mkdir p w = (r, w') → keeps_outside d w w'.
Proof.
  intros Hp H q Hq1 Hq2. apply mkdir_parents_log in H as (mk & _ & -> & Hmk).
  apply replay_frame. eapply Forall_impl; [apply Hmk|].
  intros ev (q' & -> & Hne & Hpre) ->. simpl in *. destruct Hp as [Hp|Hp].
  - apply Hq1. by etrans.
  - by destruct (prefix_weak_total _ _ _ Hpre Hp).
Qed.

Lemma _write_atomic_keeps_outside d p data :
  d `prefix_of` PurePath.parent p → preserves (keeps_outside d) (_write_atomic p data).
Proof.
  intros Hd w r w' H. rewrite _write_atomic_eq in H.
  destruct (mkdir (PurePath.parent p) w) as [[[]|e] w1] eqn:Emk;
    apply (mkdir_keeps_outside d) in Emk; [|by right|by injection H as <- <-|by right].
  cbv zeta in H. case_decide as Hn; [by injection H as <- <-|].
  assert (d `prefix_of` p) as Hp.
  { rewrite (path_parent_name p) by (by intros ->). by apply prefix_app_r. }
  assert (d `prefix_of` tmp_of p) as Ht by (by apply prefix_app_r).
  destruct (is_dir (w_fs w1) (tmp_of p)); [by injection H as <- <-|].
  destruct (is_dir (w_fs w1) p); injection H as <- <-;
    (etrans; [exact Emk|]); intros q Hq1 Hq2; simpl.
  - rewrite lookup_insert_ne; [done|]. by intros <-.
  - rewrite lookup_insert_ne, lookup_delete_ne; [done|by intros <-..].
Qed.

(** A path at or below a root that is not inside the destination, and
    that the destination is not inside, is outside the destination. *)
Lemma below_root_outside (root d p : Path) :
  ¬ root `prefix_of` d → ¬ d `prefix_of` root → root `prefix_of` p →
  ¬ p `prefix_of` d ∧ ¬ d `prefix_of` p.
Proof.
  intros H1 H2 Hp. split; intros H.
  - apply H1. by etrans.
  - by destruct (prefix_weak_total _ _ _ Hp H).
Qed.

Section Frame.
Variable convert_local : Path → result string.
Variable _make_report : BulkResult → string.

Lemma process_file_keeps_outside src_root dest_root inc exc pol coe t f :
  f ≠ src_root →
  preserves (keeps_outside dest_root)
    (process_file convert_local src_root dest_root inc exc pol coe t f).
Proof.
  intros Hne w r w' H. rewrite process_file_eq in H.
  destruct (filtered _ _ _); [by injection H as <- <-|].
  destruct (_derive_output_path _ _ _) as [out_path|e] eqn:Ed; [|by injection H as <- <-].
  apply _derive_output_path_Ok in Ed as (dir & Hdir & Hout & Hsuf); [|done].
  cbv zeta in H.
  assert (keeps_outside dest_root w (after_convert w f)) as Hc by (by intros q).
  destruct (convert_local f) as [md_text|e]; [|by injection H as <- <-].
  assert (∀ final_out, PurePath.parent final_out = dest_root ++ dir →
            preserves (keeps_outside dest_root) (_write_atomic final_out md_text)) as Hw.
  { intros fo Hpar. apply _write_atomic_keeps_outside. rewrite Hpar.
    by apply prefix_app_r. }
  destruct pol.
  - destruct (_write_atomic _ md_text _) as [[[]|e] w2] eqn:Ew;
      injection H as <- <-; (etrans; [exact Hc|]); (eapply Hw; [|exact Ew]);
      destruct (candidate_parent_suffix (w_fs (after_convert w f)) out_path Hsuf)
        as [-> _]; rewrite Hout; apply parent_join.
  - destruct (exists_ (w_fs (after_convert w f)) out_path);
      [by injection H as <- <-|].
    destruct (_write_atomic _ md_text _) as [[[]|e] w2] eqn:Ew;
      injection H as <- <-; (etrans; [exact Hc|]); (eapply Hw; [|exact Ew]);
      rewrite Hout; apply parent_join.
Qed.

Lemma loop_keeps_outside src_root dest_root inc exc pol coe : ∀ files t,
  Forall (λ f, f ≠ src_root) files →
  preserves (keeps_outside dest_root)
    (loop convert_local src_root dest_root inc exc pol coe t files).
Proof.
  induction files as [|f files IH]; intros t Hfiles w r w' H.
  - simpl in H. munfold. by injection H as <- <-.
  - apply Forall_cons in Hfiles as [Hf Hfiles]. rewrite loop_cons in H.
    destruct (process_file _ _ _ _ _ _ _ t f w) as [[[t1 []]|e] w1] eqn:Ep;
      apply process_file_keeps_outside in Ep; try done.
    + etrans; [exact Ep|]. by eapply IH.
    + by injection H as <- <-.
    + by injection H as <- <-.
Qed.

(** A run, however it ends, changes nothing outside the destination
    root. *)
Lemma bulk_convert_keeps_outside src root dest include_ext exclude_ext on_conflict
    continue_on_error thresholds confirm skip_hidden w :
  keeps_outside (dest_root_of root dest) w
    (bulk_convert convert_local _make_report src root dest include_ext exclude_ext
       on_conflict continue_on_error thresholds confirm skip_hidden w).2.
Proof.
  destruct src as [[sz|es]|]; [done| |done].
  rewrite bulk_convert_stages. cbv zeta.
  set (dest_root := dest_root_of root dest).
  destruct (mkdir dest_root w) as [[[]|e0] w1] eqn:Emk;
    apply (mkdir_keeps_outside dest_root) in Emk; [|by left|done|by left].
  destruct (gate_passes _ _ confirm); [|done].
  etrans; [exact Emk|]. unfold finish.
  destruct (loop _ _ _ _ _ _ _ _ _ _) as [[t|e1] w3] eqn:El;
    apply loop_keeps_outside in El; [| |done|]; try apply iter_files_ne_root.
  destruct (_write_atomic _ _ w3) as [[[]|e2] w4] eqn:Ew;
    apply (_write_atomic_keeps_outside dest_root) in Ew;
    try (by rewrite parent_join); simpl; by etrans.
Qed.

End Frame.

(** ** The calls of the converter *)





Section Calls.
Variable convert_local : Path → result string.
Variables (src_root dest_root : Path).
Variables (include_ext exclude_ext : option (gset string)).
Variable on_conflict : ConflictPolicy.
Variable continue_on_error : bool.

#[local] Abbreviation body_c :=
  (process_file convert_local src_root dest_root include_ext exclude_ext
     on_conflict continue_on_error).
#[local] Abbreviation loop_c :=
  (loop convert_local src_root dest_root include_ext exclude_ext
     on_conflict continue_on_error).



End Calls.

Section CallsRun.
Variable convert_local : Path → result string.
Variable _make_report : BulkResult → string.


End CallsRun.


(** ** The preflight and the outcomes *)

Section PreflightRun.
Variable convert_local : Path → result string.
Variable _make_report : BulkResult → string.


End PreflightRun.


Lemma sum_list_Z_filter_le {A} (f : A → Z) (P : A → Prop) `{!∀ x, Decision (P x)}
    (l : list A) :
  (∀ x, 0 ≤ f x) → sum_list_Z (f <$> filter P l) ≤ sum_list_Z (f <$> l).
Proof.
  intros Hf. induction l as [|x l IH]; [done|].
  rewrite filter_cons, fmap_cons, sum_list_Z_cons. specialize (Hf x).
  case_decide; [rewrite fmap_cons, sum_list_Z_cons|]; lia.
Qed.

(** X16: leaving hidden entries out can only lower the preflight
    statistics: fewer directories and files are counted, and, sizes
    being non-negative, fewer bytes; so a tree that exceeds a threshold
    without its hidden entries exceeds it with them. *)
Theorem preflight_hidden_monotone (root : Path) (tree : node) :
  let shown := _preflight root tree false in
  let pruned := _preflight root tree true in
  ps_dirs pruned ≤ ps_dirs shown
  ∧ ps_files pruned ≤ ps_files shown
  ∧ ((∀ p, 0 ≤ counted_size root tree p) →
     ps_bytes pruned ≤ ps_bytes shown
     ∧ ∀ th, exceeded pruned th = true → exceeded shown th = true).
Proof.
  intros shown pruned. unfold shown, pruned. rewrite !preflight_counts.
  cbn [ps_dirs ps_files ps_bytes]. rewrite os_walk_pruned_root, iter_files_pruned.
  assert (∀ {A} (P : A → Prop) `{!∀ x, Decision (P x)} (l : list A),
            Z.of_nat (length (filter P l)) ≤ Z.of_nat (length l)) as Hlen.
  { intros A P ? l. pose proof (length_filter P l). lia. }
  split; [apply Hlen|]. split; [apply Hlen|]. intros Hsz.
  pose proof (sum_list_Z_filter_le (counted_size root tree) (λ p, visible root p)
                (_iter_files root tree false) Hsz) as Hb.
  split; [done|]. intros th. unfold exceeded. cbn [ps_dirs ps_files ps_bytes].
  rewrite !orb_true_iff, !bool_decide_eq_true.
  pose proof (Hlen _ (λ x : Path * list string * list string, visible root x.1.1) _
                (os_walk (keep_dir false) root tree)).
  pose proof (Hlen _ (λ p, visible root p) _ (_iter_files root tree false)).
  lia.
Qed.

Lemma preflight_hidden_monotone_witness :
  ps_bytes (_preflight demo_src demo_tree true)
  ≤ ps_bytes (_preflight demo_src demo_tree false).
Proof.
  destruct (preflight_hidden_monotone demo_src demo_tree) as (_ & _ & H).
  apply H. intros p. unfold counted_size, os_stat.
  destruct (PurePath.relative_to p demo_src ≫= lookup_node demo_tree) as [[[sz|]|?]|] eqn:E;
    simpl; try lia.
  destruct (PurePath.relative_to p demo_src) as [rel|]; [|done]. simpl in E.
  destruct rel as [|c1 [|c2 [|c3 rel]]]; simpl in E; try done;
    repeat (case_decide; simpl in E; try done);
    try (injection E as <-; lia).
  all: repeat (case_decide; simpl in E; try done); try (injection E as <-; lia).
Defined.

(** ** Counting over joined texts *)

Lemma split_go_app (a b : string) (c : ascii) :
  Str.isspace c = true →
  ∀ tok, split_go tok (a +:+ String c b) = split_go tok a ++ split_go "" b.
Proof.
  intros Hc. induction a as [|x a IH]; intros tok.
  - rewrite str_app_nil_l. simpl. rewrite Hc. by case_decide.
  - rewrite str_app_cons. simpl. destruct (Str.isspace x).
    + case_decide; by rewrite IH.
    + apply IH.
Qed.

Lemma splitlines_go_app (a b : string) :
  ∀ line after_cr, (after_cr = true → line = "") →
  filter (λ l, is_heading l) (splitlines_go line after_cr (a +:+ String "010" b))
  = filter (λ l, is_heading l) (splitlines_go line after_cr a)
    ++ filter (λ l, is_heading l) (splitlines b).
Proof.
  induction a as [|x a IH]; intros line after_cr Hcr.
  - rewrite str_app_nil_l. simpl. destruct after_cr; simpl.
    + by rewrite (Hcr eq_refl).
    + destruct (decide (line = "")) as [->|Hl].
      * rewrite filter_cons. by case_decide as Hh; [vm_compute in Hh|].
      * rewrite !filter_cons, filter_nil. by case_decide.
  - rewrite str_app_cons. simpl.
    destruct (after_cr && bool_decide (x = "010"%char)); [by apply IH|].
    destruct (Str.islinebreak x).
    + rewrite !filter_cons. rewrite IH by done. by case_decide.
    + by apply IH.
Qed.

(** X17: the counts are additive over texts joined by a newline: the words
    and the headings of [a], a line feed and [b] are those of [a] plus
    those of [b]. *)
Theorem counts_additive (a b : string) :
  _count_words_and_headings (a +:+ String "010" b)
  = ((_count_words_and_headings a).1 + (_count_words_and_headings b).1,
     (_count_words_and_headings a).2 + (_count_words_and_headings b).2).
Proof.
  unfold _count_words_and_headings. cbn [fst snd]. unfold split, splitlines at 1 2.
  rewrite split_go_app by done. rewrite splitlines_go_app by done.
  rewrite !length_app. f_equal; lia.
Qed.

Lemma all_space_not_heading line : all_space line = true → is_heading line = false.
Proof.
  unfold is_heading. induction line as [|x line IH]; [done|]. simpl.
  intros [-> Hl]%andb_true_iff. by apply IH.
Qed.

Lemma all_space_snoc line c :
  all_space line = true → Str.isspace c = true → all_space (line +:+ String c "") = true.
Proof.
  intros Hl Hc. induction line as [|x line IH].
  - rewrite str_app_nil_l. simpl. by rewrite Hc.
  - simpl in Hl. apply andb_true_iff in Hl as [Hx Hl]. rewrite str_app_cons. simpl.
    by rewrite Hx, IH.
Qed.

Lemma splitlines_go_blank s : ∀ line cr,
  all_space line = true → all_space s = true →
  filter (λ l, is_heading l) (splitlines_go line cr s) = [].
Proof.
  induction s as [|c s IH]; intros line cr Hl Hs; simpl.
  - case_decide; [done|]. rewrite filter_cons, filter_nil.
    case_decide as Hh; [|done]. by rewrite all_space_not_heading in Hh.
  - simpl in Hs. apply andb_true_iff in Hs as [Hc Hs].
    destruct (cr && bool_decide (c = "010"%char)); [by apply IH|].
    destruct (Str.islinebreak c).
    + rewrite filter_cons, IH by done.
      case_decide as Hh; [|done]. by rewrite all_space_not_heading in Hh.
    + apply IH; [|done]. by apply all_space_snoc.
Qed.

(** X18: a text has no word exactly when it is empty or all white space,
    and then it has no heading either. *)
Theorem no_words_iff_blank (s : string) :
  ((_count_words_and_headings s).1 = 0 ↔ all_space s = true)
  ∧ (all_space s = true → (_count_words_and_headings s).2 = 0).
Proof.
  unfold _count_words_and_headings. cbn [fst snd]. split; [split|].
  - intros H. pose proof (split_tokens s) as Ht.
    destruct (split s); [|simpl in H; lia]. by inversion Ht.
  - intros H. by rewrite <- (tokens_of_split s [] (tokens_none s H)).
  - intros H. unfold splitlines. by rewrite splitlines_go_blank.
Qed.

Lemma no_words_iff_blank_witness :
  (_count_words_and_headings (String "009" (String "010" " "))).2 = 0.
Proof.
  apply (proj2 (no_words_iff_blank (String "009" (String "010" " ")))).
  reflexivity.
Defined.

(** ** The report *)

(** *** Dictionaries in insertion order *)

Section Dict.
Context {K V : Type} `{EqDecision K}.

Lemma dict_get_update (dflt : V) (f : V → V) (k k' : K) (d : list (K * V)) :
  dict_get dflt k (dict_update dflt f k' d)
  = if decide (k = k') then f (dict_get dflt k d) else dict_get dflt k d.
Proof.
  induction d as [|[k0 v] d IH]; simpl.
  - case_decide as H1; case_decide as H2; congruence.
  - destruct (decide (k0 = k')) as [->|Hne]; simpl.
    + destruct (decide (k' = k)) as [->|]; [by rewrite decide_True|].
      by rewrite decide_False by done.
    + destruct (decide (k0 = k)) as [->|]; [by rewrite decide_False by done|].
      apply IH.
Qed.

Lemma dict_update_keys (dflt : V) (f : V → V) (k : K) (d : list (K * V)) :
  (dict_update dflt f k d).*1 = d.*1 ++ (if decide (k ∈ d.*1) then [] else [k]).
Proof.
  induction d as [|[k0 v] d IH].
  - destruct (decide (k ∈ [])) as [Hin|Hin]; [by apply elem_of_nil in Hin|done].
  - cbn [dict_update]. destruct (decide (k0 = k)) as [->|Hne]; rewrite !fmap_cons; cbn [fst].
    + rewrite decide_True by left. by rewrite app_nil_r.
    + rewrite IH, <- app_comm_cons. f_equal. f_equal.
      destruct (decide (k ∈ d.*1)) as [Hin|Hin].
      * rewrite decide_True; [done|by right].
      * rewrite decide_False; [done|]. intros [?|?]%elem_of_cons; [congruence|done].
Qed.

Lemma dict_update_NoDup (dflt : V) (f : V → V) (k : K) (d : list (K * V)) :
  NoDup d.*1 → NoDup (dict_update dflt f k d).*1.
Proof.
  intros Hnd. rewrite dict_update_keys. case_decide; [by rewrite app_nil_r|].
  apply NoDup_app. split; [done|]. split; [|apply NoDup_singleton].
  intros x Hx ->%list_elem_of_singleton. done.
Qed.

End Dict.

Lemma dict_add_values {K} `{EqDecision K} (k : K) (n : Z) (d : list (K * Z)) :
  sum_list_Z (dict_add k n d).*2 = sum_list_Z d.*2 + n.
Proof.
  unfold dict_add. induction d as [|[k0 v] d IH]; [unfold sum_list_Z; simpl; lia|].
  cbn [dict_update]. case_decide; rewrite !fmap_cons, !sum_list_Z_cons; cbn [snd]; lia.
Qed.

Lemma dict_add_keys {K} `{EqDecision K} (k : K) (n : Z) (d : list (K * Z)) :
  (dict_add k n d).*1 = d.*1 ++ (if decide (k ∈ d.*1) then [] else [k]).
Proof. apply dict_update_keys. Qed.

Lemma dict_add_NoDup {K} `{EqDecision K} (k : K) (n : Z) (d : list (K * Z)) :
  NoDup d.*1 → NoDup (dict_add k n d).*1.
Proof. apply dict_update_NoDup. Qed.

(** *** The sort *)

Lemma insert_sorted_perm {A} (le : A → A → bool) x l : insert_sorted le x l ≡ₚ x :: l.
Proof.
  induction l as [|y l IH]; simpl; [done|]. destruct (le x y); [done|].
  rewrite IH. apply Permutation_swap.
Qed.

Lemma sorted_perm {A} (le : A → A → bool) l : sorted le l ≡ₚ l.
Proof.
  induction l as [|x l IH]; [done|]. simpl. fold (sorted le l).
  by rewrite insert_sorted_perm, IH.
Qed.

Lemma insert_sorted_Sorted {A} (le : A → A → bool) x l :
  (∀ a b, le a b = true ∨ le b a = true) →
  Sorted (λ a b, le a b) l → Sorted (λ a b, le a b) (insert_sorted le x l).
Proof.
  intros Htot. induction 1 as [|y l Hs IH Hhd]; simpl; [by repeat constructor|].
  destruct (le x y) eqn:E.
  - constructor; [by constructor|]. constructor. by rewrite E.
  - constructor; [done|]. destruct (Htot x y) as [?|Hyx]; [congruence|].
    destruct Hhd as [|z l Hz]; simpl.
    + constructor. by rewrite Hyx.
    + destruct (le x z); constructor; [by rewrite Hyx|done].
Qed.

Lemma sorted_Sorted {A} (le : A → A → bool) l :
  (∀ a b, le a b = true ∨ le b a = true) → Sorted (λ a b, le a b) (sorted le l).
Proof.
  intros Htot. induction l as [|x l IH]; [constructor|]. simpl.
  by apply insert_sorted_Sorted.
Qed.

(** *** The first loop of [_make_report] *)

Lemma report_acc_snoc l o :
  foldl report_step report_acc0 (l ++ [o])
  = report_step (foldl report_step report_acc0 l) o.
Proof. by rewrite foldl_app. Qed.

Lemma reported_in_snoc d l o :
  reported_in d (l ++ [o])
  = reported_in d l
    ++ (if decide (reported o ∧ PurePath.parent (fr_src o) = d) then [o] else []).
Proof.
  unfold reported_in. by rewrite filter_app.
Qed.

Lemma report_step_cases acc o :
  (reported o
   ∧ per_dir_docs (report_step acc o)
     = dict_add (PurePath.parent (fr_src o)) 1 (per_dir_docs acc)
   ∧ per_dir_counts (report_step acc o)
     = dict_update [] (dict_add (_ext_of (fr_src o)) 1) (PurePath.parent (fr_src o))
         (per_dir_counts acc)
   ∧ per_dir_words (report_step acc o)
     = (if truthy (fr_words o)
        then dict_add (PurePath.parent (fr_src o)) (default 0 (fr_words o))
               (per_dir_words acc)
        else per_dir_words acc)
   ∧ per_dir_headings (report_step acc o)
     = (if truthy (fr_headings o)
        then dict_add (PurePath.parent (fr_src o)) (default 0 (fr_headings o))
               (per_dir_headings acc)
        else per_dir_headings acc)
   ∧ errors (report_step acc o) = errors acc)
  ∨ (¬ reported o
     ∧ per_dir_docs (report_step acc o) = per_dir_docs acc
     ∧ per_dir_counts (report_step acc o) = per_dir_counts acc
     ∧ per_dir_words (report_step acc o) = per_dir_words acc
     ∧ per_dir_headings (report_step acc o) = per_dir_headings acc
     ∧ errors (report_step acc o)
       = errors acc
         ++ (if decide (fr_status o = failed)
             then [(fr_src o, reason_or_unknown (fr_reason o))] else [])).
Proof.
  unfold report_step, reported.
  destruct (bool_decide (fr_status o = converted) && bool_decide (is_Some (fr_dest o)))
    eqn:E.
  - left. apply andb_true_iff in E as [H1%bool_decide_eq_true H2%bool_decide_eq_true].
    by split_and!.
  - right. split.
    { intros [H1 H2]. apply andb_false_iff in E as [E|E];
        apply bool_decide_eq_false in E; done. }
    destruct (decide (fr_status o = failed)) as [Hf|Hf].
    + rewrite bool_decide_eq_true_2 by done. by split_and!.
    + rewrite bool_decide_eq_false_2 by done. rewrite app_nil_r. by split_and!.
Qed.

Lemma truthy_default x : truthy x = false → default 0 x = 0.
Proof.
  destruct x as [n|]; [|done]. simpl. intros H%bool_decide_eq_false. lia.
Qed.

Lemma dict_get_add {K} `{EqDecision K} (k k' : K) n (d : list (K * Z)) :
  dict_get 0 k (dict_add k' n d) = dict_get 0 k d + (if decide (k = k') then n else 0).
Proof. unfold dict_add. rewrite dict_get_update. case_decide; lia. Qed.

Lemma dict_get_add_if {K} `{EqDecision K} (k k' : K) (x : option Z) (d : list (K * Z)) :
  dict_get 0 k (if truthy x then dict_add k' (default 0 x) d else d)
  = dict_get 0 k d + (if decide (k = k') then default 0 x else 0).
Proof.
  destruct (truthy x) eqn:E; [apply dict_get_add|].
  rewrite (truthy_default _ E). case_decide; lia.
Qed.

(** What the dictionaries hold after the loop over [l]. *)
Lemma report_acc_spec (l : list BulkFileResult) (d : Path) :
  let acc := foldl report_step report_acc0 l in
  dict_get 0 d (per_dir_docs acc) = Z.of_nat (length (reported_in d l))
  ∧ dict_get 0 d (per_dir_words acc)
    = sum_list_Z ((λ o, default 0 (fr_words o)) <$> reported_in d l)
  ∧ dict_get 0 d (per_dir_headings acc)
    = sum_list_Z ((λ o, default 0 (fr_headings o)) <$> reported_in d l)
  ∧ (∀ ext, dict_get 0 ext (dict_get [] d (per_dir_counts acc))
            = Z.of_nat (length (filter (λ o, _ext_of (fr_src o) = ext) (reported_in d l))))
  ∧ (d ∈ (per_dir_docs acc).*1 ↔ reported_in d l ≠ [])
  ∧ NoDup (per_dir_docs acc).*1.
Proof.
  induction l as [|o l IH] using rev_ind.
  { simpl. split_and!; try done. - split; [by intros ?%elem_of_nil|done]. - constructor. }
  cbv zeta in *. rewrite report_acc_snoc, reported_in_snoc.
  destruct IH as (IH1 & IH2 & IH3 & IH4 & IH5 & IH6).
  destruct (report_step_cases (foldl report_step report_acc0 l) o)
    as [(Hrep & -> & -> & -> & -> & _)|(Hrep & -> & -> & -> & -> & _)].
  - rewrite dict_get_add, !dict_get_add_if, dict_get_update, IH1, IH2, IH3.
    rewrite dict_add_keys.
    destruct (decide (d = PurePath.parent (fr_src o))) as [->|Hne].
    + rewrite (decide_True (P := reported o ∧ _)) by done.
      rewrite !fmap_app, !sum_list_Z_app, length_app. simpl. split_and!; try lia.
      * intros ext. rewrite dict_get_add, IH4, filter_app, length_app.
        rewrite filter_cons, filter_nil.
        destruct (decide (ext = _ext_of (fr_src o))) as [->|Hext].
        -- rewrite decide_True by done. simpl. lia.
        -- rewrite decide_False by done. simpl. lia.
      * split; [intros _ H; by apply app_eq_nil in H as [_ ?]|]. intros _. apply elem_of_app.
        case_decide; [by left|right; by left].
      * rewrite <- (dict_add_keys _ 1). by apply dict_add_NoDup.
    + rewrite (decide_False (P := reported o ∧ _)) by (intros [_ ?]; done).
      rewrite !app_nil_r. split_and!; try lia; try done.
      * rewrite elem_of_app, IH5. split; [|by left].
        intros [?|Hin]; [done|]. case_decide; [by apply elem_of_nil in Hin|].
        by apply list_elem_of_singleton in Hin.
      * rewrite <- (dict_add_keys _ 1). by apply dict_add_NoDup.
  - rewrite (decide_False (P := reported o ∧ _)) by (intros [? _]; done).
    rewrite !app_nil_r. by split_and!.
Qed.

(** X19: the numbers of a directory of the report: [Documents] is the
    number of converted outcomes whose source lies in it, [Words] and
    [Headings] are the sums of their counts, and the number shown for an
    extension is the number of those of them with that extension. *)
Theorem report_per_directory (result : BulkResult) (d : Path) :
  let acc := report_acc_of result in
  let here := reported_in d (br_files result) in
  dict_get 0 d (per_dir_docs acc) = Z.of_nat (length here)
  ∧ dict_get 0 d (per_dir_words acc) = sum_list_Z ((λ o, default 0 (fr_words o)) <$> here)
  ∧ dict_get 0 d (per_dir_headings acc)
    = sum_list_Z ((λ o, default 0 (fr_headings o)) <$> here)
  ∧ ∀ ext, dict_get 0 ext (dict_get [] d (per_dir_counts acc))
           = Z.of_nat (length (filter (λ o, _ext_of (fr_src o) = ext) here)).
Proof.
  intros acc here.
  destruct (report_acc_spec (br_files result) d) as (H1 & H2 & H3 & H4 & _).
  by split_and!.
Qed.

Lemma path_le_total p q : path_le p q = true ∨ path_le q p = true.
Proof. apply String.leb_total. Qed.

(** X20: the report has one section for every directory that holds the
    source of a converted outcome, and for no other; the sections come in
    the order of the path strings, each directory once. *)
Theorem report_sections (result : BulkResult) :
  let dirs := report_dirs (report_acc_of result) in
  (∀ d, d ∈ dirs ↔ reported_in d (br_files result) ≠ [])
  ∧ NoDup dirs
  ∧ Sorted (λ p q, path_le p q) dirs.
Proof.
  intros dirs. unfold dirs, report_dirs. split_and!.
  - intros d. rewrite sorted_perm.
    by destruct (report_acc_spec (br_files result) d) as (_ & _ & _ & _ & H & _).
  - rewrite sorted_perm.
    by destruct (report_acc_spec (br_files result) []) as (_ & _ & _ & _ & _ & H).
  - apply sorted_Sorted, path_le_total.
Qed.

(** *** The report of a run *)

Lemma report_acc_totals (l : list BulkFileResult) :
  let acc := foldl report_step report_acc0 l in
  sum_list_Z (per_dir_docs acc).*2 = Z.of_nat (length (filter reported l))
  ∧ sum_list_Z (per_dir_words acc).*2
    = sum_list_Z ((λ o, default 0 (fr_words o)) <$> filter reported l)
  ∧ sum_list_Z (per_dir_headings acc).*2
    = sum_list_Z ((λ o, default 0 (fr_headings o)) <$> filter reported l)
  ∧ errors acc
    = (λ o, (fr_src o, reason_or_unknown (fr_reason o)))
        <$> filter (λ o, fr_status o = failed) l.
Proof.
  assert (∀ x, sum_list_Z [x] = x) as Hone by (intros; unfold sum_list_Z; simpl; lia).
  induction l as [|o l IH] using rev_ind; [done|].
  cbv zeta in *. rewrite report_acc_snoc, !filter_app, !fmap_app, !sum_list_Z_app, length_app.
  destruct IH as (IH1 & IH2 & IH3 & IH4).
  rewrite !filter_cons, !filter_nil.
  destruct (report_step_cases (foldl report_step report_acc0 l) o)
    as [(Hrep & -> & _ & -> & -> & ->)|(Hrep & -> & _ & -> & -> & ->)].
  - rewrite (decide_True (P := reported o)) by done.
    rewrite (decide_False (P := fr_status o = failed)) by (destruct Hrep; congruence).
    rewrite dict_add_values, IH1, IH4, app_nil_r.
    rewrite !fmap_cons, !fmap_nil, !Hone.
    split_and!; [simpl; lia| | |done].
    + destruct (truthy (fr_words o)) eqn:E.
      * rewrite dict_add_values, IH2. lia.
      * rewrite IH2, (truthy_default _ E). lia.
    + destruct (truthy (fr_headings o)) eqn:E.
      * rewrite dict_add_values, IH3. lia.
      * rewrite IH3, (truthy_default _ E). lia.
  - rewrite (decide_False (P := reported o)) by done.
    rewrite IH1, IH2, IH3, IH4. rewrite !fmap_nil.
    split_and!; [simpl; lia|unfold sum_list_Z; simpl; lia|unfold sum_list_Z; simpl; lia|].
    f_equal. by case_decide.
Qed.

Lemma filter_ext_Forall {A} (P Q : A → Prop) `{!∀ x, Decision (P x)}
    `{!∀ x, Decision (Q x)} (l : list A) :
  Forall (λ x, P x ↔ Q x) l → filter P l = filter Q l.
Proof.
  induction 1 as [|x l Hx _ IH]; [done|]. rewrite !filter_cons, IH.
  destruct (decide (P x)), (decide (Q x)); tauto.
Qed.

Section ReportRun.
Variable convert_local : Path → result string.

(** X21: the report a run writes agrees with the result it returns: the
    file [process_report.md] holds the report of that result; the
    documents, words and headings of its directories add up to the
    counters of the result; its errors are the failed outcomes in their
    order, each with its reason, and it has no errors section exactly
    when nothing failed. *)
Theorem report_agrees_with_run (es : list (string * node)) (root : Path)
    (dest : option Path) (include_ext exclude_ext : option (gset string))
    (on_conflict : ConflictPolicy) (continue_on_error : bool)
    (thresholds : option BulkConvertThresholds)
    (confirm : option (PreflightStats → BulkConvertThresholds → bool))
    (skip_hidden : bool) (fs : FS) (r : BulkResult) :
  let run := bulk_convert convert_local _make_report (Some (NDir es)) root dest
               include_ext exclude_ext on_conflict continue_on_error thresholds
               confirm skip_hidden (start fs) in
  let acc := report_acc_of r in
  run.1 = Ok r →
  w_fs run.2 !! report_path (dest_root_of root dest) = Some (File (_make_report r))
  ∧ sum_list_Z (per_dir_docs acc).*2 = br_converted r
  ∧ sum_list_Z (per_dir_words acc).*2 = br_total_words r
  ∧ sum_list_Z (per_dir_headings acc).*2 = br_total_headings r
  ∧ errors acc
    = (λ o, (fr_src o, reason_or_unknown (fr_reason o)))
        <$> filter (λ o, fr_status o = failed) (br_files r)
  ∧ (error_lines acc = [] ↔ br_failed r = 0).
Proof.
  intros run acc. unfold run, acc. clear run acc.
  destruct (bulk_convert _ _ _ _ _ _ _ _ _ _ _ _ _) as [r0 w'] eqn:E. simpl.
  intros ->. apply bulk_convert_Ok in E as (es' & w1 & w2 & t & w3 & E).
  cbv zeta in E. destruct E as (_ & _ & _ & Hloop & -> & Hrep).
  split; [by apply _write_atomic_Ok in Hrep as (? & _)|].
  pose proof (loop_results _ _ _ _ _ _ _ _ _ _ _ _ Hloop) as (Hc & _).
  destruct (Hc tally_consistent_0) as (H1 & _ & H3 & H4 & H5).
  apply loop_written in Hloop as (new & Hnew & Hall & _); [|apply iter_files_ne_root].
  simpl in Hnew.
  assert (filter reported (results t) = filter (λ o, fr_status o = converted) (results t))
    as Hfilter.
  { rewrite Hnew. apply filter_ext_Forall. eapply Forall_impl; [exact Hall|].
    intros o Ho. unfold reported. split; [by intros [? _]|]. intros Hs. split; [done|].
    revert Ho. unfold written_between, outcome_ok. rewrite Hs.
    intros (d & ? & ? & -> & _). by eexists. }
  destruct (report_acc_totals (results t)) as (T1 & T2 & T3 & T4).
  unfold report_acc_of. cbn [br_files br_converted br_total_words br_total_headings
                            br_failed bulk_of].
  rewrite T1, T2, T3, T4, Hfilter, H1, H4, H5, H3. split_and!; try done.
  unfold error_lines. rewrite T4. unfold count_status.
  destruct (filter (λ o, fr_status o = failed) (results t)) as [|o l]; simpl; [done|].
  split; [done|lia].
Qed.

End ReportRun.

Lemma report_agrees_with_run_witness :
  ∃ r, (bulk_convert demo_convert _make_report (Some demo_tree) demo_src (Some demo_dest)
          None None rename true None None true (start ∅)).1 = Ok r
       ∧ sum_list_Z (per_dir_docs (report_acc_of r)).*2 = 2
       ∧ errors (report_acc_of r) = [(demo_f2, "cannot convert")].
Proof.
  exists demo_result.
  assert ((bulk_convert demo_convert _make_report (Some demo_tree) demo_src (Some demo_dest)
             None None rename true None None true (start ∅)).1 = Ok demo_result) as Hrun
    by (vm_compute; reflexivity).
  split; [exact Hrun|].
  destruct (report_agrees_with_run demo_convert demo_entries demo_src (Some demo_dest)
              None None rename true None None true ∅ demo_result Hrun)
    as (_ & H2 & _ & _ & H5 & _).
  split; [exact H2|]. etrans; [exact H5|]. vm_compute. reflexivity.
Defined.

(** The report of the example run, as the source writes it. *)
Example make_report_demo :
  _make_report demo_result
  = String.concat nl
      ["# Bulk Conversion Report"; ""; "Root: /tmp/src"; ""; "Destination: /tmp/out"; ""; "";
       "## Summary"; ""; "- Converted: 2"; "- Skipped: 0"; "- Failed: 1";
       "- Total words: 4"; "- Total headings: 2"; ""; ""; "## By Directory"; "";
       "### /tmp/src/a"; "- Files converted by type:"; "  - .txt: 1"; "- Documents: 1";
       "- Words: 2"; "- Headings: 1"; ""; "### /tmp/src/b"; "- Files converted by type:";
       "  - .docx: 1"; "- Documents: 1"; "- Words: 2"; "- Headings: 1"; ""; "## Errors"; "";
       "- /tmp/src/a/f2.pdf: cannot convert"; ""].
Proof. vm_compute. reflexivity. Qed.

(** ** The command line *)

Section Stop.
Variable convert_local : Path → result string.
Variables (src_root dest_root : Path).
Variables (include_ext exclude_ext : option (gset string)).
Variable on_conflict : ConflictPolicy.

#[local] Abbreviation body_stop :=
  (process_file convert_local src_root dest_root include_ext exclude_ext
     on_conflict false).
#[local] Abbreviation loop_stop :=
  (loop convert_local src_root dest_root include_ext exclude_ext
     on_conflict false).

(** Without [continue_on_error] the loop body goes on exactly when it has
    not recorded a failure. *)
Lemma process_file_stop t f w t' c w' :
  body_stop t f w = (Ok (t', c), w') →
  ∃ o, results t' = results t ++ [o]
       ∧ (fr_status o = failed ↔ c = Break).
Proof.
  intros H. rewrite process_file_eq in H. unfold on_failure in H.
  destruct (filtered _ _ _); [injection H as <- <- <-; by eexists|].
  destruct (_derive_output_path _ _ _) as [out_path|e]; [|done].
  cbv zeta in H.
  destruct (convert_local f) as [md_text|e]; [|injection H as <- <- <-; by eexists].
  destruct (match on_conflict with skip => _ | rename => _ end);
    [injection H as <- <- <-; by eexists|].
  destruct (_write_atomic _ md_text _) as [[[]|e] w2];
    injection H as <- <- <-; by eexists.
Qed.

Lemma loop_stop_at_failure : ∀ files t w t' w',
  loop_stop t files w = (Ok t', w') →
  ∃ good rest, results t' = results t ++ good ++ rest
    ∧ Forall (λ o, fr_status o ≠ failed) good
    ∧ (rest = [] ∨ ∃ o, rest = [o] ∧ fr_status o = failed).
Proof.
  induction files as [|f files IH]; intros t w t' w' H.
  { simpl in H. munfold. injection H as <- <-. exists [], []. rewrite app_nil_r.
    split; [done|]. split; [constructor|by left]. }
  rewrite loop_cons in H.
  destruct (body_stop t f w) as [[[t1 c]|e] w1] eqn:Ep; [|done].
  apply process_file_stop in Ep as (o & Hres & Hc). destruct c.
  - apply IH in H as (good & rest & Hnew & Hgood & Hrest).
    exists (o :: good), rest. rewrite Hnew, Hres, <- !app_assoc. split; [done|].
    split; [|done]. constructor; [|done]. intros Hf. by apply Hc in Hf.
  - injection H as <- <-. exists [], [o]. split; [done|]. split; [constructor|].
    right. exists o. split; [done|]. by apply Hc.
Qed.

End Stop.

Lemma count_status_app s l1 l2 :
  count_status s (l1 ++ l2) = count_status s l1 + count_status s l2.
Proof. unfold count_status. rewrite filter_app, length_app. lia. Qed.

Lemma count_status_none s l :
  Forall (λ o, fr_status o ≠ s) l → count_status s l = 0.
Proof.
  intros H. unfold count_status.
  assert (filter (λ o, fr_status o = s) l = []) as ->; [|done].
  induction H as [|o l Ho _ IH]; [done|]. by rewrite filter_cons_False.
Qed.

Section Main.
Variable convert_local : Path → result string.

(** X22: the exit status of [main] after a run that returns.  Unless
    [--no-continue-on-error] is given it is 0, whatever failed.  With
    that flag at most one outcome is failed, and it is the last one; the
    status is 1 when there is one and 0 when there is none.  The summary
    is written to the standard output and nothing to the standard
    error. *)
Theorem main_exit_status (args : Namespace) (es : list (string * node))
    (stdin : option string) (fs : FS) (r : BulkResult) :
  let out := (main convert_local args (Some (NDir es)) stdin fs).1 in
  (main_run convert_local args (Some (NDir es)) stdin fs).1 = Ok r →
  (arg_no_continue_on_error args = false → exit_code out = 0)
  ∧ (arg_no_continue_on_error args = true →
     br_failed r ≤ 1
     ∧ (exit_code out = 0 ↔ Forall (λ o, fr_status o ≠ failed) (br_files r))
     ∧ (exit_code out = 1 ↔ ∃ o, last (br_files r) = Some o ∧ fr_status o = failed))
  ∧ stderr out = []
  ∧ to_summary r ∈ stdout out.
Proof.
  intros out Hrun. unfold out, main. clear out.
  destruct (main_run convert_local args (Some (NDir es)) stdin fs) as [res w] eqn:E.
  simpl in Hrun. subst res. cbn [fst exit_code stderr stdout].
  split; [intros ->; by rewrite orb_true_r|]. split; [|split; [done|]].
  2:{ apply elem_of_app. right. by left. }
  intros Hflag. rewrite Hflag, orb_false_r.
  unfold main_run in E. rewrite Hflag in E. cbn [negb] in E.
  apply bulk_convert_Ok in E as (es' & w1 & w2 & t & w3 & E).
  cbv zeta in E. destruct E as (_ & _ & _ & Hloop & -> & _).
  pose proof (loop_results _ _ _ _ _ _ _ _ _ _ _ _ Hloop) as (Hc & _).
  destruct (Hc tally_consistent_0) as (_ & _ & Hfailed & _).
  apply loop_stop_at_failure in Hloop as (good & rest & Hnew & Hgood & Hrest).
  simpl in Hnew. cbn [br_failed br_files bulk_of]. rewrite Hfailed, Hnew.
  rewrite count_status_app, (count_status_none _ _ Hgood).
  destruct Hrest as [->|(o & -> & Ho)].
  - rewrite app_nil_r. change (count_status failed []) with 0.
    rewrite bool_decide_eq_true_2 by done. split; [lia|]. split; [done|].
    split; [done|]. intros (o & Hlast & Ho). apply last_Some in Hlast as [l' ->].
    apply Forall_app in Hgood as [_ Hgood]. apply Forall_cons in Hgood as [Hgood _]. done.
  - assert (count_status failed [o] = 1) as ->.
    { unfold count_status. by rewrite filter_cons_True. }
    rewrite bool_decide_eq_false_2 by lia. split; [lia|]. split.
    + split; [done|]. intros H. apply Forall_app in H as [_ H].
      apply Forall_cons in H as [H _]. done.
    + split; [|done]. intros _. exists o. by rewrite last_snoc.
Qed.


End Main.

Lemma main_exit_status_witness :
  exit_code (main demo_convert demo_args (Some demo_tree) (Some "yes") ∅).1 = 0
  ∧ br_failed demo_result = 1.
Proof.
  assert ((main_run demo_convert demo_args (Some demo_tree) (Some "yes") ∅).1
          = Ok demo_result) as Hrun by (vm_compute; reflexivity).
  destruct (main_exit_status demo_convert demo_args demo_entries (Some "yes") ∅
              demo_result Hrun) as (H & _).
  split; [exact (H eq_refl)|reflexivity].
Defined.


(** ** _write_atomic: failures, and writing again *)

(** X24: [_write_atomic] does not clean up after a failure.  Whenever
    the call raises, the final path is as it was.  A directory at the
    final path makes the call raise, whatever else is in the way, and the
    directory stays.  And when the call raises IsADirectoryError although
    no directory sits where the temporary sibling goes, it is [os.replace]
    that refused: the final path is a directory, and the temporary file
    is left behind with the whole text. *)
Theorem write_atomic_failure (p : Path) (data : string) (w : world) :
  (∀ e w', _write_atomic p data w = (Raise e, w') → w_fs w' !! p = w_fs w !! p)
  ∧ (is_dir (w_fs w) p = true →
     ∃ e w', _write_atomic p data w = (Raise e, w') ∧ is_dir (w_fs w') p = true)
  ∧ (∀ msg w', _write_atomic p data w = (Raise (IsADirectoryError msg), w') →
     is_dir (w_fs w) (tmp_of p) = false →
     is_dir (w_fs w') p = true ∧ w_fs w' !! tmp_of p = Some (File data)).
Proof.
  split; [|split].
  - intros e w' H. apply _write_atomic_log in H as (quiet & Hq & -> & _).
    rewrite app_nil_r. by apply replay_frame.
  - intros Hd. destruct (_write_atomic p data w) as [[[]|e] w'] eqn:H.
    + exfalso. rewrite _write_atomic_eq in H.
      destruct (mkdir (PurePath.parent p) w) as [[[]|e1] w1] eqn:Emk; [|done].
      apply mkdir_parents_keeps_dirs in Emk. cbv zeta in H.
      destruct (decide (PurePath.name p = "")); [done|].
      destruct (is_dir (w_fs w1) (tmp_of p)); [done|].
      by rewrite (is_dir_keeps _ _ _ Emk Hd) in H.
    + exists e, w'. split; [done|].
      by apply (is_dir_keeps _ _ _ (_write_atomic_keeps_dirs _ _ _ _ _ H)).
  - intros msg w' H Ht. rewrite _write_atomic_eq in H.
    destruct (mkdir (PurePath.parent p) w) as [[[]|e1] w1] eqn:Emk.
    2:{ injection H as -> <-. apply mkdir_parents_Raise_kind in Emk.
        by destruct Emk as [[? [=]]|[? [=]]]. }
    apply mkdir_quiet in Emk as (mk & _ & F & Hmk).
    assert (is_dir (w_fs w1) (tmp_of p) = false) as Ht1.
    { rewrite <- Ht. apply is_dir_same. rewrite F. apply replay_frame.
      eapply Forall_impl; [apply Hmk|]. by intros ev (_ & _ & ?). }
    cbv zeta in H. destruct (decide (PurePath.name p = "")); [done|].
    rewrite Ht1 in H. destruct (is_dir (w_fs w1) p) eqn:Ed; [|done].
    injection H as _ <-. simpl. split; [|apply lookup_insert_eq].
    rewrite is_dir_insert_ne; [done|apply tmp_of_ne].
Qed.

Lemma write_atomic_failure_witness :
  is_dir (w_fs write_on_dir.2) ["tmp"; "out"; "process_report.md"] = true
  ∧ w_fs write_on_dir.2 !! ["tmp"; "out"; "process_report.md.tmp"] = Some (File "text").
Proof.
  assert (write_on_dir.1 = Raise write_on_dir_error) as H1 by (vm_compute; reflexivity).
  destruct (write_atomic_failure ["tmp"; "out"; "process_report.md"] "text"
              (start fs_report_dir)) as (_ & _ & H).
  apply (H ("[Errno 21] Is a directory: '/tmp/out/process_report.md.tmp'"
            +:+ " -> '/tmp/out/process_report.md'") write_on_dir.2).
  - change (write_on_dir = (Raise write_on_dir_error, write_on_dir.2)).
    rewrite <- H1. apply surjective_pairing.
  - reflexivity.
Defined.

(** X25: after a write that returned, writing to the same path again
    returns, replaces the text and changes nothing else; no temporary
    file is left. *)
Theorem write_atomic_twice (p : Path) (d1 d2 : string) (w w1 : world) :
  _write_atomic p d1 w = (Ok (), w1) →
  ∃ w2, _write_atomic p d2 w1 = (Ok (), w2)
    ∧ w_fs w2 = <[p := File d2]> (w_fs w1)
    ∧ w_fs w2 !! tmp_of p = None.
Proof.
  intros H. pose proof (_write_atomic_Ok _ _ _ _ H) as (Hp & Htmp & Hdirs).
  assert (PurePath.name p ≠ "") as Hname.
  { rewrite _write_atomic_eq in H.
    destruct (mkdir (PurePath.parent p) w) as [[[]|e1] w0]; [|done].
    cbv zeta in H. by case_decide. }
  eexists. split; [by eapply _write_atomic_again|]. simpl. split; [done|].
  rewrite lookup_insert_ne; [done|]. apply not_eq_sym, tmp_of_ne.
Qed.

Lemma write_atomic_twice_witness :
  ∃ w2, _write_atomic ["out"; "a.md"] "newer" write_old_new.2 = (Ok (), w2)
        ∧ w_fs w2 !! ["out"; "a.md"] = Some (File "newer").
Proof.
  destruct (write_atomic_twice ["out"; "a.md"] "new" "newer" (start fs_old) write_old_new.2)
    as (w2 & H1 & H2 & _).
  - vm_compute. reflexivity.
  - exists w2. split; [exact H1|]. rewrite H2. apply lookup_insert_eq.
Defined.

(** ** _unique_path, once more *)

(** X26: [_unique_path] stays in the directory of the path it is given and
    keeps its suffix, and what it returns is returned unchanged when it is
    given again. *)
Theorem unique_path_stable (fs : FS) (p : Path) :
  _unique_path fs (_unique_path fs p) = _unique_path fs p
  ∧ PurePath.parent (_unique_path fs p) = PurePath.parent p
  ∧ (PurePath.suffix p ≠ "" →
     PurePath.suffix (_unique_path fs p) = PurePath.suffix p).
Proof.
  split.
  - pose proof (_unique_path_fresh fs p) as Hfree.
    unfold _unique_path at 1, _unique_path_fuel. by rewrite Hfree.
  - destruct (_unique_path_fuel_total fs p) as [q Hq].
    unfold _unique_path. rewrite Hq. simpl. unfold _unique_path_fuel in Hq.
    destruct (exists_ fs p) eqn:E; cbn [negb] in Hq; [|by injection Hq as <-].
    apply _unique_path_loop_Some in Hq as (k & _ & -> & _). rewrite parent_join.
    split; [done|]. intros Hs.
    destruct (suffix_shape p) as [?|(e & He & Hne & Hd)]; [done|].
    rewrite He. unfold numbered_name. rewrite <- !str_app_assoc.
    apply (suffix_of_name _ _ e); [|done..].
    intros H. apply (f_equal String.length) in H. rewrite !str_len_app in H.
    simpl in H. lia.
Qed.

(** ** The fields of the outcomes *)

Section Shape.
Variable convert_local : Path → result string.
Variables (src_root dest_root : Path).
Variables (include_ext exclude_ext : option (gset string)).
Variable on_conflict : ConflictPolicy.
Variable continue_on_error : bool.

Lemma process_file_shape t f w t' c w' :
  process_file convert_local src_root dest_root include_ext exclude_ext on_conflict
    continue_on_error t f w = (Ok (t', c), w') →
  ∃ o, results t' = results t ++ [o]
       ∧ outcome_shape include_ext exclude_ext on_conflict o.
Proof.
  intros H. rewrite process_file_eq in H. unfold on_failure in H.
  destruct (filtered _ _ _) eqn:Ef.
  { injection H as <- <- <-. eexists. split; [done|].
    unfold outcome_shape. simpl. split_and!; try done. by left. }
  destruct (_derive_output_path _ _ _) as [out_path|e]; [|done].
  cbv zeta in H.
  destruct (convert_local f) as [md_text|e].
  2:{ injection H as <- <- <-. eexists. split; [done|].
      unfold outcome_shape. simpl. by split_and!. }
  destruct on_conflict eqn:Epol.
  - destruct (_write_atomic _ md_text _) as [[[]|e] w2];
      injection H as <- <- <-; eexists; (split; [done|]);
      unfold outcome_shape; simpl; by split_and!.
  - destruct (exists_ _ out_path).
    { injection H as <- <- <-. eexists. split; [done|].
      unfold outcome_shape. simpl. split_and!; try done. by right. }
    destruct (_write_atomic _ md_text _) as [[[]|e] w2];
      injection H as <- <- <-; eexists; (split; [done|]);
      unfold outcome_shape; simpl; by split_and!.
Qed.

Lemma loop_shape : ∀ files t w t' w',
  loop convert_local src_root dest_root include_ext exclude_ext on_conflict
    continue_on_error t files w = (Ok t', w') →
  ∃ new, results t' = results t ++ new
         ∧ Forall (outcome_shape include_ext exclude_ext on_conflict) new.
Proof.
  induction files as [|f files IH]; intros t w t' w' H.
  { simpl in H. munfold. injection H as <- <-. exists []. by rewrite app_nil_r. }
  rewrite loop_cons in H.
  destruct (process_file _ _ _ _ _ _ _ t f w) as [[[t1 []]|e] w1] eqn:Ep; [| |done];
    apply process_file_shape in Ep as (o & Hres & Ho).
  - apply IH in H as (new & Hnew & Hall). exists (o :: new).
    rewrite Hnew, Hres, <- app_assoc. split; [done|by constructor].
  - injection H as <- <-. exists [o]. split; [done|by constructor].
Qed.

End Shape.

Section ShapeRun.
Variable convert_local : Path → result string.
Variable _make_report : BulkResult → string.

(** X27: the fields of every outcome of a run go together.  A converted
    outcome has a destination, both counts and no reason; a skipped one
    has neither destination nor counts, and its reason is "filtered"
    exactly when the filters reject its source and otherwise "exists",
    which occurs under the skip policy only; a failed one has a reason
    and neither destination nor counts. *)
Theorem outcome_fields (es : list (string * node)) (root : Path)
    (dest : option Path) (include_ext exclude_ext : option (gset string))
    (on_conflict : ConflictPolicy) (continue_on_error : bool)
    (thresholds : option BulkConvertThresholds)
    (confirm : option (PreflightStats → BulkConvertThresholds → bool))
    (skip_hidden : bool) (w : world) (r : BulkResult) :
  (bulk_convert convert_local _make_report (Some (NDir es)) root dest include_ext
     exclude_ext on_conflict continue_on_error thresholds confirm skip_hidden w).1
  = Ok r →
  br_root r = root ∧ br_dest r = dest_root_of root dest
  ∧ Forall (outcome_shape (normalize_ext include_ext) (normalize_ext exclude_ext)
              on_conflict) (br_files r).
Proof.
  destruct (bulk_convert _ _ _ _ _ _ _ _ _ _ _ _ w) as [r0 w'] eqn:E. simpl.
  intros ->. apply bulk_convert_Ok in E as (es' & w1 & w2 & t & w3 & E).
  cbv zeta in E. destruct E as (_ & _ & _ & Hloop & -> & _).
  split; [done|]. split; [done|].
  apply loop_shape in Hloop as (new & Hnew & Hall). simpl in Hnew. simpl.
  by rewrite Hnew.
Qed.

End ShapeRun.

Lemma outcome_fields_witness :
  Forall (outcome_shape None None rename) (br_files demo_result).
Proof.
  assert ((demo_run rename true ∅).1 = Ok demo_result) as Hrun
    by (vm_compute; reflexivity).
  destruct (outcome_fields demo_convert demo_report demo_entries demo_src
              (Some demo_dest) None None rename true None None true (start ∅)
              demo_result Hrun) as (_ & _ & H).
  exact H.
Defined.

(** ** Running twice under the skip policy: the two runs *)

(** A successful write adds the path and the directories above it, and
    removes nothing but the temporary sibling. *)
Lemma _write_atomic_Ok_exists p data w w' q :
  _write_atomic p data w = (Ok (), w') → q ≠ [] → q ≠ tmp_of p →
  is_Some (w_fs w' !! q) ↔ is_Some (w_fs w !! q) ∨ q `prefix_of` p.
Proof.
  rewrite _write_atomic_eq. intros H Hq Htmp.
  destruct (mkdir (PurePath.parent p) w) as [[[]|e] w1] eqn:Emk; [|done].
  pose proof (mkdir_Ok_lookup _ _ _ Emk q) as Hq1. cbv zeta in H.
  destruct (decide (PurePath.name p = "")) as [Hn|Hn]; [done|].
  destruct (is_dir (w_fs w1) (tmp_of p)); [done|].
  destruct (is_dir (w_fs w1) p); [done|]. injection H as <-. simpl.
  assert (p ≠ []) as Hp by (by intros ->).
  assert (q `prefix_of` p ↔ q = p ∨ q ∈ ancestors_and_self (PurePath.parent p)) as ->.
  { rewrite ancestors_and_self_prefix. split.
    - rewrite (path_parent_name p Hp) at 1. intros [?| ->]%prefix_snoc_cases; [by right|].
      left. symmetry. by apply path_parent_name.
    - intros [->|[_ H]]; [done|]. rewrite (path_parent_name p Hp). by apply prefix_app_r. }
  destruct (decide (q = p)) as [->|Hne].
  { rewrite lookup_insert_eq. split; [by right; left|done]. }
  rewrite lookup_insert_ne, lookup_delete_ne, Hq1 by done.
  case_decide; [split; [by right; right|done]|]. tauto.
Qed.

Lemma taken_snoc fs l o q :
  taken fs (l ++ [o]) q
  ↔ taken fs l q ∨ ∃ dj, fr_dest o = Some dj ∧ q `prefix_of` dj.
Proof.
  unfold taken. split.
  - intros [?|(o' & dj & [Ho| ->%list_elem_of_singleton]%elem_of_app & Hd & Hp)];
      [by left; left|left; right; by exists o', dj|right; by exists dj].
  - intros [[?|(o' & dj & Ho & Hd & Hp)]|(dj & Hd & Hp)]; [by left|right..].
    + exists o', dj. split; [apply elem_of_app; by left|done].
    + exists o, dj. split; [apply elem_of_app; right; by apply list_elem_of_singleton|done].
Qed.

Lemma exists_is_Some fs q : q ≠ [] → exists_ fs q = true ↔ is_Some (fs !! q).
Proof. destruct q; [done|]. intros _. simpl. apply bool_decide_eq_true. Qed.

Section SkipRun.
Variable convert_local : Path → result string.
Variables (src_root dest_root : Path).
Variables (include_ext exclude_ext : option (gset string)).
Variable continue_on_error : bool.
Variable fsb : FS.

#[local] Abbreviation loop_skip' :=
  (loop convert_local src_root dest_root include_ext exclude_ext skip continue_on_error).
#[local] Abbreviation body_skip' :=
  (process_file convert_local src_root dest_root include_ext exclude_ext skip
     continue_on_error).

(** One turn of the loop that records no failure. *)
Lemma process_file_skip_step t f w t1 c w1 :
  body_skip' t f w = (Ok (t1, c), w1) → n_failed t1 ≤ n_failed t →
  c = Continue ∧ n_failed t1 = n_failed t
  ∧ ∃ o, results t1 = results t ++ [o]
    ∧ if filtered include_ext exclude_ext f
      then o = skipped_outcome f "filtered" ∧ w_fs w1 = w_fs w
      else ∃ out md_text,
        _derive_output_path f src_root dest_root = Ok out
        ∧ convert_local f = Ok md_text
        ∧ ((exists_ (w_fs w) out = true ∧ o = skipped_outcome f "exists"
            ∧ w_fs w1 = w_fs w)
           ∨ (exists_ (w_fs w) out = false ∧ o = converted_outcome f out md_text
              ∧ _write_atomic out md_text (after_convert w f) = (Ok (), w1))).
Proof.
  intros H Hnf. rewrite process_file_eq in H. unfold on_failure in H.
  destruct (filtered _ _ f) eqn:Ef.
  { injection H as <- <- <-. split_and!; [done..|]. by eexists. }
  destruct (_derive_output_path f src_root dest_root) as [out|e] eqn:Ed; [|done].
  cbv zeta in H.
  destruct (convert_local f) as [md_text|e] eqn:Ec;
    [|injection H as <- <- <-; simpl in Hnf; lia].
  change (w_fs (after_convert w f)) with (w_fs w) in H.
  destruct (exists_ (w_fs w) out) eqn:Ex.
  - injection H as <- <- <-. split_and!; [done..|]. eexists. split; [done|].
    exists out, md_text. split_and!; [done..|]. by left.
  - destruct (_write_atomic out md_text _) as [[[]|e] w2] eqn:Ew;
      [|injection H as <- <- <-; simpl in Hnf; lia].
    injection H as <- <- <-. split_and!; [done..|]. eexists. split; [done|].
    exists out, md_text. split_and!; [done..|]. by right.
Qed.

(** The outcomes of a loop that records no failure, one by one. *)
Lemma loop_skip_outcomes : ∀ files t w t' w',
  loop_skip' t files w = (Ok t', w') → n_failed t' = n_failed t →
  exists_as_taken fsb (results t) w →
  ∃ new, results t' = results t ++ new
    ∧ ∀ i f o, files !! i = Some f → new !! i = Some o →
        skip_run_outcome convert_local src_root dest_root include_ext exclude_ext fsb
          (results t ++ take i new) f o.
Proof.
  induction files as [|f files IH]; intros t w t' w' H Hnf Hinv.
  { simpl in H. munfold. injection H as <- <-. exists []. rewrite app_nil_r.
    split; [done|]. intros i f o Hf. by rewrite lookup_nil in Hf. }
  rewrite loop_cons in H.
  destruct (body_skip' t f w) as [[[t1 c]|e] w1] eqn:Ep; [|done].
  assert (n_failed t1 ≤ n_failed t) as Hmono.
  { destruct c; [|injection H as <- <-; lia].
    pose proof (loop_failed_mono _ _ _ _ _ _ _ _ _ _ _ H). lia. }
  apply process_file_skip_step in Ep as (-> & Hn1 & o & Hres & Hstep); [|done].
  assert (skip_run_outcome convert_local src_root dest_root include_ext exclude_ext fsb
            (results t) f o ∧ exists_as_taken fsb (results t ++ [o]) w1) as [Ho Hinv1].
  { unfold skip_run_outcome. destruct (filtered include_ext exclude_ext f).
    { destruct Hstep as [-> Hfs]. split; [done|]. intros q Hq Ht.
      rewrite Hfs, taken_snoc, (Hinv q Hq Ht). simpl.
      split; [by left|]. by intros [?|(dj & [=] & _)]. }
    destruct Hstep as (out & md_text & Hd & Hc & Hcase).
    pose proof (derived_not_tmp_named _ _ _ _ Hd) as Htmp.
    assert (out ≠ []) as Hout.
    { intros ->. unfold _derive_output_path, with_suffix, PurePath.with_suffix in Hd.
      destruct (PurePath.relative_to f src_root); [|done]. case_decide; [done|].
      injection Hd as Hd. by destruct (PurePath.parent _). }
    pose proof (Hinv out Hout Htmp) as Hex. rewrite <- exists_is_Some in Hex by done.
    destruct Hcase as [(Ex & -> & Hfs)|(Ex & -> & Hw)].
    - split.
      + exists out, md_text. split_and!; [done..| |]; [done|]. intros Hnt.
        by apply Hex in Ex.
      + intros q Hq Ht. rewrite Hfs, taken_snoc, (Hinv q Hq Ht). simpl.
        split; [by left|]. by intros [?|(dj & [=] & _)].
    - split.
      + exists out, md_text. split_and!; [done..| |done]. intros Ht%Hex. congruence.
      + intros q Hq Ht. rewrite taken_snoc. simpl.
        rewrite (_write_atomic_Ok_exists _ _ _ _ q Hw Hq).
        2:{ intros ->. by rewrite tmp_named_tmp_of in Ht. }
        change (w_fs (after_convert w f)) with (w_fs w). rewrite (Hinv q Hq Ht).
        split; [intros [?|?]; [by left|right; by exists out]|].
        intros [?|(dj & [= <-] & ?)]; [by left|by right]. }
  rewrite <- Hres in Hinv1.
  apply IH in H as (new & Hnew & Hall); [|lia|done].
  exists (o :: new). rewrite Hnew, Hres, <- app_assoc. split; [done|].
  intros [|i] f' o' Hf' Ho'; simpl in Hf', Ho'.
  - injection Hf' as <-. injection Ho' as <-. simpl. by rewrite app_nil_r.
  - specialize (Hall i f' o' Hf' Ho'). rewrite Hres, <- app_assoc in Hall. exact Hall.
Qed.

End SkipRun.

(** A destination lies below the destination root, so making the root
    does not create it. *)
Lemma derived_not_above src root dest_root out :
  _derive_output_path src root dest_root = Ok out → src ≠ root →
  out ∉ ancestors_and_self dest_root.
Proof.
  intros H Hne. apply _derive_output_path_Ok in H as (dir & _ & -> & _); [|done].
  rewrite ancestors_and_self_prefix. intros [_ Hpre%prefix_length].
  unfold PurePath.join in Hpre. rewrite !length_app in Hpre. simpl in Hpre. lia.
Qed.

Lemma skip_run_outcome_base cl root dest_root inc exc fs fs' earlier f o :
  (∀ out, _derive_output_path f root dest_root = Ok out →
          is_Some (fs !! out) ↔ is_Some (fs' !! out)) →
  skip_run_outcome cl root dest_root inc exc fs earlier f o →
  skip_run_outcome cl root dest_root inc exc fs' earlier f o.
Proof.
  unfold skip_run_outcome. intros Hb. destruct (filtered inc exc f); [done|].
  intros (out & md_text & Hd & Hc & H1 & H2). exists out, md_text.
  assert (taken fs earlier out ↔ taken fs' earlier out) as Ht
    by (unfold taken; by rewrite (Hb out Hd)).
  split_and!; [done..| |]; intros ?; [apply H1|apply H2]; by rewrite Ht.
Qed.

Section TwiceRun.
Variable convert_local : Path → result string.
Variable _make_report : BulkResult → string.

(** C4, as the code has it, for a source root and a destination root
    that are not inside one another: under the skip policy, when a first
    run returns without a failed outcome, it has one outcome for every
    candidate, in order.  A candidate that the filters reject is skipped
    as "filtered".  Any other candidate is converted, and the text the
    converter returned for it is at its destination after the run, unless
    the destination is taken when its turn comes: it was there before the
    run, or an earlier candidate of the run was converted to it (two
    sources with the same stem in one directory) or to a path below it;
    then the candidate is skipped as "exists".  A second run on the file
    system the first one leaves, with the same arguments, returns,
    records every candidate as skipped (as "filtered" those the filters
    reject and as "exists" the others, on which the converter is called
    again), writes no output, and changes one file only: it writes its
    own report over the report of the first run.  Neither run changes
    anything at or below the source root. *)
Theorem second_run_skips_all es root dest include_ext exclude_ext continue_on_error
    thresholds confirm skip_hidden fs0 r1 :
  let dest_root := dest_root_of root dest in
  let files := _iter_files root (NDir es) skip_hidden in
  let inc := normalize_ext include_ext in
  let exc := normalize_ext exclude_ext in
  let run1 := bulk_convert convert_local _make_report (Some (NDir es)) root dest
                include_ext exclude_ext skip continue_on_error thresholds confirm
                skip_hidden (start fs0) in
  let run2 := bulk_convert convert_local _make_report (Some (NDir es)) root dest
                include_ext exclude_ext skip continue_on_error thresholds confirm
                skip_hidden (start (w_fs run1.2)) in
  ¬ root `prefix_of` dest_root → ¬ dest_root `prefix_of` root →
  run1.1 = Ok r1 → br_failed r1 = 0 →
  fr_src <$> br_files r1 = files
  ∧ Forall (λ o, fr_status o ≠ failed) (br_files r1)
  ∧ (∀ i f o, files !! i = Some f → br_files r1 !! i = Some o →
       skip_run_outcome convert_local root dest_root inc exc fs0
         (take i (br_files r1)) f o)
  ∧ (∀ o out md_text, o ∈ br_files r1 → fr_dest o = Some out →
       convert_local (fr_src o) = Ok md_text → out ≠ report_path dest_root →
       w_fs run1.2 !! out = Some (File md_text))
  ∧ (∃ r2, run2.1 = Ok r2
      ∧ br_files r2 = (λ f, skipped_outcome f (skip_reason inc exc f)) <$> files
      ∧ br_converted r2 = 0 ∧ br_failed r2 = 0
      ∧ w_fs run2.2
        = <[report_path dest_root := File (_make_report r2)]> (w_fs run1.2)
      ∧ w_log run2.2
        = EvPreflight root
          :: gate_events (_preflight root (NDir es) skip_hidden) (thresholds_of thresholds)
               confirm
          ++ (EvConvert <$> filter (λ f, filtered inc exc f = false) files)
          ++ write_events (report_path dest_root) (_make_report r2))
  ∧ (∀ p, root `prefix_of` p →
       w_fs run1.2 !! p = fs0 !! p ∧ w_fs run2.2 !! p = fs0 !! p).
Proof.
  intros dest_root files inc exc run1 run2 Hrd Hdr.
  assert (∀ p, root `prefix_of` p →
            w_fs run1.2 !! p = fs0 !! p ∧ w_fs run2.2 !! p = fs0 !! p) as Hframe.
  { intros p Hp. destruct (below_root_outside root dest_root p Hrd Hdr Hp) as [H1 H2].
    pose proof (bulk_convert_keeps_outside convert_local _make_report (Some (NDir es))
                  root dest include_ext exclude_ext skip continue_on_error thresholds
                  confirm skip_hidden (start fs0) p H1 H2) as E1.
    pose proof (bulk_convert_keeps_outside convert_local _make_report (Some (NDir es))
                  root dest include_ext exclude_ext skip continue_on_error thresholds
                  confirm skip_hidden (start (w_fs run1.2)) p H1 H2) as E2.
    split; [exact E1|]. etrans; [exact E2|exact E1]. }
  revert Hframe. unfold run2, run1. clear run1 run2.
  destruct (bulk_convert _ _ _ _ _ _ _ _ _ _ _ _ (start fs0)) as [res1 w1] eqn:E1.
  cbn [fst snd]. intros Hframe -> Hnf.
  apply bulk_convert_Ok in E1 as (es' & wa & wg & t1 & w3 & E1). cbv zeta in E1.
  fold (dest_root_of root dest) (thresholds_of thresholds) in E1.
  destruct E1 as (Hes & Emk & Egate & El & -> & Ew). injection Hes as <-.
  fold files inc exc dest_root in El, Emk, Ew |- *.
  set (stats := _preflight root (NDir es) skip_hidden) in *.
  set (th := thresholds_of thresholds) in *.
  rewrite gate_after_preflight in Egate.
  destruct (gate_passes stats th confirm) eqn:Eg; [|done].
  injection Egate as <-. simpl in Hnf.
  revert Hframe.
  rewrite bulk_convert_stages. cbv zeta. fold files inc exc stats th dest_root.
  rewrite Eg. unfold finish. simpl br_files. intros Hframe.
  pose proof (loop_no_failure_all _ _ _ _ _ _ _ _ _ _ _ El Hnf)
    as (new & Hnew & Hsrc & Hall). simpl in Hnew.
  split; [by rewrite Hnew|]. split; [by rewrite Hnew|].
  split; [|split; [|split; [|exact Hframe]]].
  - (* the outcomes of the first run *)
    destruct (loop_skip_outcomes convert_local root dest_root inc exc continue_on_error
                (w_fs wa) files tally0 _ _ _ El Hnf) as (new' & Hnew' & Hout).
    { intros q Hq Ht. simpl. unfold taken. split; [by left|].
      by intros [?|(o & dj & ?%elem_of_nil & _)]. }
    simpl in Hnew'. rewrite Hnew'. intros i f o Hf Ho.
    specialize (Hout i f o Hf Ho). simpl in Hout. revert Hout.
    apply skip_run_outcome_base. intros out Hd.
    rewrite (mkdir_Ok_lookup _ _ _ Emk out). simpl.
    rewrite decide_False; [done|]. eapply derived_not_above; [exact Hd|].
    pose proof (iter_files_ne_root root (NDir es) skip_hidden) as Hne.
    rewrite Forall_forall in Hne. apply Hne. by eapply list_elem_of_lookup_2.
  - (* the outputs of the first run *)
    intros o out md_text Ho Hd Hc Hrep.
    pose proof (loop_written _ _ _ _ _ _ _ _ _ _ _ _ El
                  (iter_files_ne_root root (NDir es) skip_hidden))
      as (new' & Hnew' & Hwr & _).
    simpl in Hnew'. rewrite Hnew' in Ho. rewrite Forall_forall in Hwr.
    specialize (Hwr o Ho). unfold written_between, outcome_ok in Hwr.
    destruct (fr_status o); [|congruence..].
    destruct Hwr as (d & md & dir & Hd' & Hc' & _ & _ & Hs & _ & Hholds).
    assert (d = out) as -> by congruence. assert (md = md_text) as -> by congruence.
    eapply _write_atomic_frame; [exact Ew|done| |done]. by apply suffix_md_not_tmp.
  - (* the second run *)
    pose proof (loop_no_failure _ _ _ _ _ _ _ _ _ _ _ El Hnf) as Hset.
    pose proof (_write_atomic_keeps_entries _ _ _ _ _ Ew) as Hk.
    assert (Forall (settled convert_local root dest_root inc exc (w_fs w1)) files) as Hset1.
    { eapply Forall_impl; [apply Hset|]. intros f. by apply settled_keeps. }
    apply _write_atomic_Ok in Ew as (Hrep & Htmp & Hdirs).
    rewrite parent_join in Hdirs.
    assert (mkdir dest_root (start (w_fs w1)) = (Ok (), start (w_fs w1))) as ->.
    { apply mkdir_parents_noop. intros n Hn. apply Hdirs.
      apply list_elem_of_fmap. exists n. split; [done|]. apply elem_of_seq. lia. }
    rewrite (loop_all_skipped convert_local root dest_root inc exc continue_on_error
               files tally0 (after_gate (start (w_fs w1)) root stats th confirm) Hset1).
    set (t2 := foldl (λ t f, record_skipped t f (skip_reason inc exc f)) tally0 files).
    destruct (foldl_record_skipped (skip_reason inc exc) files tally0) as (R1 & R2 & R3).
    fold t2 in R1, R2, R3. simpl in R1, R2, R3.
    erewrite (_write_atomic_again (dest_root // "process_report.md")); simpl.
    + exists (bulk_of root dest_root t2). split; [done|]. simpl.
      split_and!; [done..| |].
      * done.
      * unfold report_path. by rewrite <- app_assoc.
    + by rewrite parent_join.
    + by rewrite name_join.
    + exact Htmp.
    + exact Hrep.
Qed.
End TwiceRun.

Lemma second_run_skips_all_witness :
  (∃ r2, (clash_run (w_fs (clash_run ∅).2)).1 = Ok r2
         ∧ br_converted r2 = 0 ∧ br_failed r2 = 0)
  ∧ w_fs (clash_run ∅).2 !! (demo_dest ++ ["a.md"])
    = Some (File "#a.txt converted").
Proof.
  destruct (second_run_skips_all always_convert demo_report clash_entries demo_src
              (Some demo_dest) None None true None None true ∅ clash_result)
    as (_ & _ & _ & Hdisk & (r2 & H1 & _ & H3 & H4 & _) & _).
  - apply (bool_decide_unpack _). vm_compute. exact I.
  - apply (bool_decide_unpack _). vm_compute. exact I.
  - vm_compute. reflexivity.
  - reflexivity.
  - split; [exists r2; split; [exact H1|]; split; assumption|].
    apply (Hdisk (converted_outcome (demo_src ++ ["a.txt"]) (demo_dest ++ ["a.md"])
                    "#a.txt converted")).
    + vm_compute. left.
    + reflexivity.
    + reflexivity.
    + vm_compute. discriminate.
Defined.

(** C4 as stated fails: with a converter that returns for every file,
    the first run converts [a.txt] and skips [a.pdf], whose destination is
    the same; and the second run replaces a file that exists, the report
    of the first run. *)
Lemma first_run_skips_and_second_overwrites :
  (clash_run ∅).1 = Ok clash_result
  ∧ (λ o, (fr_src o, fr_status o)) <$> br_files clash_result
    = [(demo_src ++ ["a.txt"], converted); (demo_src ++ ["a.pdf"], skipped)]
  ∧ is_file (w_fs (clash_run ∅).2) (report_path demo_dest) = true
  ∧ EvReplace (tmp_of (report_path demo_dest)) (report_path demo_dest)
    ∈ w_log (clash_run (w_fs (clash_run ∅).2)).2
  ∧ w_fs (clash_run (w_fs (clash_run ∅).2)).2 !! report_path demo_dest
    ≠ w_fs (clash_run ∅).2 !! report_path demo_dest.
Proof.
  split; [vm_compute; reflexivity|]. split; [reflexivity|].
  split; [vm_compute; reflexivity|].
  split; [apply (bool_decide_unpack _); vm_compute; exact I|].
  vm_compute. discriminate.
Qed.
